(** * Stellar Clash: the simulation and combat engine of [lib/game-engine.ts]

    A shallow embedding of the [GameEngine] class: the entity records, the
    per-tick update pipeline ([update] and the functions it calls), the
    input handlers and the session control surface, followed by the
    properties of the engine that the specification states.

    Conventions of the embedding.

    - A JavaScript [number] is a rational [Q]: arithmetic is exact, there is
      no rounding, no NaN and no infinity.  Decimal literals of the source
      ([0.98], [0.2]) are the same decimal literals here.
    - An object is a record and a mutation of a field is a record update.
      A [Player] object lives in the [players] map; a reference to it is
      the key under which it is stored, and a mutation through the
      reference is a [set] at that key, so that two references to the same
      player (the victim and the killer of a hit, say) see each other's
      writes.
    - The [players] map is a JavaScript [Map]: an association list in
      insertion order, which is the order [forEach] visits it in.
    - Arrays are lists; [forEach] on the projectile array follows
      ECMAScript: the length is read once, the index runs from [0] to that
      length, and an index that is no longer in the array is passed over.
    - [Math.random()] reads the next element of a sequence [rnd : nat -> Q]
      and advances the counter [randomIx] of the engine; [performance.now()]
      and [Date.now()] are arguments of the functions that read them.
    - [Math.cos], [Math.sin] and [Math.atan2] are parameters of the
      development.  [getDistance(a, b) < r] is decided without the square
      root, as [0 < r] and [dx*dx + dy*dy < r*r].
    - Template strings that embed numbers (projectile ids, [hsl(...)]
      colours) are kept as constructors holding the numbers.
    - Drawing, audio and the outbound network callback do not write to the
      engine's state and are left out. *)

From Stdlib Require Import QArith Qminmax Qround Lqa Lia List String Bool Arith.
Import ListNotations.

Open Scope string_scope.
Open Scope Q_scope.

(** ** Numbers *)

(** [a < b] of the source, as a boolean. *)
Definition ltb (a b : Q) : bool := if Qlt_le_dec a b then true else false.

(** [a <= b] of the source, as a boolean. *)
Definition leb (a b : Q) : bool := negb (ltb b a).

Infix "<?" := ltb (at level 70, no associativity) : Q_scope.
Infix "<=?" := leb (at level 70, no associativity) : Q_scope.

(** ** Data model *)

Record Vector2D := mkVector2D { x : Q; y : Q }.

(** Identifiers.  [Name s] is a caller-supplied string; the others are the
    template strings [projectile_${Date.now()}_${Math.random()}],
    [asteroid_${i}] and [powerup_${i}]. *)
Inductive Ident :=
| Name (s : string)
| ProjectileId (now r : Q)
| AsteroidId (i : nat)
| PowerUpId (i : nat).

Record GameObject := mkGameObject {
  id : Ident;
  position : Vector2D;
  velocity : Vector2D;
  rotation : Q;
  health : Q;
  maxHealth : Q;
  active : bool
}.

Record Player := mkPlayer {
  playerBase :> GameObject;
  playerId : string;
  score : Q;
  kills : Q;
  deaths : Q;
  shield : Q;
  maxShield : Q;
  energy : Q;
  maxEnergy : Q;
  weaponCooldown : Q;
  boostCooldown : Q
}.

Record Projectile := mkProjectile {
  projectileBase :> GameObject;
  ownerId : string;
  damage : Q;
  lifetime : Q
}.

Inductive PowerUpType := health_t | shield_t | energy_t | weapon_t.

Record PowerUp := mkPowerUp {
  powerUpBase :> GameObject;
  type : PowerUpType;
  value : Q;
  respawnTime : Q
}.

Record Asteroid := mkAsteroid {
  asteroidBase :> GameObject;
  size : Q;
  rotationSpeed : Q
}.

(** A CSS colour: [hsl(h, s%, l%)] or a literal such as ["#ff4444"]. *)
Inductive Color :=
| Hsl (h s l : Q)
| Css (c : string).

Module Particle.

Record t := mk {
  position : Vector2D;
  velocity : Vector2D;
  color : Color;
  life : Q;
  maxLife : Q;
  size : Q
}.

End Particle.

Module Mouse.

Record t := mk { x : Q; y : Q; pressed : bool }.

End Mouse.

(** The part of [HTMLCanvasElement] the engine reads. *)
Record Canvas := mkCanvas { width : Q; height : Q }.

Record GameEngine := mkGameEngine {
  canvas : Canvas;
  players : list (string * Player);
  projectiles : list Projectile;
  powerUps : list PowerUp;
  asteroids : list Asteroid;
  particles : list Particle.t;
  gameTime : Q;
  lastUpdate : Q;
  isHost : bool;
  localPlayerId : string;
  keys : list string;
  mouse : Mouse.t;
  randomIx : nat
}.

(** ** Field updates *)

Definition withPosition (v : Vector2D) (g : GameObject) : GameObject :=
  mkGameObject (id g) v (velocity g) (rotation g) (health g) (maxHealth g) (active g).

Definition withVelocity (v : Vector2D) (g : GameObject) : GameObject :=
  mkGameObject (id g) (position g) v (rotation g) (health g) (maxHealth g) (active g).

Definition withRotation (r : Q) (g : GameObject) : GameObject :=
  mkGameObject (id g) (position g) (velocity g) r (health g) (maxHealth g) (active g).

Definition withHealth (h : Q) (g : GameObject) : GameObject :=
  mkGameObject (id g) (position g) (velocity g) (rotation g) h (maxHealth g) (active g).

Definition withActive (a : bool) (g : GameObject) : GameObject :=
  mkGameObject (id g) (position g) (velocity g) (rotation g) (health g) (maxHealth g) a.

(** Updates of a player: of its [GameObject] part, and of its own fields. *)
Definition onBase (f : GameObject -> GameObject) (p : Player) : Player :=
  mkPlayer (f p) (playerId p) (score p) (kills p) (deaths p) (shield p) (maxShield p)
           (energy p) (maxEnergy p) (weaponCooldown p) (boostCooldown p).

Definition withScore (v : Q) (p : Player) : Player :=
  mkPlayer p (playerId p) v (kills p) (deaths p) (shield p) (maxShield p)
           (energy p) (maxEnergy p) (weaponCooldown p) (boostCooldown p).

Definition withKills (v : Q) (p : Player) : Player :=
  mkPlayer p (playerId p) (score p) v (deaths p) (shield p) (maxShield p)
           (energy p) (maxEnergy p) (weaponCooldown p) (boostCooldown p).

Definition withDeaths (v : Q) (p : Player) : Player :=
  mkPlayer p (playerId p) (score p) (kills p) v (shield p) (maxShield p)
           (energy p) (maxEnergy p) (weaponCooldown p) (boostCooldown p).

Definition withShield (v : Q) (p : Player) : Player :=
  mkPlayer p (playerId p) (score p) (kills p) (deaths p) v (maxShield p)
           (energy p) (maxEnergy p) (weaponCooldown p) (boostCooldown p).

Definition withEnergy (v : Q) (p : Player) : Player :=
  mkPlayer p (playerId p) (score p) (kills p) (deaths p) (shield p) (maxShield p)
           v (maxEnergy p) (weaponCooldown p) (boostCooldown p).

Definition withWeaponCooldown (v : Q) (p : Player) : Player :=
  mkPlayer p (playerId p) (score p) (kills p) (deaths p) (shield p) (maxShield p)
           (energy p) (maxEnergy p) v (boostCooldown p).

Definition withBoostCooldown (v : Q) (p : Player) : Player :=
  mkPlayer p (playerId p) (score p) (kills p) (deaths p) (shield p) (maxShield p)
           (energy p) (maxEnergy p) (weaponCooldown p) v.

Definition projOnBase (f : GameObject -> GameObject) (p : Projectile) : Projectile :=
  mkProjectile (f p) (ownerId p) (damage p) (lifetime p).

Definition withLifetime (v : Q) (p : Projectile) : Projectile :=
  mkProjectile p (ownerId p) (damage p) v.

Definition powerUpOnBase (f : GameObject -> GameObject) (p : PowerUp) : PowerUp :=
  mkPowerUp (f p) (type p) (value p) (respawnTime p).

Definition withRespawnTime (v : Q) (p : PowerUp) : PowerUp :=
  mkPowerUp p (type p) (value p) v.

Definition asteroidOnBase (f : GameObject -> GameObject) (a : Asteroid) : Asteroid :=
  mkAsteroid (f a) (size a) (rotationSpeed a).

(** Updates of the engine's fields. *)
Definition withPlayers (v : list (string * Player)) (g : GameEngine) : GameEngine :=
  mkGameEngine (canvas g) v (projectiles g) (powerUps g) (asteroids g) (particles g)
    (gameTime g) (lastUpdate g) (isHost g) (localPlayerId g) (keys g) (mouse g) (randomIx g).

Definition withProjectiles (v : list Projectile) (g : GameEngine) : GameEngine :=
  mkGameEngine (canvas g) (players g) v (powerUps g) (asteroids g) (particles g)
    (gameTime g) (lastUpdate g) (isHost g) (localPlayerId g) (keys g) (mouse g) (randomIx g).

Definition withPowerUps (v : list PowerUp) (g : GameEngine) : GameEngine :=
  mkGameEngine (canvas g) (players g) (projectiles g) v (asteroids g) (particles g)
    (gameTime g) (lastUpdate g) (isHost g) (localPlayerId g) (keys g) (mouse g) (randomIx g).

Definition withAsteroids (v : list Asteroid) (g : GameEngine) : GameEngine :=
  mkGameEngine (canvas g) (players g) (projectiles g) (powerUps g) v (particles g)
    (gameTime g) (lastUpdate g) (isHost g) (localPlayerId g) (keys g) (mouse g) (randomIx g).

Definition withParticles (v : list Particle.t) (g : GameEngine) : GameEngine :=
  mkGameEngine (canvas g) (players g) (projectiles g) (powerUps g) (asteroids g) v
    (gameTime g) (lastUpdate g) (isHost g) (localPlayerId g) (keys g) (mouse g) (randomIx g).

Definition withGameTime (v : Q) (g : GameEngine) : GameEngine :=
  mkGameEngine (canvas g) (players g) (projectiles g) (powerUps g) (asteroids g) (particles g)
    v (lastUpdate g) (isHost g) (localPlayerId g) (keys g) (mouse g) (randomIx g).

Definition withLastUpdate (v : Q) (g : GameEngine) : GameEngine :=
  mkGameEngine (canvas g) (players g) (projectiles g) (powerUps g) (asteroids g) (particles g)
    (gameTime g) v (isHost g) (localPlayerId g) (keys g) (mouse g) (randomIx g).

Definition withIsHost (v : bool) (g : GameEngine) : GameEngine :=
  mkGameEngine (canvas g) (players g) (projectiles g) (powerUps g) (asteroids g) (particles g)
    (gameTime g) (lastUpdate g) v (localPlayerId g) (keys g) (mouse g) (randomIx g).

Definition withLocalPlayerId (v : string) (g : GameEngine) : GameEngine :=
  mkGameEngine (canvas g) (players g) (projectiles g) (powerUps g) (asteroids g) (particles g)
    (gameTime g) (lastUpdate g) (isHost g) v (keys g) (mouse g) (randomIx g).

Definition withKeys (v : list string) (g : GameEngine) : GameEngine :=
  mkGameEngine (canvas g) (players g) (projectiles g) (powerUps g) (asteroids g) (particles g)
    (gameTime g) (lastUpdate g) (isHost g) (localPlayerId g) v (mouse g) (randomIx g).

Definition withMouse (v : Mouse.t) (g : GameEngine) : GameEngine :=
  mkGameEngine (canvas g) (players g) (projectiles g) (powerUps g) (asteroids g) (particles g)
    (gameTime g) (lastUpdate g) (isHost g) (localPlayerId g) (keys g) v (randomIx g).

Definition withRandomIx (v : nat) (g : GameEngine) : GameEngine :=
  mkGameEngine (canvas g) (players g) (projectiles g) (powerUps g) (asteroids g) (particles g)
    (gameTime g) (lastUpdate g) (isHost g) (localPlayerId g) (keys g) (mouse g) v.

(** ** The [players] map and the [keys] set *)

(** [Map.prototype.get]. *)
Fixpoint get (k : string) (m : list (string * Player)) : option Player :=
  match m with
  | [] => None
  | (k', p) :: m' => if String.eqb k k' then Some p else get k m'
  end.

(** [Map.prototype.set]: an existing key keeps its place, a new one goes
    last. *)
Fixpoint set (k : string) (v : Player) (m : list (string * Player))
  : list (string * Player) :=
  match m with
  | [] => [(k, v)]
  | (k', p) :: m' => if String.eqb k k' then (k, v) :: m' else (k', p) :: set k v m'
  end.

(** [Set.prototype.has], [add] and [delete] on the set of pressed keys. *)
Definition has (k : string) (s : list string) : bool :=
  existsb (String.eqb k) s.

Definition add (k : string) (s : list string) : list string :=
  if has k s then s else s ++ [k].

Definition delete (k : string) (s : list string) : list string :=
  filter (fun k' => negb (String.eqb k k')) s.

(** [Array.prototype.splice(i, 1)]. *)
Fixpoint splice1 {A : Type} (i : nat) (l : list A) : list A :=
  match l, i with
  | [], _ => []
  | _ :: l', O => l'
  | a :: l', S i' => a :: splice1 i' l'
  end.

(** A [for (let i = 0; i < n; i++)] loop whose body steps the state. *)
Fixpoint forLoop {S : Type} (n : nat) (body : nat -> S -> S) (s : S) : S :=
  match n with
  | O => s
  | Datatypes.S n' => body n' (forLoop n' body s)
  end.

(** ** Messages and statistics *)

Module NetworkData.

(** A decoded message: [{ type, playerId, position, rotation, health,
    shield, energy }].  A message of another type (a [ping]) carries other
    fields; the engine reads none of them. *)
Record t := mk {
  type : string;
  playerId : string;
  position : Vector2D;
  rotation : Q;
  health : Q;
  shield : Q;
  energy : Q
}.

End NetworkData.

Module PlayerStats.

Record t := mk {
  id : string;
  name : string;
  score : Q;
  kills : Q;
  deaths : Q;
  health : Z;
  shield : Z;
  energy : Z
}.

End PlayerStats.

Module GameStats.

Record t := mk {
  players : list PlayerStats.t;
  gameTime : Z;
  powerUpsCollected : nat;
  totalShots : nat
}.

End GameStats.

(** * The engine *)

Section Engine.

(** [Math.cos], [Math.sin], [Math.atan2] and [Math.PI]. *)
Variable cos : Q -> Q.
Variable sin : Q -> Q.
Variable atan2 : Q -> Q -> Q.
Variable PI : Q.

(** The sequence of values [Math.random()] returns. *)
Variable rnd : nat -> Q.

(** The [j]-th next value of [Math.random()], and the engine after [k]
    values have been read. *)
Definition random (st : GameEngine) (j : nat) : Q := rnd (randomIx st + j).

Definition drawn (k : nat) (st : GameEngine) : GameEngine :=
  withRandomIx (randomIx st + k) st.

Definition pushParticle (p : Particle.t) (st : GameEngine) : GameEngine :=
  withParticles (particles st ++ [p]) st.

Definition pushProjectile (p : Projectile) (st : GameEngine) : GameEngine :=
  withProjectiles (projectiles st ++ [p]) st.

(** ** Geometry *)

(** The square of [getDistance(pos1, pos2)]. *)
Definition getDistanceSq (pos1 pos2 : Vector2D) : Q :=
  let dx := x pos1 - x pos2 in
  let dy := y pos1 - y pos2 in
  dx * dx + dy * dy.

(** [getDistance(pos1, pos2) < r], decided over the exact numbers of the
    model: a square root is below [r] exactly when [r] is positive and
    the radicand is below [r * r].  The code compares the rounded square
    root of the rounded sum with [r], which can go the other way for a
    distance within rounding of [r]; the general properties of the
    collision pass below hold whichever way the test goes, and the
    examples are far from the radius. *)
Definition distanceLt (pos1 pos2 : Vector2D) (r : Q) : bool :=
  (0 <? r) && (getDistanceSq pos1 pos2 <? r * r).

Definition getPowerUpColor (t : PowerUpType) : string :=
  match t with
  | health_t => "#ff4444"
  | shield_t => "#4444ff"
  | energy_t => "#ffff44"
  | weapon_t => "#ff44ff"
  end.

(** ** Construction *)

Definition createPlayer (id : string) (name : string) (position : Vector2D)
    (st : GameEngine) : GameEngine :=
  let player :=
    mkPlayer (mkGameObject (Name id) position (mkVector2D 0 0) 0 100 100 true)
             id 0 0 0 100 100 100 100 0 0 in
  withPlayers (set id player (players st)) st.

Definition generateAsteroids (st : GameEngine) : GameEngine :=
  forLoop 25 (fun i st =>
    let asteroid :=
      mkAsteroid
        (mkGameObject (AsteroidId i)
           (mkVector2D (random st 0 * width (canvas st)) (random st 1 * height (canvas st)))
           (mkVector2D ((random st 2 - 0.5) * 2) ((random st 3 - 0.5) * 2))
           (random st 4 * PI * 2) 50 50 true)
        (20 + random st 6 * 30)
        ((random st 5 - 0.5) * 0.1) in
    withAsteroids (asteroids st ++ [asteroid]) (drawn 7 st)) st.

Definition types : list PowerUpType := [health_t; shield_t; energy_t; weapon_t].

(** [types[Math.floor(r * types.length)]]; [Math.random()] is below 1, so
    the index is in range. *)
Definition pickType (r : Q) : PowerUpType :=
  nth (Z.to_nat (Qfloor (r * inject_Z (Z.of_nat (List.length types))))) types weapon_t.

Definition generatePowerUps (st : GameEngine) : GameEngine :=
  forLoop 8 (fun i st =>
    let powerUp :=
      mkPowerUp
        (mkGameObject (PowerUpId i)
           (mkVector2D (random st 0 * width (canvas st)) (random st 1 * height (canvas st)))
           (mkVector2D 0 0) 0 1 1 true)
        (pickType (random st 2))
        (25 + random st 3 * 25)
        0 in
    withPowerUps (powerUps st ++ [powerUp]) (drawn 4 st)) st.

(** The field initialisers of the class. *)
Definition emptyEngine (c : Canvas) : GameEngine :=
  mkGameEngine c [] [] [] [] [] 0 0 false "" [] (Mouse.mk 0 0 false) 0.

(** [new GameEngine(canvas)], for a canvas that has a 2d context. *)
Definition constructor (c : Canvas) : GameEngine :=
  generatePowerUps (generateAsteroids (emptyEngine c)).

Definition initializeAsHost (playerId : string) (st : GameEngine) : GameEngine :=
  createPlayer playerId "Host" (mkVector2D 100 300)
    (withLocalPlayerId playerId (withIsHost true st)).

Definition initializeAsClient (playerId : string) (st : GameEngine) : GameEngine :=
  createPlayer playerId "Client" (mkVector2D 700 300)
    (withLocalPlayerId playerId (withIsHost false st)).

(** [addDebugPlayer]; the callback it hands to [setInterval] is
    [debugInterval] below. *)
Definition addDebugPlayer (playerId : string) (st : GameEngine) : GameEngine :=
  createPlayer playerId "Debug Player" (mkVector2D 700 300) st.

(** ** Particle effects *)

Definition addEngineParticles (player : Player) (st : GameEngine) : GameEngine :=
  forLoop 3 (fun _ st =>
    pushParticle
      (Particle.mk
         (mkVector2D (x (position player) - cos (rotation player) * 15)
                     (y (position player) - sin (rotation player) * 15))
         (mkVector2D (- cos (rotation player) * 100 + (random st 0 - 0.5) * 50)
                     (- sin (rotation player) * 100 + (random st 1 - 0.5) * 50))
         (Hsl (30 + random st 2 * 30) 100 (50 + random st 3 * 30))
         0.5 0.5 (2 + random st 4 * 3))
      (drawn 5 st)) st.

Definition addBoostParticles (player : Player) (st : GameEngine) : GameEngine :=
  forLoop 8 (fun _ st =>
    pushParticle
      (Particle.mk
         (position player)
         (mkVector2D ((random st 0 - 0.5) * 200) ((random st 1 - 0.5) * 200))
         (Hsl (200 + random st 2 * 60) 100 (60 + random st 3 * 20))
         0.8 0.8 (3 + random st 4 * 4))
      (drawn 5 st)) st.

Definition addMuzzleFlashParticles (player : Player) (st : GameEngine) : GameEngine :=
  forLoop 5 (fun _ st =>
    pushParticle
      (Particle.mk
         (mkVector2D (x (position player) + cos (rotation player) * 20)
                     (y (position player) + sin (rotation player) * 20))
         (mkVector2D (cos (rotation player) * 50 + (random st 0 - 0.5) * 30)
                     (sin (rotation player) * 50 + (random st 1 - 0.5) * 30))
         (Hsl (45 + random st 2 * 15) 100 (80 + random st 3 * 20))
         0.2 0.2 (2 + random st 4 * 2))
      (drawn 5 st)) st.

Definition addHitParticles (position : Vector2D) (st : GameEngine) : GameEngine :=
  forLoop 6 (fun _ st =>
    pushParticle
      (Particle.mk
         position
         (mkVector2D ((random st 0 - 0.5) * 150) ((random st 1 - 0.5) * 150))
         (Hsl 0 100 (60 + random st 2 * 30))
         0.6 0.6 (2 + random st 3 * 3))
      (drawn 4 st)) st.

Definition addExplosionParticles (position : Vector2D) (baseColor : string)
    (st : GameEngine) : GameEngine :=
  forLoop 12 (fun _ st =>
    pushParticle
      (Particle.mk
         position
         (mkVector2D ((random st 0 - 0.5) * 300) ((random st 1 - 0.5) * 300))
         (if String.eqb baseColor "red"
          then Hsl (random st 2 * 30) 100 (60 + random st 3 * 30)
          else Hsl (30 + random st 2 * 30) 100 (60 + random st 3 * 30))
         1 1 (3 + random st 4 * 5))
      (drawn 5 st)) st.

Definition addCollectionParticles (position : Vector2D) (color : string)
    (st : GameEngine) : GameEngine :=
  forLoop 8 (fun _ st =>
    pushParticle
      (Particle.mk
         position
         (mkVector2D ((random st 0 - 0.5) * 100) ((random st 1 - 0.5) * 100))
         (Css color)
         0.8 0.8 (2 + random st 2 * 3))
      (drawn 3 st)) st.

(** ** Shooting and player input *)

(** [handleShooting()]; [dateNow] is the value of [Date.now()]. *)
Definition handleShooting (dateNow : Q) (st : GameEngine) : GameEngine :=
  match get (localPlayerId st) (players st) with
  | None => st
  | Some player =>
    if (0 <? weaponCooldown player) || (energy player <? 10) then st
    else
      let projectile :=
        mkProjectile
          (mkGameObject (ProjectileId dateNow (random st 0))
             (position player)
             (mkVector2D (cos (rotation player) * 400) (sin (rotation player) * 400))
             (rotation player) 1 1 true)
          (playerId player) 25 3 in
      let st := pushProjectile projectile (drawn 1 st) in
      let player := withWeaponCooldown 0.2 player in
      let player := withEnergy (energy player - 10) player in
      let st := withPlayers (set (localPlayerId st) player (players st)) st in
      addMuzzleFlashParticles player st
  end.

(** The [KeyW] and [KeyS] branches: thrust along the heading. *)
Definition thrust (amount deltaTime : Q) (player : Player) : Player :=
  onBase (fun g =>
    withVelocity
      (mkVector2D (x (velocity g) + cos (rotation g) * amount * deltaTime)
                  (y (velocity g) + sin (rotation g) * amount * deltaTime)) g) player.

Definition reverseThrust (amount deltaTime : Q) (player : Player) : Player :=
  onBase (fun g =>
    withVelocity
      (mkVector2D (x (velocity g) - cos (rotation g) * amount * deltaTime)
                  (y (velocity g) - sin (rotation g) * amount * deltaTime)) g) player.

(** The body of the boost branch, without its particles. *)
Definition boost (deltaTime : Q) (player : Player) : Player :=
  let boostPower := 10 in
  let player := thrust boostPower deltaTime player in
  let player := withEnergy (energy player - 20) player in
  withBoostCooldown 1 player.

(** The condition of the boost branch. *)
Definition canBoost (ks : list string) (player : Player) : bool :=
  has "Space" ks && (20 <? energy player) && (boostCooldown player <=? 0).

(** The movement keys of [handlePlayerInput]: the player they leave and
    the engine with the engine particles added.  None of the particle
    functions reads or writes the [players] map. *)
Definition movementKeys (player : Player) (deltaTime : Q) (st : GameEngine)
  : Player * GameEngine :=
  let rotationSpeed := 3 in
  let (player, st) :=
    if has "KeyW" (keys st)
    then let player := thrust 5 deltaTime player in
         (player, addEngineParticles player st)
    else (player, st) in
  let player :=
    if has "KeyS" (keys st) then reverseThrust 3 deltaTime player else player in
  let player :=
    if has "KeyA" (keys st)
    then onBase (fun g => withRotation (rotation g - rotationSpeed * deltaTime) g) player
    else player in
  let player :=
    if has "KeyD" (keys st)
    then onBase (fun g => withRotation (rotation g + rotationSpeed * deltaTime) g) player
    else player in
  (player, st).

(** The key-driven part of [handlePlayerInput], up to and including the
    boost. *)
Definition movementAndBoost (player : Player) (deltaTime : Q) (st : GameEngine)
  : Player * GameEngine :=
  let (player, st) := movementKeys player deltaTime st in
  if canBoost (keys st) player
  then let player := boost deltaTime player in
       (player, addBoostParticles player st)
  else (player, st).

(** The last statement of [handlePlayerInput]: face the mouse. *)
Definition faceMouse (m : Mouse.t) (player : Player) : Player :=
  let dx := Mouse.x m - x (position player) in
  let dy := Mouse.y m - y (position player) in
  onBase (withRotation (atan2 dy dx)) player.

(** [handlePlayerInput(player, deltaTime)], for the player stored at key
    [k].  [handleShooting] reaches the same object through the map, so the
    player is written back before it runs and read again after. *)
Definition handlePlayerInput (k : string) (deltaTime dateNow : Q) (st : GameEngine)
  : GameEngine :=
  match get k (players st) with
  | None => st
  | Some player =>
    let (player, st) := movementAndBoost player deltaTime st in
    let st := withPlayers (set k player (players st)) st in
    let st := if Mouse.pressed (mouse st) then handleShooting dateNow st else st in
    match get k (players st) with
    | None => st
    | Some player => withPlayers (set k (faceMouse (mouse st) player) (players st)) st
    end
  end.

(** ** The per-tick updates *)

(** The body of the [forEach] of [updatePlayers], cut at its comments. *)
Definition applyPhysics (deltaTime : Q) (player : Player) : Player :=
  onBase (fun g =>
    withPosition
      (mkVector2D (x (position g) + x (velocity g) * deltaTime * 60)
                  (y (position g) + y (velocity g) * deltaTime * 60)) g) player.

Definition applyDrag (player : Player) : Player :=
  onBase (fun g =>
    withVelocity (mkVector2D (x (velocity g) * 0.98) (y (velocity g) * 0.98)) g) player.

Definition wrapAround (c : Canvas) (player : Player) : Player :=
  let setX v := onBase (fun g => withPosition (mkVector2D v (y (position g))) g) in
  let setY v := onBase (fun g => withPosition (mkVector2D (x (position g)) v) g) in
  let player := if x (position player) <? 0 then setX (width c) player else player in
  let player := if width c <? x (position player) then setX 0 player else player in
  let player := if y (position player) <? 0 then setY (height c) player else player in
  let player := if height c <? y (position player) then setY 0 player else player in
  player.

Definition regenerate (deltaTime : Q) (player : Player) : Player :=
  let player :=
    if shield player <? maxShield player
    then withShield (Qmin (maxShield player) (shield player + 10 * deltaTime)) player
    else player in
  let player :=
    if energy player <? maxEnergy player
    then withEnergy (Qmin (maxEnergy player) (energy player + 20 * deltaTime)) player
    else player in
  player.

Definition updateCooldowns (deltaTime : Q) (player : Player) : Player :=
  let player :=
    if 0 <? weaponCooldown player
    then withWeaponCooldown (weaponCooldown player - deltaTime) player
    else player in
  let player :=
    if 0 <? boostCooldown player
    then withBoostCooldown (boostCooldown player - deltaTime) player
    else player in
  player.

Definition updatePlayer (c : Canvas) (deltaTime : Q) (player : Player) : Player :=
  updateCooldowns deltaTime
    (regenerate deltaTime (wrapAround c (applyDrag (applyPhysics deltaTime player)))).

(** [Map.prototype.forEach] with a callback that writes only to the
    player it is given. *)
Definition forEachPlayer (f : Player -> Player) (m : list (string * Player))
  : list (string * Player) :=
  map (fun kp => (fst kp, f (snd kp))) m.

Definition updatePlayers (deltaTime dateNow : Q) (st : GameEngine) : GameEngine :=
  match get (localPlayerId st) (players st) with
  | None => st
  | Some _ =>
    let st := handlePlayerInput (localPlayerId st) deltaTime dateNow st in
    withPlayers (forEachPlayer (updatePlayer (canvas st) deltaTime) (players st)) st
  end.

(** The callback of the [filter] of [updateProjectiles]: the moved
    projectile, and whether it stays. *)
Definition moveProjectile (deltaTime : Q) (projectile : Projectile) : Projectile :=
  let projectile :=
    projOnBase (fun g =>
      withPosition
        (mkVector2D (x (position g) + x (velocity g) * deltaTime)
                    (y (position g) + y (velocity g) * deltaTime)) g) projectile in
  withLifetime (lifetime projectile - deltaTime) projectile.

Definition projectileStays (c : Canvas) (projectile : Projectile) : bool :=
  negb ((lifetime projectile <=? 0)
        || (x (position projectile) <? 0)
        || (width c <? x (position projectile))
        || (y (position projectile) <? 0)
        || (height c <? y (position projectile))).

Definition updateProjectiles (deltaTime : Q) (st : GameEngine) : GameEngine :=
  withProjectiles
    (filter (projectileStays (canvas st)) (map (moveProjectile deltaTime) (projectiles st)))
    st.

(** The callback of the [forEach] of [updatePowerUps]. *)
Definition updatePowerUp (deltaTime : Q) (powerUp : PowerUp) (st : GameEngine)
  : PowerUp * GameEngine :=
  let (powerUp, st) :=
    if negb (active powerUp) && (0 <? respawnTime powerUp)
    then
      let powerUp := withRespawnTime (respawnTime powerUp - deltaTime) powerUp in
      if respawnTime powerUp <=? 0
      then
        let powerUp := powerUpOnBase (withActive true) powerUp in
        (powerUpOnBase
           (withPosition (mkVector2D (random st 0 * width (canvas st))
                                     (random st 1 * height (canvas st)))) powerUp,
         drawn 2 st)
      else (powerUp, st)
    else (powerUp, st) in
  (powerUpOnBase (fun g => withRotation (rotation g + deltaTime * 2) g) powerUp, st).

Fixpoint updatePowerUpsFrom (deltaTime : Q) (l : list PowerUp) (st : GameEngine)
  : list PowerUp * GameEngine :=
  match l with
  | [] => ([], st)
  | powerUp :: l' =>
    let (powerUp, st) := updatePowerUp deltaTime powerUp st in
    let (l', st) := updatePowerUpsFrom deltaTime l' st in
    (powerUp :: l', st)
  end.

Definition updatePowerUps (deltaTime : Q) (st : GameEngine) : GameEngine :=
  let (l, st) := updatePowerUpsFrom deltaTime (powerUps st) st in
  withPowerUps l st.

(** The callback of the [forEach] of [updateAsteroids]. *)
Definition updateAsteroid (c : Canvas) (deltaTime : Q) (asteroid : Asteroid) : Asteroid :=
  let setX v := asteroidOnBase (fun g => withPosition (mkVector2D v (y (position g))) g) in
  let setY v := asteroidOnBase (fun g => withPosition (mkVector2D (x (position g)) v) g) in
  let asteroid :=
    asteroidOnBase (fun g =>
      withPosition
        (mkVector2D (x (position g) + x (velocity g) * deltaTime * 60)
                    (y (position g) + y (velocity g) * deltaTime * 60)) g) asteroid in
  let asteroid :=
    asteroidOnBase (fun g => withRotation (rotation g + rotationSpeed asteroid) g) asteroid in
  let asteroid :=
    if x (position asteroid) <? - size asteroid
    then setX (width c + size asteroid) asteroid else asteroid in
  let asteroid :=
    if width c + size asteroid <? x (position asteroid)
    then setX (- size asteroid) asteroid else asteroid in
  let asteroid :=
    if y (position asteroid) <? - size asteroid
    then setY (height c + size asteroid) asteroid else asteroid in
  let asteroid :=
    if height c + size asteroid <? y (position asteroid)
    then setY (- size asteroid) asteroid else asteroid in
  asteroid.

Definition updateAsteroids (deltaTime : Q) (st : GameEngine) : GameEngine :=
  withAsteroids (map (updateAsteroid (canvas st) deltaTime) (asteroids st)) st.

(** The callback of the [filter] of [updateParticles]. *)
Definition moveParticle (deltaTime : Q) (p : Particle.t) : Particle.t :=
  Particle.mk
    (mkVector2D (x (Particle.position p) + x (Particle.velocity p) * deltaTime)
                (y (Particle.position p) + y (Particle.velocity p) * deltaTime))
    (mkVector2D (x (Particle.velocity p) * 0.98) (y (Particle.velocity p) * 0.98))
    (Particle.color p)
    (Particle.life p - deltaTime)
    (Particle.maxLife p)
    (Particle.size p).

Definition updateParticles (deltaTime : Q) (st : GameEngine) : GameEngine :=
  withParticles
    (filter (fun p => 0 <? Particle.life p) (map (moveParticle deltaTime) (particles st)))
    st.

(** ** Collisions and combat *)

(** [handlePlayerDestroyed(player, killerId)], for the player stored at
    key [k]. *)
Definition handlePlayerDestroyed (k : string) (killerId : string) (st : GameEngine)
  : GameEngine :=
  match get k (players st) with
  | None => st
  | Some player =>
    let player := withDeaths (deaths player + 1) player in
    let player := onBase (withHealth (maxHealth player)) player in
    let player := withShield (maxShield player) player in
    let player := withEnergy (maxEnergy player) player in
    let player :=
      onBase (withPosition (mkVector2D (random st 0 * width (canvas st))
                                       (random st 1 * height (canvas st)))) player in
    let st := withPlayers (set k player (players st)) (drawn 2 st) in
    let st :=
      match get killerId (players st) with
      | Some killer =>
        let killer := withKills (kills killer + 1) killer in
        let killer := withScore (score killer + 100) killer in
        withPlayers (set killerId killer (players st)) st
      | None => st
      end in
    addExplosionParticles (position player) "red" st
  end.

(** The damage part of [handlePlayerHit]: shield first, then health. *)
Definition applyDamage (damage : Q) (player : Player) : Player :=
  let (player, damage) :=
    if 0 <? shield player
    then
      let shieldDamage := Qmin (shield player) damage in
      (withShield (shield player - shieldDamage) player, damage - shieldDamage)
    else (player, damage) in
  if 0 <? damage
  then onBase (fun g => withHealth (health g - damage) g) player
  else player.

(** [handlePlayerHit(player, projectile)], for the player stored at key
    [k]. *)
Definition handlePlayerHit (k : string) (projectile : Projectile) (st : GameEngine)
  : GameEngine :=
  match get k (players st) with
  | None => st
  | Some player =>
    let player := applyDamage (damage projectile) player in
    let st := withPlayers (set k player (players st)) st in
    let st := addHitParticles (position player) st in
    if health player <=? 0
    then handlePlayerDestroyed k (ownerId projectile) st
    else st
  end.

(** Updates the element at index [i] of a list. *)
Fixpoint updateAt {A : Type} (i : nat) (f : A -> A) (l : list A) : list A :=
  match l, i with
  | [], _ => []
  | a :: l', O => f a :: l'
  | a :: l', S i' => a :: updateAt i' f l'
  end.

(** The [switch] of [handlePowerUpCollection]. *)
Definition applyPowerUp (powerUp : PowerUp) (player : Player) : Player :=
  match type powerUp with
  | health_t =>
    onBase (fun g => withHealth (Qmin (maxHealth g) (health g + value powerUp)) g) player
  | shield_t =>
    withShield (Qmin (maxShield player) (shield player + value powerUp)) player
  | energy_t =>
    withEnergy (Qmin (maxEnergy player) (energy player + value powerUp)) player
  | weapon_t =>
    withScore (score player + value powerUp) player
  end.

(** [handlePowerUpCollection(player, powerUp)], for the player stored at
    key [k] and the power-up at index [i] of [powerUps]. *)
Definition handlePowerUpCollection (k : string) (i : nat) (st : GameEngine) : GameEngine :=
  match get k (players st), nth_error (powerUps st) i with
  | Some player, Some powerUp =>
    let st := withPlayers (set k (applyPowerUp powerUp player) (players st)) st in
    let collected p :=
      withRespawnTime (10 + random st 0 * 10) (powerUpOnBase (withActive false) p) in
    let st := withPowerUps (updateAt i collected (powerUps st)) (drawn 1 st) in
    addCollectionParticles (position powerUp) (getPowerUpColor (type powerUp)) st
  | _, _ => st
  end.

(** [this.projectiles.forEach(f)]: [len] indices are still to be visited,
    starting at [i]; the array is read again at every index. *)
Fixpoint forEachProjectileFrom (len i : nat)
    (f : Projectile -> nat -> GameEngine -> GameEngine) (st : GameEngine) : GameEngine :=
  match len with
  | O => st
  | S len' =>
    forEachProjectileFrom len' (S i) f
      match nth_error (projectiles st) i with
      | Some projectile => f projectile i st
      | None => st
      end
  end.

Definition forEachProjectile (f : Projectile -> nat -> GameEngine -> GameEngine)
    (st : GameEngine) : GameEngine :=
  forEachProjectileFrom (List.length (projectiles st)) 0 f st.

(** The callback of the player-projectile loop, for the player at key
    [k]. *)
Definition playerVsProjectile (k : string) (projectile : Projectile) (pIndex : nat)
    (st : GameEngine) : GameEngine :=
  match get k (players st) with
  | None => st
  | Some player =>
    if String.eqb (ownerId projectile) (playerId player) then st
    else if distanceLt (position player) (position projectile) 20
    then
      let st := handlePlayerHit k projectile st in
      withProjectiles (splice1 pIndex (projectiles st)) st
    else st
  end.

(** The callback of the player-power-up loop, for the player at key [k]
    and the power-up at index [i]. *)
Definition playerVsPowerUp (k : string) (i : nat) (st : GameEngine) : GameEngine :=
  match get k (players st), nth_error (powerUps st) i with
  | Some player, Some powerUp =>
    if negb (active powerUp) then st
    else if distanceLt (position player) (position powerUp) 25
    then handlePowerUpCollection k i st
    else st
  | _, _ => st
  end.

(** The callback of the outer [players.forEach] of [checkCollisions]. *)
Definition playerCollisions (st : GameEngine) (k : string) : GameEngine :=
  let st := forEachProjectile (playerVsProjectile k) st in
  forLoop (List.length (powerUps st)) (playerVsPowerUp k) st.

(** The callback of the projectile-asteroid loop: the inner [forEach] over
    the asteroids, with [projectile] and [pIndex] fixed. *)
Definition projectileVsAsteroids (projectile : Projectile) (pIndex : nat)
    (st : GameEngine) : GameEngine :=
  fold_left
    (fun (st : GameEngine) (asteroid : Asteroid) =>
       if distanceLt (position projectile) (position asteroid) (size asteroid)
       then
         let st := addExplosionParticles (position projectile) "orange" st in
         withProjectiles (splice1 pIndex (projectiles st)) st
       else st)
    (asteroids st) st.

Definition checkCollisions (st : GameEngine) : GameEngine :=
  let st := fold_left playerCollisions (map fst (players st)) st in
  forEachProjectile projectileVsAsteroids st.

(** ** The tick and the session *)

(** [update()]; [now] is the value of [performance.now()] and [dateNow]
    that of [Date.now()].  [sendNetworkUpdate] only calls the outbound
    callback. *)
Definition update (now dateNow : Q) (st : GameEngine) : GameEngine :=
  let deltaTime := (now - lastUpdate st) / 1000 in
  let st := withLastUpdate now st in
  let st := withGameTime (gameTime st + deltaTime) st in
  let st := updatePlayers deltaTime dateNow st in
  let st := updateProjectiles deltaTime st in
  let st := updatePowerUps deltaTime st in
  let st := updateAsteroids deltaTime st in
  let st := updateParticles deltaTime st in
  checkCollisions st.

Definition startGame (now : Q) (st : GameEngine) : GameEngine :=
  withLastUpdate now (withGameTime 0 st).

Definition resetGame (st : GameEngine) : GameEngine :=
  let st := withPlayers [] st in
  let st := withProjectiles [] st in
  let st := withParticles [] st in
  let st := withGameTime 0 st in
  generatePowerUps st.

Definition isGameFinished (st : GameEngine) : bool :=
  (300 <? gameTime st) || existsb (fun kp => 1000 <=? score (snd kp)) (players st).

(** ** Event listeners and timers *)

Definition keydown (code : string) (st : GameEngine) : GameEngine :=
  withKeys (add code (keys st)) st.

Definition keyup (code : string) (st : GameEngine) : GameEngine :=
  withKeys (delete code (keys st)) st.

(** [mousemove], with the canvas-relative coordinates it computes. *)
Definition mousemove (mx my : Q) (st : GameEngine) : GameEngine :=
  withMouse (Mouse.mk mx my (Mouse.pressed (mouse st))) st.

Definition mousedown (button : Z) (dateNow : Q) (st : GameEngine) : GameEngine :=
  if Z.eqb button 0
  then handleShooting dateNow
         (withMouse (Mouse.mk (Mouse.x (mouse st)) (Mouse.y (mouse st)) true) st)
  else st.

Definition mouseup (button : Z) (st : GameEngine) : GameEngine :=
  if Z.eqb button 0
  then withMouse (Mouse.mk (Mouse.x (mouse st)) (Mouse.y (mouse st)) false) st
  else st.

(** The callback [addDebugPlayer(playerId)] runs every 100 ms. *)
Definition debugInterval (debugId : string) (dateNow : Q) (st : GameEngine) : GameEngine :=
  match get debugId (players st) with
  | None => st
  | Some debugPlayer =>
    let randomX := (random st 0 - 0.5) * 2 in
    let randomY := (random st 1 - 0.5) * 2 in
    let debugPlayer :=
      onBase (withVelocity (mkVector2D (randomX * 100) (randomY * 100))) debugPlayer in
    let shoots := 0.95 <? random st 2 in
    let st := withPlayers (set debugId debugPlayer (players st)) (drawn 3 st) in
    if shoots
    then
      let projectile :=
        mkProjectile
          (mkGameObject (ProjectileId dateNow (random st 0))
             (position debugPlayer)
             (mkVector2D (cos (rotation debugPlayer) * 400) (sin (rotation debugPlayer) * 400))
             (rotation debugPlayer) 1 1 true)
          (playerId debugPlayer) 25 3 in
      pushProjectile projectile (drawn 1 st)
    else st
  end.

(** ** Runs of the engine *)

(** What happens to an engine between its construction and now: the DOM
    events it listens to, the timer of the debug player, and the calls of
    its control surface, each with the clock readings it makes. *)
Inductive Event :=
| Keydown (code : string)
| Keyup (code : string)
| Mousemove (mx my : Q)
| Mousedown (button : Z) (dateNow : Q)
| Mouseup (button : Z)
| Update (now dateNow : Q)
| StartGame (now : Q)
| ResetGame
| InitializeAsHost (name : string)
| InitializeAsClient (name : string)
| AddDebugPlayer (name : string)
| DebugInterval (name : string) (dateNow : Q).

Definition step (ev : Event) (st : GameEngine) : GameEngine :=
  match ev with
  | Keydown code => keydown code st
  | Keyup code => keyup code st
  | Mousemove mx my => mousemove mx my st
  | Mousedown button dateNow => mousedown button dateNow st
  | Mouseup button => mouseup button st
  | Update now dateNow => update now dateNow st
  | StartGame now => startGame now st
  | ResetGame => resetGame st
  | InitializeAsHost name => initializeAsHost name st
  | InitializeAsClient name => initializeAsClient name st
  | AddDebugPlayer name => addDebugPlayer name st
  | DebugInterval name dateNow => debugInterval name dateNow st
  end.

Definition run (evs : list Event) (st : GameEngine) : GameEngine :=
  fold_left (fun st ev => step ev st) evs st.

(** [performance.now()] never goes back: a reading is at least the last
    one the engine stored. *)
Definition timely (ev : Event) (st : GameEngine) : Prop :=
  match ev with
  | Update now _ => lastUpdate st <= now
  | StartGame now => lastUpdate st <= now
  | _ => True
  end.

(** The states an engine built on canvas [c] can be in. *)
Inductive reachable (c : Canvas) : GameEngine -> Prop :=
| reachable_new : reachable c (constructor c)
| reachable_step : forall ev st,
    reachable c st -> timely ev st -> reachable c (step ev st).

(** ** The network boundary *)

(** The five assignments of [handleNetworkUpdate]. *)
Definition receive (data : NetworkData.t) (player : Player) : Player :=
  let player := onBase (withPosition (NetworkData.position data)) player in
  let player := onBase (withRotation (NetworkData.rotation data)) player in
  let player := onBase (withHealth (NetworkData.health data)) player in
  let player := withShield (NetworkData.shield data) player in
  withEnergy (NetworkData.energy data) player.

(** [handleNetworkUpdate(data)]. *)
Definition handleNetworkUpdate (data : NetworkData.t) (st : GameEngine) : GameEngine :=
  if String.eqb (NetworkData.type data) "playerUpdate"
     && negb (String.eqb (NetworkData.playerId data) (localPlayerId st))
  then
    match get (NetworkData.playerId data) (players st) with
    | Some player =>
      withPlayers (set (NetworkData.playerId data) (receive data player) (players st)) st
    | None => st
    end
  else st.

(** [sendNetworkUpdate()]: the message handed to the outbound callback
    when one is set, and [None] when the local player is not in the
    store. *)
Definition sendNetworkUpdate (st : GameEngine) : option NetworkData.t :=
  match get (localPlayerId st) (players st) with
  | None => None
  | Some localPlayer =>
    Some (NetworkData.mk "playerUpdate" (localPlayerId st)
            (position localPlayer) (rotation localPlayer)
            (health localPlayer) (shield localPlayer) (energy localPlayer))
  end.

(** ** The statistics *)

(** [Math.round]: the nearest integer, halves upwards. *)
Definition round (q : Q) : Z := Qfloor (q + 0.5).

(** The callback of the [map] of [getGameStats]. *)
Definition playerStats (localId : string) (player : Player) : PlayerStats.t :=
  PlayerStats.mk
    (playerId player)
    (if String.eqb (playerId player) localId then "You" else "Opponent")
    (score player) (kills player) (deaths player)
    (round (health player)) (round (shield player)) (round (energy player)).

Definition getGameStats (st : GameEngine) : GameStats.t :=
  GameStats.mk
    (map (fun kp => playerStats (localPlayerId st) (snd kp)) (players st))
    (Qfloor (gameTime st))
    (List.length (filter (fun p : PowerUp => negb (active p)) (powerUps st)))
    (List.length (projectiles st)).

(** * Vocabulary of the properties

    The predicates and the abbreviations the statements below are
    written with. *)

(** [st'] differs from [st] in its particles and its random counter at
    most. *)
Definition effectsOnly (st st' : GameEngine) : Prop :=
  st' = withRandomIx (randomIx st') (withParticles (particles st') st).

(** The bounds of the specification on one player. *)
Definition bounded (p : Player) : Prop :=
  (0 <= health p /\ health p <= maxHealth p) /\
  (0 <= shield p /\ shield p <= maxShield p) /\
  (0 <= energy p /\ energy p <= maxEnergy p).

(** The same, but for a health that a hit may have driven to zero or
    below. *)
Definition boundedButHealth (p : Player) : Prop :=
  (0 <= maxHealth p /\ health p <= maxHealth p) /\
  (0 <= shield p /\ shield p <= maxShield p) /\
  (0 <= energy p /\ energy p <= maxEnergy p).

(** Every player of the map is within the bounds. *)
Definition playersBounded (m : list (string * Player)) : Prop :=
  Forall (fun kp => bounded (snd kp)) m.

(** The invariant of the engine: every player is within bounds, no
    projectile has a negative damage and no power-up a negative value. *)
Definition Inv (st : GameEngine) : Prop :=
  playersBounded (players st) /\
  Forall (fun pr : Projectile => 0 <= damage pr) (projectiles st) /\
  Forall (fun pu : PowerUp => 0 <= value pu) (powerUps st).

(** [Math.random()] is in [[0, 1)]. *)
Definition inUnitInterval (r : nat -> Q) : Prop := forall n, 0 <= r n /\ r n < 1.

(** The player a lethal hit leaves at the victim's key, before the kill
    is credited: [i] is the index of the first of the two random values
    of its new position. *)
Definition respawned (c : Canvas) (i : nat) (p : Player) : Player :=
  let p := withDeaths (deaths p + 1) p in
  let p := onBase (withHealth (maxHealth p)) p in
  let p := withShield (maxShield p) p in
  let p := withEnergy (maxEnergy p) p in
  onBase (withPosition (mkVector2D (rnd i * width c) (rnd (S i) * height c))) p.

(** The killer with the kill credited. *)
Definition credited (killer : Player) : Player :=
  withScore (score (withKills (kills killer + 1) killer) + 100)
            (withKills (kills killer + 1) killer).

(** The projectile a shot of [player] creates. *)
Definition shot (dateNow : Q) (st : GameEngine) (player : Player) : Projectile :=
  mkProjectile
    (mkGameObject (ProjectileId dateNow (random st 0))
       (position player)
       (mkVector2D (cos (rotation player) * 400) (sin (rotation player) * 400))
       (rotation player) 1 1 true)
    (playerId player) 25 3.

(** The shooter after the shot. *)
Definition afterShot (player : Player) : Player :=
  withEnergy (energy player - 10) (withWeaponCooldown 0.2 player).

(** The asteroids and the canvas of [st] are [A] and [c]. *)
Definition fieldIs (A : list Asteroid) (c : Canvas) (st : GameEngine) : Prop :=
  asteroids st = A /\ canvas st = c.

(** An asteroid coordinate after integration and wrap with margin
    [size]. *)
Definition wrapped (limit margin v : Q) : Q :=
  if v <? - margin then limit + margin
  else if limit + margin <? v then - margin
  else v.

(** Each event of the run is timely in the state it happens in. *)
Fixpoint timelyRun (evs : list Event) (st : GameEngine) : Prop :=
  match evs with
  | [] => True
  | ev :: evs' => timely ev st /\ timelyRun evs' (step ev st)
  end.

(** [st'] differs from [st] in its players, projectiles, particles and
    random counter at most. *)
Definition combatOnly (st st' : GameEngine) : Prop :=
  st' = withPlayers (players st')
          (withProjectiles (projectiles st')
             (withParticles (particles st') (withRandomIx (randomIx st') st))).

(** [st'] differs from [st] in its players, projectiles, power-ups,
    particles and random counter at most. *)
Definition entitiesOnly (st st' : GameEngine) : Prop :=
  st' = withPlayers (players st')
          (withProjectiles (projectiles st')
             (withPowerUps (powerUps st')
                (withParticles (particles st') (withRandomIx (randomIx st') st)))).

(** The update ticks at the given readings of [performance.now()] and
    [Date.now()]. *)
Definition ticks (readings : list (Q * Q)) : list Event :=
  map (fun r => Update (fst r) (snd r)) readings.

(** A projectile that is in flight on canvas [c]: its lifetime is
    positive and it is within the canvas. *)
Definition inFlight (c : Canvas) (p : Projectile) : Prop :=
  0 < lifetime p /\
  0 <= x (position p) <= width c /\
  0 <= y (position p) <= height c.

(** [p'] is [p] some time later: the same maxima and ids and no fewer
    kills and deaths; and, where [fair] holds, no lower score and a
    health that is still positive if it was. *)
Definition evolves (fair : Prop) (p p' : Player) : Prop :=
  maxHealth p' = maxHealth p /\ maxShield p' = maxShield p /\
  maxEnergy p' = maxEnergy p /\
  playerId p' = playerId p /\ id p' = id p /\
  kills p <= kills p' /\ deaths p <= deaths p' /\
  (fair -> score p <= score p') /\
  (fair -> 0 < maxHealth p -> 0 < health p -> 0 < health p').

(** The map [m'] has the keys of [m], in the same order, and holds at
    each key the player of [m] some time later. *)
Definition playersEvolve (fair : Prop) (m m' : list (string * Player)) : Prop :=
  map fst m' = map fst m /\
  forall k p', get k m' = Some p' -> exists p, get k m = Some p /\ evolves fair p p'.

(** No power-up of the engine has a negative value. *)
Definition valuesOk (st : GameEngine) : Prop :=
  Forall (fun pu : PowerUp => 0 <= value pu) (powerUps st).

(** Where [fair] holds, the power-ups of [st] have no negative value. *)
Definition fairValues (fair : Prop) (st : GameEngine) : Prop := fair -> valuesOk st.

(** An asteroid as the engine makes them, on canvas [c]: a size from 20
    to 50, both included, the health 50 it was created with, and a
    position within its size of the canvas. *)
Definition asteroidOk (c : Canvas) (a : Asteroid) : Prop :=
  (20 <= size a /\ size a <= 50) /\
  health a = 50 /\ maxHealth a = 50 /\
  (- size a <= x (position a) /\ x (position a) <= width c + size a) /\
  (- size a <= y (position a) /\ y (position a) <= height c + size a).

(** The asteroid field of an engine on canvas [c]: the 25 asteroids
    [asteroid_0] to [asteroid_24], in this order. *)
Definition fieldOk (c : Canvas) (st : GameEngine) : Prop :=
  canvas st = c /\
  map (fun a : Asteroid => id a) (asteroids st) = map AsteroidId (seq 0 25) /\
  Forall (asteroidOk c) (asteroids st).

(** A power-up that can be collected, now or later: it is active, or
    its respawn timer is running. *)
Definition reappears (pu : PowerUp) : Prop :=
  active pu = true \/ 0 < respawnTime pu.

(** [pu'] is [pu] some time later: the same id, type and value, and,
    with [Math.random()] in [[0, 1)], still collectable now or later. *)
Definition powerUpEvolves (pu pu' : PowerUp) : Prop :=
  id pu' = id pu /\ type pu' = type pu /\ value pu' = value pu /\
  (inUnitInterval rnd -> reappears pu -> reappears pu').

(** A position on canvas [c], its borders included. *)
Definition onCanvas (c : Canvas) (pos : Vector2D) : Prop :=
  (0 <= x pos /\ x pos <= width c) /\ (0 <= y pos /\ y pos <= height c).

(** Every player of the engine is on canvas [c]. *)
Definition playersOnCanvas (c : Canvas) (st : GameEngine) : Prop :=
  Forall (fun kp : string * Player => onCanvas c (position (snd kp))) (players st).

(** An entry of the store as [createPlayer] makes them: stored under its
    [playerId], with maxima of 100. *)
Definition registeredPlayer (kp : string * Player) : Prop :=
  playerId (snd kp) = fst kp /\
  maxHealth (snd kp) = 100 /\ maxShield (snd kp) = 100 /\ maxEnergy (snd kp) = 100.

(** A store of such entries, with no key twice. *)
Definition registered (m : list (string * Player)) : Prop :=
  NoDup (map fst m) /\ Forall registeredPlayer m.

(** A row of the statistics of an engine whose local player is
    [localId] is named ["You"] exactly when it is the local player's. *)
Definition rowNamed (localId : string) (row : PlayerStats.t) : Prop :=
  PlayerStats.name row = "You" <-> PlayerStats.id row = localId.

(** The three resources of a row are whole numbers from 0 to 100. *)
Definition rowInRange (row : PlayerStats.t) : Prop :=
  (0 <= PlayerStats.health row <= 100)%Z /\
  (0 <= PlayerStats.shield row <= 100)%Z /\
  (0 <= PlayerStats.energy row <= 100)%Z.

(** The states an engine built on canvas [c] can be in when, besides the
    events of a run, at any clock readings, inbound network messages of
    any content arrive. *)
Inductive online (c : Canvas) : GameEngine -> Prop :=
| online_new : online c (constructor c)
| online_step : forall ev st, online c st -> online c (step ev st)
| online_message : forall data st,
    online c st -> online c (handleNetworkUpdate data st).

(** [p'] is [p] after collisions that did it no harm: not destroyed,
    not moved, and with no less shield and health. *)
Definition unharmed (p p' : Player) : Prop :=
  playerId p' = playerId p /\ deaths p' = deaths p /\ position p' = position p /\
  shield p <= shield p' /\ health p <= health p'.

(** Every projectile of the engine was fired by [owner]. *)
Definition ownedBy (owner : string) (st : GameEngine) : Prop :=
  Forall (fun pr : Projectile => ownerId pr = owner) (projectiles st).

(** The engine with its clock advanced, as the sub-steps of the tick at
    the reading [now] see it. *)
Definition ticking (now : Q) (st : GameEngine) : GameEngine :=
  withGameTime (gameTime st + (now - lastUpdate st) / 1000) (withLastUpdate now st).

(** What the collision pass leaves to every player: its velocity and its
    two cooldowns. *)
Definition drive (p : Player) : Vector2D * Q * Q :=
  (velocity p, weaponCooldown p, boostCooldown p).

(** The same for a store, key by key. *)
Definition drives (m : list (string * Player)) : list (string * (Vector2D * Q * Q)) :=
  map (fun kp => (fst kp, drive (snd kp))) m.

(** A player coordinate after the wrap at the borders 0 and [limit]. *)
Definition wrappedInto (limit v : Q) : Q :=
  if v <? 0 then limit else if limit <? v then 0 else v.

(** * Properties *)

(** ** Comparisons *)

Lemma ltb_true (a b : Q) : (a <? b) = true <-> a < b.
Proof.
  unfold ltb. destruct (Qlt_le_dec a b) as [H | H]; split; intro; try easy.
  exfalso. apply (Qlt_irrefl a). apply Qlt_le_trans with b; assumption.
Qed.

Lemma ltb_false (a b : Q) : (a <? b) = false <-> b <= a.
Proof.
  unfold ltb. destruct (Qlt_le_dec a b) as [H | H]; split; intro; try easy.
  exfalso. apply (Qlt_irrefl a). apply Qlt_le_trans with b; assumption.
Qed.

Lemma leb_true (a b : Q) : (a <=? b) = true <-> a <= b.
Proof.
  unfold leb. rewrite negb_true_iff. apply ltb_false.
Qed.

Lemma leb_false (a b : Q) : (a <=? b) = false <-> b < a.
Proof.
  unfold leb. rewrite negb_false_iff. apply ltb_true.
Qed.

(** Case analysis on every comparison in the goal. *)
Ltac cases_ltb :=
  repeat match goal with
  | |- context [?a <? ?b] =>
    let E := fresh "E" in
    destruct (a <? b) eqn:E;
    [apply ltb_true in E | apply ltb_false in E]; cbn [negb andb orb] in *
  end.

(** ** The players map *)

Lemma get_set_same k v m : get k (set k v m) = Some v.
Proof.
  induction m as [| [k' p] m IH]; simpl.
  - now rewrite String.eqb_refl.
  - destruct (String.eqb k k') eqn:E; simpl.
    + now rewrite String.eqb_refl.
    + now rewrite E.
Qed.

Lemma get_set_other k k' v m : k' <> k -> get k' (set k v m) = get k' m.
Proof.
  intro N. induction m as [| [k0 p] m IH]; simpl.
  - apply String.eqb_neq in N. now rewrite N.
  - destruct (String.eqb k k0) eqn:E; simpl.
    + apply String.eqb_eq in E. subst k0.
      apply String.eqb_neq in N. now rewrite N.
    + now rewrite IH.
Qed.

Lemma set_set k v1 v2 m : set k v2 (set k v1 m) = set k v2 m.
Proof.
  induction m as [| [k0 p] m IH]; simpl.
  - now rewrite String.eqb_refl.
  - destruct (String.eqb k k0) eqn:E; simpl.
    + now rewrite String.eqb_refl.
    + now rewrite E, IH.
Qed.

Lemma get_In k p m : get k m = Some p -> In (k, p) m.
Proof.
  induction m as [| [k0 p0] m IH]; simpl; [discriminate |].
  destruct (String.eqb k k0) eqn:E.
  - apply String.eqb_eq in E. intros [= ->]. left. now subst.
  - intro H. right. now apply IH.
Qed.

Lemma In_get k p m : In (k, p) m -> exists p', get k m = Some p'.
Proof.
  induction m as [| [k0 p0] m IH]; simpl; [easy |].
  intros [[= -> ->] | H].
  - rewrite String.eqb_refl. now exists p.
  - destruct (String.eqb k k0); [now exists p0 | now apply IH].
Qed.

(** [set] changes no key other than to add [k] when it is new. *)
Lemma keys_set_present k v p m :
  get k m = Some p -> map fst (set k v m) = map fst m.
Proof.
  induction m as [| [k0 p0] m IH]; simpl; [discriminate |].
  destruct (String.eqb k k0) eqn:E; simpl.
  - apply String.eqb_eq in E. now subst.
  - intro H. now rewrite IH.
Qed.

Lemma Forall_set (P : string * Player -> Prop) k v m :
  Forall P m -> P (k, v) -> Forall P (set k v m).
Proof.
  intros Hm Hv. induction Hm as [| [k0 p0] m H0 Hm IH]; simpl.
  - now constructor.
  - destruct (String.eqb k k0); constructor; assumption.
Qed.

Lemma Forall_get (P : string * Player -> Prop) k p m :
  Forall P m -> get k m = Some p -> P (k, p).
Proof.
  intros Hm Hg. apply get_In in Hg. rewrite Forall_forall in Hm. now apply Hm.
Qed.

(** ** Lists *)

Lemma Forall_splice1 {A} (P : A -> Prop) i l : Forall P l -> Forall P (splice1 i l).
Proof.
  intro H. revert i. induction H as [| a l Ha Hl IH]; intros [| i]; simpl;
    try constructor; auto.
Qed.

Lemma Forall_updateAt {A} (P : A -> Prop) i f l :
  (forall a, P a -> P (f a)) -> Forall P l -> Forall P (updateAt i f l).
Proof.
  intros Hf H. revert i. induction H as [| a l Ha Hl IH]; intros [| i]; simpl;
    try constructor; auto.
Qed.

Lemma Forall_nth_error {A} (P : A -> Prop) i l a :
  Forall P l -> nth_error l i = Some a -> P a.
Proof.
  intros H E. apply nth_error_In in E. rewrite Forall_forall in H. now apply H.
Qed.

Lemma length_updateAt {A} i (f : A -> A) l : List.length (updateAt i f l) = List.length l.
Proof.
  revert i. induction l as [| a l IH]; intros [| i]; simpl; auto.
Qed.

(** ** Loops *)

Lemma forLoop_preserves {S} (P : S -> Prop) n (body : nat -> S -> S) s :
  (forall i s, P s -> P (body i s)) -> P s -> P (forLoop n body s).
Proof.
  intros Hb Hs. induction n as [| n IH]; simpl; auto.
Qed.

Lemma forLoop_counts {S} (P : nat -> S -> Prop) n (body : nat -> S -> S) s :
  (forall i s, P i s -> P (Datatypes.S i) (body i s)) -> P O s -> P n (forLoop n body s).
Proof.
  intros Hb Hs. induction n as [| n IH]; simpl; auto.
Qed.

Lemma forEachProjectileFrom_preserves (P : GameEngine -> Prop) f len i st :
  (forall p j s, P s -> nth_error (projectiles s) j = Some p -> P (f p j s)) ->
  P st -> P (forEachProjectileFrom len i f st).
Proof.
  intro Hf. revert i st. induction len as [| len IH]; intros i st Hs; simpl; auto.
  apply IH. destruct (nth_error (projectiles st) i) eqn:E; eauto.
Qed.

Lemma fold_left_preserves {A S} (P : S -> Prop) (f : S -> A -> S) l s :
  (forall a s, P s -> P (f s a)) -> P s -> P (fold_left f l s).
Proof.
  intro Hf. revert s. induction l as [| a l IH]; intros s Hs; simpl; auto.
Qed.

(** ** Effects that only add particles and read random numbers *)

Lemma effectsOnly_refl st : effectsOnly st st.
Proof. now destruct st. Qed.

Lemma effectsOnly_trans st1 st2 st3 :
  effectsOnly st1 st2 -> effectsOnly st2 st3 -> effectsOnly st1 st3.
Proof.
  unfold effectsOnly. intros H12 H23. rewrite H23 at 1. rewrite H12 at 1.
  now destruct st1.
Qed.

Lemma effectsOnly_push p k st : effectsOnly st (pushParticle p (drawn k st)).
Proof. now destruct st. Qed.

Lemma effectsOnly_forLoop n body st :
  (forall i s, effectsOnly s (body i s)) -> effectsOnly st (forLoop n body st).
Proof.
  intro Hb. induction n as [| n IH]; simpl.
  - apply effectsOnly_refl.
  - eapply effectsOnly_trans; [exact IH | apply Hb].
Qed.

Lemma effectsOnly_engine player st : effectsOnly st (addEngineParticles player st).
Proof. apply effectsOnly_forLoop. intros. apply effectsOnly_push. Qed.

Lemma effectsOnly_boost player st : effectsOnly st (addBoostParticles player st).
Proof. apply effectsOnly_forLoop. intros. apply effectsOnly_push. Qed.

Lemma effectsOnly_muzzle player st : effectsOnly st (addMuzzleFlashParticles player st).
Proof. apply effectsOnly_forLoop. intros. apply effectsOnly_push. Qed.

Lemma effectsOnly_hit pos st : effectsOnly st (addHitParticles pos st).
Proof. apply effectsOnly_forLoop. intros. apply effectsOnly_push. Qed.

Lemma effectsOnly_explosion pos col st : effectsOnly st (addExplosionParticles pos col st).
Proof. apply effectsOnly_forLoop. intros. apply effectsOnly_push. Qed.

Lemma effectsOnly_collection pos col st : effectsOnly st (addCollectionParticles pos col st).
Proof. apply effectsOnly_forLoop. intros. apply effectsOnly_push. Qed.

Create HintDb effects.

#[local] Hint Resolve effectsOnly_engine effectsOnly_boost effectsOnly_muzzle
  effectsOnly_hit effectsOnly_explosion effectsOnly_collection : effects.

(** What [effectsOnly] keeps. *)
Lemma effectsOnly_players st st' : effectsOnly st st' -> players st' = players st.
Proof. intro H. now rewrite H. Qed.

Lemma effectsOnly_projectiles st st' : effectsOnly st st' -> projectiles st' = projectiles st.
Proof. intro H. now rewrite H. Qed.

Lemma effectsOnly_powerUps st st' : effectsOnly st st' -> powerUps st' = powerUps st.
Proof. intro H. now rewrite H. Qed.

Lemma effectsOnly_asteroids st st' : effectsOnly st st' -> asteroids st' = asteroids st.
Proof. intro H. now rewrite H. Qed.

Lemma effectsOnly_canvas st st' : effectsOnly st st' -> canvas st' = canvas st.
Proof. intro H. now rewrite H. Qed.

Lemma effectsOnly_keys st st' : effectsOnly st st' -> keys st' = keys st.
Proof. intro H. now rewrite H. Qed.

Lemma effectsOnly_mouse st st' : effectsOnly st st' -> mouse st' = mouse st.
Proof. intro H. now rewrite H. Qed.

Lemma effectsOnly_localPlayerId st st' :
  effectsOnly st st' -> localPlayerId st' = localPlayerId st.
Proof. intro H. now rewrite H. Qed.

(** The number of random values a burst of [n] particles reads, [k] per
    particle. *)
Lemma randomIx_burst n k (mk : GameEngine -> Particle.t) st :
  randomIx (forLoop n (fun _ st => pushParticle (mk st) (drawn k st)) st)
  = (randomIx st + n * k)%nat.
Proof.
  induction n as [| n IH]; simpl.
  - lia.
  - rewrite IH. lia.
Qed.

(** ** The resource bounds *)

Lemma Inv_effectsOnly st st' : effectsOnly st st' -> Inv st -> Inv st'.
Proof.
  intros E (Hp & Hd & Hv). unfold Inv.
  now rewrite (effectsOnly_players _ _ E), (effectsOnly_projectiles _ _ E),
    (effectsOnly_powerUps _ _ E).
Qed.

Lemma Inv_withPlayers m st :
  playersBounded m -> Inv st -> Inv (withPlayers m st).
Proof. intros Hm (_ & Hd & Hv). now split. Qed.

(** Splits on the two cases of a [Math.min]. *)
Ltac cases_min :=
  repeat match goal with
  | |- context [Qmin ?a ?b] =>
    let m := fresh "m" in
    let Hm := fresh "Hm" in
    destruct (Q.min_spec a b) as [[? Hm] | [? Hm]];
    revert Hm; generalize (Qmin a b); intros m Hm
  end.

Lemma bounded_boost dt ks p : canBoost ks p = true -> bounded p -> bounded (boost dt p).
Proof.
  unfold canBoost. rewrite !andb_true_iff, ltb_true, leb_true.
  intros ((_ & He) & _) (Hh & Hs & (He0 & He1)).
  unfold bounded, boost; simpl. repeat split; try tauto; lra.
Qed.

Lemma movementKeys_spec p dt st :
  let q := fst (movementKeys p dt st) in
  effectsOnly st (snd (movementKeys p dt st)) /\
  (bounded p -> bounded q) /\
  energy q = energy p /\
  boostCooldown q = boostCooldown p /\
  weaponCooldown q = weaponCooldown p /\
  position q = position p.
Proof.
  unfold movementKeys.
  assert (E : effectsOnly st (addEngineParticles (thrust 5 dt p) st))
    by apply effectsOnly_engine.
  destruct (has "KeyW" (keys st)); cbv zeta beta iota.
  - rewrite (effectsOnly_keys _ _ E).
    destruct (has "KeyS" (keys st)), (has "KeyA" (keys st)), (has "KeyD" (keys st));
      simpl; (split; [exact E | split; [exact (fun H => H) | repeat split]]).
  - destruct (has "KeyS" (keys st)), (has "KeyA" (keys st)), (has "KeyD" (keys st));
      simpl;
      (split; [apply effectsOnly_refl | split; [exact (fun H => H) | repeat split]]).
Qed.

Lemma movementAndBoost_spec p dt st :
  bounded p ->
  bounded (fst (movementAndBoost p dt st)) /\ effectsOnly st (snd (movementAndBoost p dt st)).
Proof.
  intro Hp. unfold movementAndBoost.
  destruct (movementKeys_spec p dt st) as (E1 & B1 & _).
  destruct (movementKeys p dt st) as [p1 st1]; simpl in E1, B1.
  destruct (canBoost (keys st1) p1) eqn:C; simpl.
  - split; [eapply bounded_boost; eauto |].
    eapply effectsOnly_trans; [exact E1 | apply effectsOnly_boost].
  - auto.
Qed.

Lemma Inv_handleShooting dateNow st : Inv st -> Inv (handleShooting dateNow st).
Proof.
  intros HI. unfold handleShooting.
  destruct (get (localPlayerId st) (players st)) as [p |] eqn:G; [| exact HI].
  destruct (0 <? weaponCooldown p) eqn:Ew; [exact HI |].
  destruct (energy p <? 10) eqn:Ee; [exact HI |]. cbn [orb].
  apply ltb_false in Ee.
  eapply Inv_effectsOnly; [apply effectsOnly_muzzle |].
  destruct HI as (Hp & Hd & Hv).
  assert (Bp : bounded p) by exact (Forall_get _ _ _ _ Hp G).
  repeat split; simpl.
  - apply Forall_set; [exact Hp |].
    destruct Bp as (Hh & Hs & (He0 & He1)).
    unfold bounded; simpl. repeat split; try tauto; lra.
  - apply Forall_app. split; [exact Hd |]. constructor; [simpl; lra | constructor].
  - exact Hv.
Qed.

Lemma Inv_handlePlayerInput k dt dateNow st :
  Inv st -> Inv (handlePlayerInput k dt dateNow st).
Proof.
  intro HI. unfold handlePlayerInput.
  destruct (get k (players st)) as [p |] eqn:G; [| exact HI].
  assert (Bp : bounded p) by exact (Forall_get _ _ _ _ (proj1 HI) G).
  destruct (movementAndBoost_spec p dt st Bp) as [B E].
  destruct (movementAndBoost p dt st) as [p1 st1]; simpl in B, E.
  set (st2 := withPlayers (set k p1 (players st1)) st1).
  assert (I2 : Inv st2).
  { apply Inv_withPlayers.
    - apply Forall_set; [| exact B]. rewrite (effectsOnly_players _ _ E). exact (proj1 HI).
    - eapply Inv_effectsOnly; eauto. }
  clearbody st2.
  set (st3 := if Mouse.pressed (mouse st2) then handleShooting dateNow st2 else st2).
  assert (I3 : Inv st3).
  { unfold st3. destruct (Mouse.pressed (mouse st2)); auto using Inv_handleShooting. }
  clearbody st3.
  destruct (get k (players st3)) as [p3 |] eqn:G3; [| exact I3].
  apply Inv_withPlayers; [| exact I3].
  apply Forall_set; [exact (proj1 I3) |].
  exact (Forall_get _ _ _ _ (proj1 I3) G3).
Qed.

Lemma bounded_regenerate dt p : 0 <= dt -> bounded p -> bounded (regenerate dt p).
Proof.
  intros Hdt (Hh & (Hs0 & Hs1) & (He0 & He1)).
  unfold regenerate, bounded.
  destruct (shield p <? maxShield p) eqn:Es; destruct (energy p <? maxEnergy p) eqn:Ee;
    simpl; rewrite ?Es, ?Ee; simpl; repeat split; try tauto; cases_min; lra.
Qed.

Lemma bounded_wrapAround c p : bounded p -> bounded (wrapAround c p).
Proof.
  intro H. unfold wrapAround.
  repeat match goal with
  | |- context [if ?b then _ else _] => destruct b
  end; exact H.
Qed.

Lemma bounded_updateCooldowns dt p : bounded p -> bounded (updateCooldowns dt p).
Proof.
  intro H. unfold updateCooldowns.
  destruct (0 <? weaponCooldown p); simpl;
    destruct (0 <? boostCooldown p); exact H.
Qed.

Lemma bounded_updatePlayer c dt p : 0 <= dt -> bounded p -> bounded (updatePlayer c dt p).
Proof.
  intros Hdt H. unfold updatePlayer.
  apply bounded_updateCooldowns, bounded_regenerate, bounded_wrapAround; auto.
Qed.

Lemma Inv_updatePlayers dt dateNow st :
  0 <= dt -> Inv st -> Inv (updatePlayers dt dateNow st).
Proof.
  intros Hdt HI. unfold updatePlayers.
  destruct (get (localPlayerId st) (players st)); [| exact HI].
  pose proof (Inv_handlePlayerInput (localPlayerId st) dt dateNow st HI) as H1.
  apply Inv_withPlayers; [| exact H1].
  unfold playersBounded, forEachPlayer. apply Forall_map.
  eapply Forall_impl; [| exact (proj1 H1)].
  intros [k q] B. simpl in *. now apply bounded_updatePlayer.
Qed.

Lemma Inv_updateProjectiles dt st : Inv st -> Inv (updateProjectiles dt st).
Proof.
  intros (Hp & Hd & Hv). repeat split; auto. simpl.
  apply incl_Forall with (map (moveProjectile dt) (projectiles st)).
  - intros a Ha. apply filter_In in Ha. tauto.
  - apply Forall_map. eapply Forall_impl; [| exact Hd]. now intros pr H.
Qed.

Lemma updatePowerUp_spec dt pu st :
  value (fst (updatePowerUp dt pu st)) = value pu /\
  effectsOnly st (snd (updatePowerUp dt pu st)).
Proof.
  unfold updatePowerUp.
  destruct (negb (active pu) && (0 <? respawnTime pu)); simpl.
  - destruct (respawnTime pu - dt <=? 0); simpl; split; auto using effectsOnly_refl.
    now destruct st.
  - split; auto using effectsOnly_refl.
Qed.

Lemma updatePowerUpsFrom_spec dt l st :
  Forall (fun pu : PowerUp => 0 <= value pu) l ->
  Forall (fun pu : PowerUp => 0 <= value pu) (fst (updatePowerUpsFrom dt l st)) /\
  effectsOnly st (snd (updatePowerUpsFrom dt l st)).
Proof.
  intro H. revert st. induction H as [| pu l Hpu Hl IH]; intro st; simpl.
  - split; [constructor | apply effectsOnly_refl].
  - destruct (updatePowerUp_spec dt pu st) as [V E].
    destruct (updatePowerUp dt pu st) as [pu' st']; simpl in V, E.
    destruct (IH st') as [F E'].
    destruct (updatePowerUpsFrom dt l st') as [l' st'']; simpl in *.
    split.
    + constructor; [now rewrite V | exact F].
    + eapply effectsOnly_trans; eauto.
Qed.

Lemma Inv_updatePowerUps dt st : Inv st -> Inv (updatePowerUps dt st).
Proof.
  intros HI. unfold updatePowerUps.
  destruct (updatePowerUpsFrom_spec dt (powerUps st) st (proj2 (proj2 HI))) as [F E].
  destruct (updatePowerUpsFrom dt (powerUps st) st) as [l st']; simpl in *.
  destruct (Inv_effectsOnly _ _ E HI) as (Hp & Hd & Hv).
  repeat split; auto.
Qed.

Lemma Inv_updateAsteroids dt st : Inv st -> Inv (updateAsteroids dt st).
Proof. intros (Hp & Hd & Hv). repeat split; auto. Qed.

Lemma Inv_updateParticles dt st : Inv st -> Inv (updateParticles dt st).
Proof. intros (Hp & Hd & Hv). repeat split; auto. Qed.

Lemma applyDamage_boundedButHealth d p :
  0 <= d -> bounded p -> boundedButHealth (applyDamage d p).
Proof.
  intros Hd ((Hh0 & Hh1) & (Hs0 & Hs1) & He).
  unfold applyDamage, boundedButHealth.
  destruct (0 <? shield p) eqn:Es.
  - destruct (0 <? d - Qmin (shield p) d) eqn:Ed; simpl;
      (repeat split; try tauto; revert Ed; rewrite ?ltb_true, ?ltb_false;
       cases_min; intros; lra).
  - destruct (0 <? d) eqn:Ed; simpl; repeat split; try tauto; lra.
Qed.

Lemma boundedButHealth_alive p : boundedButHealth p -> 0 < health p -> bounded p.
Proof.
  intros ((Hm & Hh) & Hs & He) H. repeat split; try tauto; lra.
Qed.

Lemma Inv_handlePlayerDestroyed k killerId st m p1 :
  players st = set k p1 m ->
  playersBounded m ->
  boundedButHealth p1 ->
  Forall (fun pr : Projectile => 0 <= damage pr) (projectiles st) ->
  Forall (fun pu : PowerUp => 0 <= value pu) (powerUps st) ->
  Inv (handlePlayerDestroyed k killerId st).
Proof.
  intros Hst Hm ((Hmh & Hh) & (Hs0 & Hs1) & (He0 & He1)) Hd Hv.
  unfold handlePlayerDestroyed. rewrite Hst, get_set_same.
  eapply Inv_effectsOnly; [apply effectsOnly_explosion |].
  match goal with
  | |- Inv (match get _ (players ?s) with _ => _ end) => set (st1 := s)
  end.
  assert (I1 : Inv st1).
  { unfold st1. repeat split; auto. simpl. rewrite ?Hst, set_set.
    apply Forall_set; [exact Hm |].
    unfold bounded; simpl. repeat split; try lra. }
  clearbody st1.
  destruct (get killerId (players st1)) as [killer |] eqn:G; [| exact I1].
  apply Inv_withPlayers; [| exact I1].
  apply Forall_set; [exact (proj1 I1) |].
  exact (Forall_get _ _ _ _ (proj1 I1) G).
Qed.

Lemma Inv_handlePlayerHit k pr st :
  0 <= damage pr -> Inv st -> Inv (handlePlayerHit k pr st).
Proof.
  intros Hpr HI. unfold handlePlayerHit.
  destruct (get k (players st)) as [p |] eqn:G; [| exact HI].
  assert (Bp : bounded p) by exact (Forall_get _ _ _ _ (proj1 HI) G).
  pose proof (applyDamage_boundedButHealth (damage pr) p Hpr Bp) as B1.
  set (p1 := applyDamage (damage pr) p) in *.
  pose proof (effectsOnly_hit (position p1) (withPlayers (set k p1 (players st)) st)) as E.
  destruct HI as (Hp & Hd & Hv).
  destruct (health p1 <=? 0) eqn:Eh.
  - apply Inv_handlePlayerDestroyed with (m := players st) (p1 := p1);
      [ now rewrite (effectsOnly_players _ _ E)
      | exact Hp
      | exact B1
      | now rewrite (effectsOnly_projectiles _ _ E)
      | now rewrite (effectsOnly_powerUps _ _ E) ].
  - apply leb_false in Eh.
    eapply Inv_effectsOnly; [exact E |].
    repeat split; auto. simpl.
    apply Forall_set; [exact Hp |]. now apply boundedButHealth_alive.
Qed.

Lemma bounded_applyPowerUp pu p : 0 <= value pu -> bounded p -> bounded (applyPowerUp pu p).
Proof.
  intros Hv ((Hh0 & Hh1) & (Hs0 & Hs1) & (He0 & He1)).
  unfold applyPowerUp, bounded.
  destruct (type pu); simpl; repeat split; try tauto; cases_min; lra.
Qed.

Lemma Inv_handlePowerUpCollection k i st : Inv st -> Inv (handlePowerUpCollection k i st).
Proof.
  intros HI. unfold handlePowerUpCollection.
  destruct (get k (players st)) as [p |] eqn:G; [| exact HI].
  destruct (nth_error (powerUps st) i) as [pu |] eqn:N; [| exact HI].
  eapply Inv_effectsOnly; [apply effectsOnly_collection |].
  destruct HI as (Hp & Hd & Hv).
  repeat split; simpl; auto.
  - apply Forall_set; [exact Hp |]. apply bounded_applyPowerUp.
    + exact (Forall_nth_error _ _ _ _ Hv N).
    + exact (Forall_get _ _ _ _ Hp G).
  - apply Forall_updateAt; [| exact Hv]. now intros a Ha.
Qed.

Lemma Inv_splice i st : Inv st -> Inv (withProjectiles (splice1 i (projectiles st)) st).
Proof.
  intros (Hp & Hd & Hv). repeat split; auto. simpl. now apply Forall_splice1.
Qed.

Lemma Inv_playerCollisions st k : Inv st -> Inv (playerCollisions st k).
Proof.
  intro HI. unfold playerCollisions.
  apply forLoop_preserves.
  - intros i s Hs. unfold playerVsPowerUp.
    destruct (get k (players s)); [| exact Hs].
    destruct (nth_error (powerUps s) i) as [pu |]; [| exact Hs].
    destruct (negb (active pu)); [exact Hs |].
    destruct (distanceLt _ _ _); [| exact Hs].
    now apply Inv_handlePowerUpCollection.
  - unfold forEachProjectile. apply forEachProjectileFrom_preserves; [| exact HI].
    intros pr j s Hs N. unfold playerVsProjectile.
    destruct (get k (players s)) as [p |]; [| exact Hs].
    destruct (String.eqb _ _); [exact Hs |].
    destruct (distanceLt _ _ _); [| exact Hs].
    apply Inv_splice, Inv_handlePlayerHit; [| exact Hs].
    exact (Forall_nth_error _ _ _ _ (proj1 (proj2 Hs)) N).
Qed.

Lemma Inv_checkCollisions st : Inv st -> Inv (checkCollisions st).
Proof.
  intro HI. unfold checkCollisions, forEachProjectile.
  apply forEachProjectileFrom_preserves.
  - intros pr j s Hs _. unfold projectileVsAsteroids.
    apply fold_left_preserves; [| exact Hs].
    intros a s' Hs'. destruct (distanceLt _ _ _); [| exact Hs'].
    apply Inv_splice. eapply Inv_effectsOnly; [apply effectsOnly_explosion | exact Hs'].
  - apply fold_left_preserves; [| exact HI].
    intros k s Hs. now apply Inv_playerCollisions.
Qed.

Lemma Inv_update now dateNow st :
  lastUpdate st <= now -> Inv st -> Inv (update now dateNow st).
Proof.
  intros Hn HI. unfold update.
  assert (Hdt : 0 <= (now - lastUpdate st) / 1000).
  { apply Qle_shift_div_l; lra. }
  apply Inv_checkCollisions, Inv_updateParticles, Inv_updateAsteroids,
    Inv_updatePowerUps, Inv_updateProjectiles, Inv_updatePlayers; [exact Hdt |].
  destruct HI as (Hp & Hd & Hv). repeat split; auto.
Qed.

Lemma Inv_generateAsteroids st : Inv st -> Inv (generateAsteroids st).
Proof.
  intro HI. unfold generateAsteroids. apply forLoop_preserves; [| exact HI].
  intros i s (Hp & Hd & Hv). repeat split; auto.
Qed.

Lemma Inv_generatePowerUps st :
  inUnitInterval rnd -> Inv st -> Inv (generatePowerUps st).
Proof.
  intros Hr HI. unfold generatePowerUps. apply forLoop_preserves; [| exact HI].
  intros i s (Hp & Hd & Hv). repeat split; auto. simpl.
  apply Forall_app. split; [exact Hv |].
  constructor; [| constructor]. simpl.
  destruct (Hr (randomIx s + 3)%nat) as [H0 _]. unfold random. lra.
Qed.

Lemma Inv_constructor c : inUnitInterval rnd -> Inv (constructor c).
Proof.
  intro Hr. unfold constructor.
  apply Inv_generatePowerUps, Inv_generateAsteroids; [exact Hr |].
  repeat split; constructor.
Qed.

Lemma Inv_createPlayer name label pos st : Inv st -> Inv (createPlayer name label pos st).
Proof.
  intros (Hp & Hd & Hv). repeat split; auto. simpl.
  apply Forall_set; [exact Hp |].
  unfold bounded; simpl. repeat split; lra.
Qed.

Lemma Inv_resetGame st : inUnitInterval rnd -> Inv st -> Inv (resetGame st).
Proof.
  intros Hr (Hp & Hd & Hv). unfold resetGame.
  apply Inv_generatePowerUps; [exact Hr |].
  repeat split; simpl; auto; constructor.
Qed.

Lemma Inv_debugInterval name dateNow st : Inv st -> Inv (debugInterval name dateNow st).
Proof.
  intros HI. unfold debugInterval.
  destruct (get name (players st)) as [p |] eqn:G; [| exact HI].
  destruct HI as (Hp & Hd & Hv).
  assert (Hs : playersBounded
                 (set name (onBase (withVelocity
                    (mkVector2D ((random st 0 - 0.5) * 2 * 100)
                                ((random st 1 - 0.5) * 2 * 100))) p) (players st))).
  { apply Forall_set; [exact Hp |]. exact (Forall_get _ _ _ _ Hp G). }
  destruct (0.95 <? random st 2); repeat split; simpl; auto.
  apply Forall_app. split; [exact Hd |]. constructor; [simpl; lra | constructor].
Qed.

Lemma Inv_step ev st :
  inUnitInterval rnd -> timely ev st -> Inv st -> Inv (step ev st).
Proof.
  intros Hr Ht HI. destruct ev; simpl in *.
  - destruct HI as (Hp & Hd & Hv). repeat split; auto.
  - destruct HI as (Hp & Hd & Hv). repeat split; auto.
  - destruct HI as (Hp & Hd & Hv). repeat split; auto.
  - unfold mousedown. destruct (Z.eqb button 0); [| exact HI].
    apply Inv_handleShooting. destruct HI as (Hp & Hd & Hv). repeat split; auto.
  - unfold mouseup. destruct (Z.eqb button 0); [| exact HI].
    destruct HI as (Hp & Hd & Hv). repeat split; auto.
  - now apply Inv_update.
  - destruct HI as (Hp & Hd & Hv). repeat split; auto.
  - now apply Inv_resetGame.
  - apply Inv_createPlayer. destruct HI as (Hp & Hd & Hv). repeat split; auto.
  - apply Inv_createPlayer. destruct HI as (Hp & Hd & Hv). repeat split; auto.
  - now apply Inv_createPlayer.
  - now apply Inv_debugInterval.
Qed.

Lemma Inv_reachable c st : inUnitInterval rnd -> reachable c st -> Inv st.
Proof.
  intros Hr H. induction H as [| ev st H IH Ht].
  - now apply Inv_constructor.
  - now apply Inv_step.
Qed.

(** ** The claims *)

(** C1.  In every state the engine can reach from its construction by
    update ticks, key and mouse events, the debug player's timer and the
    calls of its control surface, every player in the store has
    [0 <= health <= maxHealth], [0 <= shield <= maxShield] and
    [0 <= energy <= maxEnergy]; the clock does not go back and
    [Math.random()] is in [[0, 1)]. *)
Theorem resource_bounds_hold (c : Canvas) (st : GameEngine) (k : string) (p : Player) :
  inUnitInterval rnd ->
  reachable c st ->
  In (k, p) (players st) ->
  0 <= health p <= maxHealth p /\
  0 <= shield p <= maxShield p /\
  0 <= energy p <= maxEnergy p.
Proof.
  intros Hr H Hin.
  destruct (Inv_reachable c st Hr H) as (Hp & _).
  unfold playersBounded in Hp. rewrite Forall_forall in Hp.
  exact (Hp (k, p) Hin).
Qed.

(** What [applyDamage] leaves alone. *)
Lemma applyDamage_frame d p :
  let p' := applyDamage d p in
  maxHealth p' = maxHealth p /\ maxShield p' = maxShield p /\
  maxEnergy p' = maxEnergy p /\ energy p' = energy p /\
  deaths p' = deaths p /\ kills p' = kills p /\ score p' = score p /\
  position p' = position p /\ playerId p' = playerId p.
Proof.
  unfold applyDamage.
  destruct (0 <? shield p); [destruct (0 <? d - Qmin (shield p) d) | destruct (0 <? d)];
    simpl; repeat split; reflexivity.
Qed.

(** The amounts [applyDamage] takes from the shield and from the health. *)
Lemma applyDamage_amounts d p :
  0 <= shield p -> 0 <= d ->
  shield (applyDamage d p) == shield p - Qmin (shield p) d /\
  health (applyDamage d p) == health p - (d - Qmin (shield p) d).
Proof.
  intros Hs Hd. unfold applyDamage.
  destruct (0 <? shield p) eqn:Es.
  - destruct (0 <? d - Qmin (shield p) d) eqn:Ed; simpl; split; try reflexivity.
    apply ltb_false in Ed. revert Ed. cases_min; intros; lra.
  - apply ltb_false in Es.
    destruct (0 <? d) eqn:Ed; [apply ltb_true in Ed | apply ltb_false in Ed];
      simpl; split; cases_min; lra.
Qed.

Lemma handlePlayerHit_players k pr st p :
  get k (players st) = Some p ->
  players (handlePlayerHit k pr st) =
    let p1 := applyDamage (damage pr) p in
    if health p1 <=? 0
    then
      let m := set k (respawned (canvas st) (randomIx st + 24) p1) (players st) in
      match get (ownerId pr) m with
      | Some killer => set (ownerId pr) (credited killer) m
      | None => m
      end
    else set k p1 (players st).
Proof.
  intro G. unfold handlePlayerHit. rewrite G. cbv zeta.
  set (p1 := applyDamage (damage pr) p).
  set (st0 := withPlayers (set k p1 (players st)) st).
  pose proof (effectsOnly_hit (position p1) st0) as E.
  assert (R : randomIx (addHitParticles (position p1) st0) = (randomIx st + 24)%nat).
  { unfold addHitParticles. rewrite randomIx_burst. reflexivity. }
  destruct (health p1 <=? 0).
  - unfold handlePlayerDestroyed.
    rewrite (effectsOnly_players _ _ E). simpl players at 1. rewrite get_set_same.
    rewrite (effectsOnly_players _ _ (effectsOnly_explosion _ _ _)).
    unfold random. rewrite R, !set_set, !Nat.add_0_r, Nat.add_1_r.
    set (m := set k (respawned (canvas st) (randomIx st + 24) p1) (players st)).
    match goal with
    | |- context [get (ownerId pr) ?X] => change X with m
    end.
    destruct (get (ownerId pr) m); reflexivity.
  - now rewrite (effectsOnly_players _ _ E).
Qed.

(** C2.  A hit takes from the shield first, up to all of it, and only
    the rest from the health: with [absorbed = min(shield, damage)],
    [handlePlayerHit] leaves [shield - absorbed] and
    [health - (damage - absorbed)] (when that health is still positive,
    so that the player is not respawned).  A shield of 30 and a health of
    100 hit by a damage of 50 become 0 and 80.  [handlePlayerHit] is what
    the collision pass calls for a projectile of another owner that its
    distance test finds within 20 of the player. *)
Theorem shield_absorbs_before_health
    (k : string) (player : Player) (projectile : Projectile) (st : GameEngine) :
  get k (players st) = Some player ->
  0 <= shield player ->
  0 <= damage projectile ->
  0 < health player - (damage projectile - Qmin (shield player) (damage projectile)) ->
  exists player',
    get k (players (handlePlayerHit k projectile st)) = Some player' /\
    shield player' == shield player - Qmin (shield player) (damage projectile) /\
    health player' ==
      health player - (damage projectile - Qmin (shield player) (damage projectile)) /\
    (shield player == 30 -> health player == 100 -> damage projectile == 50 ->
     shield player' == 0 /\ health player' == 80).
Proof.
  intros G Hs Hdm Halive.
  destruct (applyDamage_amounts (damage projectile) player Hs Hdm) as [As Ah].
  exists (applyDamage (damage projectile) player).
  split; [| split; [exact As | split; [exact Ah |]]].
  - rewrite (handlePlayerHit_players k projectile st player G). cbv zeta.
    assert (L : (health (applyDamage (damage projectile) player) <=? 0) = false).
    { apply leb_false. lra. }
    rewrite L. apply get_set_same.
  - intros E1 E2 E3. revert As Ah.
    generalize (shield (applyDamage (damage projectile) player)).
    generalize (health (applyDamage (damage projectile) player)).
    intros h s. cases_min; intros; split; lra.
Qed.

(** C3.  A hit that drives the victim's health to zero or below leaves
    the victim in the store, at its key, with full health, shield and
    energy, one more death, and the position drawn from the next two
    random values (the six hit particles have read 24 before); the
    player stored under the projectile's owner id, if there is one, gets
    one more kill and 100 more points; no key leaves the store. *)
Theorem lethal_hit_soft_respawn
    (k : string) (player : Player) (projectile : Projectile) (st : GameEngine) :
  get k (players st) = Some player ->
  health (applyDamage (damage projectile) player) <= 0 ->
  let st' := handlePlayerHit k projectile st in
  let i := (randomIx st + 24)%nat in
  (exists victim,
     get k (players st') = Some victim /\
     health victim = maxHealth player /\
     shield victim = maxShield player /\
     energy victim = maxEnergy player /\
     deaths victim = deaths player + 1 /\
     position victim =
       mkVector2D (rnd i * width (canvas st)) (rnd (S i) * height (canvas st))) /\
  (forall shooter,
     get (ownerId projectile) (players st) = Some shooter ->
     exists shooter',
       get (ownerId projectile) (players st') = Some shooter' /\
       kills shooter' = kills shooter + 1 /\
       score shooter' = score shooter + 100) /\
  (get (ownerId projectile) (players st) = None ->
   get (ownerId projectile) (players st') = None) /\
  map fst (players st') = map fst (players st).
Proof.
  intros G Hl st' i. unfold st'.
  rewrite (handlePlayerHit_players k projectile st player G). cbv zeta.
  apply leb_true in Hl. rewrite Hl.
  destruct (applyDamage_frame (damage projectile) player)
    as (Fh & Fs & Fe & _ & Fd & Fk & Fsc & _).
  set (p1 := applyDamage (damage projectile) player) in *.
  set (p2 := respawned (canvas st) (randomIx st + 24) p1).
  set (m := set k p2 (players st)).
  assert (Gk : get k m = Some p2) by apply get_set_same.
  assert (Km : map fst m = map fst (players st)) by exact (keys_set_present k p2 player _ G).
  destruct (String.eqb (ownerId projectile) k) eqn:Eo.
  - apply String.eqb_eq in Eo. rewrite Eo, Gk, G, get_set_same.
    repeat split.
    + exists (credited p2). repeat split; simpl; congruence.
    + intros shooter [= <-]. exists (credited p2). repeat split; simpl; congruence.
    + discriminate.
    + rewrite (keys_set_present k (credited p2) p2 _ Gk). exact Km.
  - apply String.eqb_neq in Eo.
    assert (Go : get (ownerId projectile) m = get (ownerId projectile) (players st))
      by (apply get_set_other; exact Eo).
    rewrite Go.
    destruct (get (ownerId projectile) (players st)) as [shooter |] eqn:Gs.
    + repeat split.
      * exists p2. split; [| repeat split; simpl; congruence].
        rewrite get_set_other; [exact Gk | congruence].
      * intros shooter0 [= <-]. exists (credited shooter).
        split; [apply get_set_same | split; reflexivity].
      * discriminate.
      * rewrite (keys_set_present (ownerId projectile) (credited shooter) shooter m);
          [exact Km | now rewrite Go].
    + repeat split.
      * exists p2. split; [exact Gk | repeat split; simpl; congruence].
      * discriminate.
      * intros _. exact Go.
      * exact Km.
Qed.

Lemma handleShooting_fires dateNow st player :
  get (localPlayerId st) (players st) = Some player ->
  (0 <? weaponCooldown player) = false ->
  (energy player <? 10) = false ->
  handleShooting dateNow st =
    addMuzzleFlashParticles (afterShot player)
      (withPlayers (set (localPlayerId st) (afterShot player) (players st))
         (pushProjectile (shot dateNow st player) (drawn 1 st))).
Proof.
  intros G Ew Ee. unfold handleShooting. rewrite G, Ew, Ee. reflexivity.
Qed.

Lemma handleShooting_blocked dateNow st player :
  get (localPlayerId st) (players st) = Some player ->
  (0 <? weaponCooldown player) || (energy player <? 10) = true ->
  handleShooting dateNow st = st.
Proof.
  intros G B. unfold handleShooting. now rewrite G, B.
Qed.

(** ** The per-player update of a tick *)

(** When the local player is in the store, [updatePlayers] leaves at each
    key the [updatePlayer] of what input handling left there. *)
Lemma updatePlayers_each dt dateNow st k p' :
  get (localPlayerId st) (players st) <> None ->
  In (k, p') (players (updatePlayers dt dateNow st)) ->
  exists p,
    In (k, p) (players (handlePlayerInput (localPlayerId st) dt dateNow st)) /\
    p' = updatePlayer
           (canvas (handlePlayerInput (localPlayerId st) dt dateNow st)) dt p.
Proof.
  intros L Hin. unfold updatePlayers in Hin.
  destruct (get (localPlayerId st) (players st)) as [l |]; [| now contradiction L].
  simpl in Hin. unfold forEachPlayer in Hin. apply in_map_iff in Hin.
  destruct Hin as ([k0 q] & [= <- <-] & Hin). now exists q.
Qed.

(** When it is not, [updatePlayers] does nothing. *)
Lemma updatePlayers_without_local dt dateNow st :
  get (localPlayerId st) (players st) = None -> updatePlayers dt dateNow st = st.
Proof.
  intro L. unfold updatePlayers. now rewrite L.
Qed.

(** What the wrap, the regeneration and the cooldowns leave alone. *)
Lemma wrapAround_frame c p :
  velocity (wrapAround c p) = velocity p /\
  shield (wrapAround c p) = shield p /\ maxShield (wrapAround c p) = maxShield p /\
  energy (wrapAround c p) = energy p /\ maxEnergy (wrapAround c p) = maxEnergy p /\
  weaponCooldown (wrapAround c p) = weaponCooldown p /\
  boostCooldown (wrapAround c p) = boostCooldown p.
Proof.
  unfold wrapAround.
  repeat match goal with
  | |- context [if ?b then _ else _] => destruct b
  end; simpl; repeat split; reflexivity.
Qed.

Lemma regenerate_frame dt p :
  velocity (regenerate dt p) = velocity p /\
  weaponCooldown (regenerate dt p) = weaponCooldown p /\
  boostCooldown (regenerate dt p) = boostCooldown p.
Proof.
  unfold regenerate.
  destruct (shield p <? maxShield p); simpl;
    match goal with
    | |- context [if ?b then _ else _] => destruct b
    end; simpl; repeat split; reflexivity.
Qed.

Lemma updateCooldowns_frame dt p :
  velocity (updateCooldowns dt p) = velocity p /\
  shield (updateCooldowns dt p) = shield p /\
  energy (updateCooldowns dt p) = energy p.
Proof.
  unfold updateCooldowns.
  destruct (0 <? weaponCooldown p); simpl;
    match goal with
    | |- context [if ?b then _ else _] => destruct b
    end; simpl; repeat split; reflexivity.
Qed.

(** The cooldowns after [updatePlayer]. *)
Lemma updatePlayer_cooldowns c dt p :
  weaponCooldown (updatePlayer c dt p) =
    (if 0 <? weaponCooldown p then weaponCooldown p - dt else weaponCooldown p) /\
  boostCooldown (updatePlayer c dt p) =
    (if 0 <? boostCooldown p then boostCooldown p - dt else boostCooldown p).
Proof.
  unfold updatePlayer.
  set (q := regenerate dt (wrapAround c (applyDrag (applyPhysics dt p)))).
  assert (Hw : weaponCooldown q = weaponCooldown p).
  { unfold q. destruct (regenerate_frame dt (wrapAround c (applyDrag (applyPhysics dt p))))
      as (_ & -> & _).
    now destruct (wrapAround_frame c (applyDrag (applyPhysics dt p)))
      as (_ & _ & _ & _ & _ & -> & _). }
  assert (Hb : boostCooldown q = boostCooldown p).
  { unfold q. destruct (regenerate_frame dt (wrapAround c (applyDrag (applyPhysics dt p))))
      as (_ & _ & ->).
    now destruct (wrapAround_frame c (applyDrag (applyPhysics dt p)))
      as (_ & _ & _ & _ & _ & _ & ->). }
  clearbody q. unfold updateCooldowns. rewrite <- Hw, <- Hb.
  destruct (0 <? weaponCooldown q); simpl;
    destruct (0 <? boostCooldown q); simpl; split; reflexivity.
Qed.

(** The shield and the energy after [updatePlayer]. *)
Lemma updatePlayer_regenerates c dt p :
  shield (updatePlayer c dt p) =
    (if shield p <? maxShield p
     then Qmin (maxShield p) (shield p + 10 * dt) else shield p) /\
  energy (updatePlayer c dt p) =
    (if energy p <? maxEnergy p
     then Qmin (maxEnergy p) (energy p + 20 * dt) else energy p).
Proof.
  unfold updatePlayer.
  destruct (updateCooldowns_frame dt
              (regenerate dt (wrapAround c (applyDrag (applyPhysics dt p)))))
    as (_ & -> & ->).
  destruct (wrapAround_frame c (applyDrag (applyPhysics dt p)))
    as (_ & Hs & Hms & He & Hme & _).
  set (q := wrapAround c (applyDrag (applyPhysics dt p))) in *.
  change (shield p) with (shield (applyDrag (applyPhysics dt p))).
  change (maxShield p) with (maxShield (applyDrag (applyPhysics dt p))).
  change (energy p) with (energy (applyDrag (applyPhysics dt p))).
  change (maxEnergy p) with (maxEnergy (applyDrag (applyPhysics dt p))).
  rewrite <- Hs, <- Hms, <- He, <- Hme. clearbody q.
  unfold regenerate.
  destruct (shield q <? maxShield q); simpl;
    destruct (energy q <? maxEnergy q); simpl; split; reflexivity.
Qed.

(** The velocity after [updatePlayer]: the drag, once. *)
Lemma updatePlayer_velocity c dt p :
  velocity (updatePlayer c dt p) =
    mkVector2D (x (velocity p) * 0.98) (y (velocity p) * 0.98).
Proof.
  unfold updatePlayer.
  destruct (updateCooldowns_frame dt
              (regenerate dt (wrapAround c (applyDrag (applyPhysics dt p)))))
    as (-> & _).
  destruct (regenerate_frame dt (wrapAround c (applyDrag (applyPhysics dt p))))
    as (-> & _).
  destruct (wrapAround_frame c (applyDrag (applyPhysics dt p))) as (-> & _).
  reflexivity.
Qed.

Lemma In_set_other k k' v p m : k' <> k -> In (k', p) (set k v m) -> In (k', p) m.
Proof.
  intro N. induction m as [| [k0 p0] m IH]; simpl.
  - intros [[= -> ->] | []]. now contradiction N.
  - destruct (String.eqb k k0) eqn:E; simpl.
    + intros [[= -> ->] | H]; [now contradiction N | now right].
    + intros [H | H]; [now left | right; now apply IH].
Qed.

(** [handleShooting] writes to the local player only. *)
Lemma handleShooting_others dateNow st k p :
  k <> localPlayerId st ->
  In (k, p) (players (handleShooting dateNow st)) -> In (k, p) (players st).
Proof.
  intros N. unfold handleShooting.
  destruct (get (localPlayerId st) (players st)) as [l |]; [| auto].
  destruct ((0 <? weaponCooldown l) || (energy l <? 10)); [auto |].
  rewrite (effectsOnly_players _ _ (effectsOnly_muzzle _ _)). simpl.
  now apply In_set_other.
Qed.

(** [handlePlayerInput] for the local player writes to the local player
    only. *)
Lemma handlePlayerInput_others dt dateNow st k p :
  k <> localPlayerId st ->
  In (k, p) (players (handlePlayerInput (localPlayerId st) dt dateNow st)) ->
  In (k, p) (players st).
Proof.
  intros N. unfold handlePlayerInput.
  destruct (get (localPlayerId st) (players st)) as [l |]; [| auto].
  assert (E : effectsOnly st (snd (movementAndBoost l dt st))).
  { unfold movementAndBoost.
    destruct (movementKeys_spec l dt st) as (E1 & _).
    destruct (movementKeys l dt st) as [q st1]; simpl in E1.
    destruct (canBoost (keys st1) q); simpl; [| exact E1].
    eapply effectsOnly_trans; [exact E1 | apply effectsOnly_boost]. }
  destruct (movementAndBoost l dt st) as [p1 st1]; simpl in E.
  set (st2 := withPlayers (set (localPlayerId st) p1 (players st1)) st1).
  assert (L2 : localPlayerId st2 = localPlayerId st)
    by exact (effectsOnly_localPlayerId _ _ E).
  assert (H2 : In (k, p) (players st2) -> In (k, p) (players st)).
  { simpl. intro H. apply In_set_other in H; [| exact N].
    now rewrite (effectsOnly_players _ _ E) in H. }
  set (st3 := if Mouse.pressed (mouse st2) then handleShooting dateNow st2 else st2).
  assert (H3 : In (k, p) (players st3) -> In (k, p) (players st)).
  { unfold st3. destruct (Mouse.pressed (mouse st2)); [| exact H2].
    intro H. apply H2. apply handleShooting_others with dateNow; [now rewrite L2 | exact H]. }
  clearbody st3.
  destruct (get (localPlayerId st) (players st3)); [| exact H3].
  simpl. intro H. apply H3. now apply In_set_other in H.
Qed.

(** C6 (as amended).  In a tick in which the local player is in the
    store, the cooldown update takes [deltaTime] from a [weaponCooldown]
    or [boostCooldown] that is positive and leaves one that is not as it
    is.  Nothing clamps the difference: it may be negative.  [p] is the
    player as the tick's input handling left it. *)
Theorem cooldowns_decrease_unclamped
    (dt dateNow : Q) (st : GameEngine) (k : string) (p' : Player) :
  get (localPlayerId st) (players st) <> None ->
  In (k, p') (players (updatePlayers dt dateNow st)) ->
  exists p,
    In (k, p) (players (handlePlayerInput (localPlayerId st) dt dateNow st)) /\
    (0 < weaponCooldown p -> weaponCooldown p' = weaponCooldown p - dt) /\
    (weaponCooldown p <= 0 -> weaponCooldown p' = weaponCooldown p) /\
    (0 < boostCooldown p -> boostCooldown p' = boostCooldown p - dt) /\
    (boostCooldown p <= 0 -> boostCooldown p' = boostCooldown p).
Proof.
  intros L Hin.
  destruct (updatePlayers_each dt dateNow st k p' L Hin) as (p & Hp & ->).
  exists p. split; [exact Hp |].
  destruct (updatePlayer_cooldowns
              (canvas (handlePlayerInput (localPlayerId st) dt dateNow st)) dt p)
    as [-> ->].
  split; [| split; [| split]].
  - intro H. now rewrite (proj2 (ltb_true _ _) H).
  - intro H. now rewrite (proj2 (ltb_false _ _) H).
  - intro H. now rewrite (proj2 (ltb_true _ _) H).
  - intro H. now rewrite (proj2 (ltb_false _ _) H).
Qed.

(** C10 (as amended).  In a tick in which the local player is in the
    store, every player in the store regenerates: a shield below
    [maxShield] grows by [10 * deltaTime], clamped to [maxShield], and an
    energy below [maxEnergy] grows by [20 * deltaTime], clamped to
    [maxEnergy].  [p] is the player as the tick's input handling left it,
    which for every player but the local one is the player as the tick
    found it. *)
Theorem all_players_regenerate
    (dt dateNow : Q) (st : GameEngine) (k : string) (p' : Player) :
  get (localPlayerId st) (players st) <> None ->
  In (k, p') (players (updatePlayers dt dateNow st)) ->
  exists p,
    In (k, p) (players (handlePlayerInput (localPlayerId st) dt dateNow st)) /\
    (k <> localPlayerId st -> In (k, p) (players st)) /\
    shield p' =
      (if shield p <? maxShield p
       then Qmin (maxShield p) (shield p + 10 * dt) else shield p) /\
    energy p' =
      (if energy p <? maxEnergy p
       then Qmin (maxEnergy p) (energy p + 20 * dt) else energy p).
Proof.
  intros L Hin.
  destruct (updatePlayers_each dt dateNow st k p' L Hin) as (p & Hp & ->).
  exists p. split; [exact Hp |]. split.
  - intro N. now apply handlePlayerInput_others with dt dateNow.
  - apply updatePlayer_regenerates.
Qed.

Lemma effectsOnly_movementAndBoost p dt st :
  effectsOnly st (snd (movementAndBoost p dt st)).
Proof.
  unfold movementAndBoost.
  destruct (movementKeys_spec p dt st) as (E1 & _).
  destruct (movementKeys p dt st) as [q st1]; simpl in E1.
  destruct (canBoost (keys st1) q); simpl; [| exact E1].
  eapply effectsOnly_trans; [exact E1 | apply effectsOnly_boost].
Qed.

(** The player the key-driven part of input handling leaves: the one the
    movement keys left, boosted when the boost condition holds. *)
Lemma movementAndBoost_fst player dt st :
  fst (movementAndBoost player dt st) =
    if has "Space" (keys st) && (20 <? energy player) && (boostCooldown player <=? 0)
    then boost dt (fst (movementKeys player dt st))
    else fst (movementKeys player dt st).
Proof.
  unfold movementAndBoost.
  destruct (movementKeys_spec player dt st) as (E1 & _ & He & Hb & _).
  destruct (movementKeys player dt st) as [q st1]; simpl in E1, He, Hb.
  unfold canBoost. rewrite (effectsOnly_keys _ _ E1), He, Hb. cbn [fst].
  now destruct (has "Space" (keys st) && (20 <? energy player)
                && (boostCooldown player <=? 0)).
Qed.

(** The local player after input handling: [p1] is the player after the
    key-driven part, and the shot of the same call, if any, takes 10 from
    its energy and sets its weapon cooldown. *)
Lemma handlePlayerInput_local dt dateNow st player :
  get (localPlayerId st) (players st) = Some player ->
  let p1 := fst (movementAndBoost player dt st) in
  let fires :=
    Mouse.pressed (mouse st) && ((weaponCooldown p1 <=? 0) && (10 <=? energy p1)) in
  exists p',
    get (localPlayerId st)
        (players (handlePlayerInput (localPlayerId st) dt dateNow st)) = Some p' /\
    velocity p' = velocity p1 /\
    boostCooldown p' = boostCooldown p1 /\
    energy p' = (if fires then energy p1 - 10 else energy p1) /\
    weaponCooldown p' = (if fires then 0.2 else weaponCooldown p1) /\
    (fires = false ->
     projectiles (handlePlayerInput (localPlayerId st) dt dateNow st) = projectiles st).
Proof.
  intros G. cbv zeta. unfold handlePlayerInput. rewrite G.
  pose proof (effectsOnly_movementAndBoost player dt st) as E.
  destruct (movementAndBoost player dt st) as [p1 st1]; cbn [fst snd] in *.
  cbv beta iota zeta.
  set (st2 := withPlayers (set (localPlayerId st) p1 (players st1)) st1).
  assert (L2 : localPlayerId st2 = localPlayerId st)
    by exact (effectsOnly_localPlayerId _ _ E).
  assert (M2 : mouse st2 = mouse st) by exact (effectsOnly_mouse _ _ E).
  assert (P2 : projectiles st2 = projectiles st)
    by exact (effectsOnly_projectiles _ _ E).
  assert (G2 : get (localPlayerId st2) (players st2) = Some p1)
    by (rewrite L2; apply get_set_same).
  clearbody st2. rewrite M2. unfold leb.
  destruct (Mouse.pressed (mouse st)); cbn [andb].
  2: { rewrite <- L2, G2. cbn [players withPlayers projectiles]. rewrite get_set_same.
       eexists. split; [reflexivity |]. cbn. repeat split. intros _. exact P2. }
  destruct ((0 <? weaponCooldown p1) || (energy p1 <? 10)) eqn:B.
  - rewrite (handleShooting_blocked dateNow st2 p1 G2 B).
    rewrite <- negb_orb, B. cbn [negb].
    rewrite <- L2, G2. cbn [players withPlayers projectiles]. rewrite get_set_same.
    eexists. split; [reflexivity |]. cbn. repeat split. intros _. exact P2.
  - rewrite <- negb_orb, B. cbn [negb].
    apply orb_false_iff in B. destruct B as [Ew Ee].
    rewrite (handleShooting_fires dateNow st2 p1 G2 Ew Ee).
    match goal with
    | |- context [addMuzzleFlashParticles ?p ?s] =>
      pose proof (effectsOnly_muzzle p s) as E3
    end.
    rewrite (effectsOnly_mouse _ _ E3), (effectsOnly_players _ _ E3).
    cbn [players withPlayers]. rewrite <- L2, get_set_same.
    cbn [players withPlayers]. rewrite get_set_same.
    eexists. split; [reflexivity |]. cbn. repeat split. intro H. discriminate H.
Qed.

(** C7 (as amended).  For the local player, with [Space] held, an energy
    above 20 and a boost cooldown that is not positive, the boost takes
    exactly 20 from the energy, sets [boostCooldown] to 1 and adds to the
    velocity [10 * deltaTime] along the heading: the impulse is
    proportional to [deltaTime].  Otherwise the boost changes nothing.
    [q] is the player after the movement keys of the same call, which
    change neither the energy nor the cooldowns, and [p1] the player
    after the boost branch; a shot in the same call, which happens when
    the mouse button is held and the weapon is ready, takes a further 10
    from the energy the boost left. *)
Theorem boost_impulse_scales_with_deltaTime
    (dt dateNow : Q) (st : GameEngine) (player : Player) :
  get (localPlayerId st) (players st) = Some player ->
  let q := fst (movementKeys player dt st) in
  let p1 := fst (movementAndBoost player dt st) in
  let fires (e : Q) :=
    Mouse.pressed (mouse st) && ((weaponCooldown player <=? 0) && (10 <=? e)) in
  exists p',
    get (localPlayerId st)
        (players (handlePlayerInput (localPlayerId st) dt dateNow st)) = Some p' /\
    if has "Space" (keys st) && (20 <? energy player) && (boostCooldown player <=? 0)
    then
      energy p1 = energy player - 20 /\
      boostCooldown p1 = 1 /\
      velocity p1 =
        mkVector2D (x (velocity q) + cos (rotation q) * 10 * dt)
                   (y (velocity q) + sin (rotation q) * 10 * dt) /\
      boostCooldown p' = 1 /\
      velocity p' = velocity p1 /\
      energy p' =
        (if fires (energy player - 20) then energy player - 20 - 10 else energy player - 20)
    else
      p1 = q /\
      boostCooldown p' = boostCooldown player /\
      velocity p' = velocity q /\
      energy p' = (if fires (energy player) then energy player - 10 else energy player).
Proof.
  intros G. cbv zeta.
  destruct (handlePlayerInput_local dt dateNow st player G) as (p' & Gp & V & B & En & _).
  exists p'. split; [exact Gp |].
  rewrite V, B, En. clear V B En Gp.
  rewrite (movementAndBoost_fst player dt st).
  destruct (movementKeys_spec player dt st) as (_ & _ & He & Hb & Hw & _).
  cbv zeta in He, Hb, Hw.
  set (q := fst (movementKeys player dt st)) in *. clearbody q.
  destruct (has "Space" (keys st) && (20 <? energy player) && (boostCooldown player <=? 0)).
  - assert (W : weaponCooldown (boost dt q) = weaponCooldown player) by exact Hw.
    assert (E : energy (boost dt q) = energy player - 20)
      by (cbn; now rewrite He).
    rewrite W, E. repeat split.
  - rewrite Hw, He, Hb. repeat split.
Qed.

(** ** What a tick does to the asteroids *)

Lemma fieldIs_effectsOnly A c st st' : effectsOnly st st' -> fieldIs A c st -> fieldIs A c st'.
Proof.
  intros E [Ha Hc]. split.
  - now rewrite (effectsOnly_asteroids _ _ E).
  - now rewrite (effectsOnly_canvas _ _ E).
Qed.

Lemma fieldIs_handleShooting A c dateNow st :
  fieldIs A c st -> fieldIs A c (handleShooting dateNow st).
Proof.
  intro H. unfold handleShooting.
  destruct (get (localPlayerId st) (players st)) as [l |]; [| exact H].
  destruct ((0 <? weaponCooldown l) || (energy l <? 10)); [exact H |].
  eapply fieldIs_effectsOnly; [apply effectsOnly_muzzle | exact H].
Qed.

Lemma fieldIs_handlePlayerInput A c k dt dateNow st :
  fieldIs A c st -> fieldIs A c (handlePlayerInput k dt dateNow st).
Proof.
  intro H. unfold handlePlayerInput.
  destruct (get k (players st)) as [l |]; [| exact H].
  assert (E : effectsOnly st (snd (movementAndBoost l dt st))).
  { unfold movementAndBoost.
    destruct (movementKeys_spec l dt st) as (E1 & _).
    destruct (movementKeys l dt st) as [q st1]; simpl in E1.
    destruct (canBoost (keys st1) q); simpl; [| exact E1].
    eapply effectsOnly_trans; [exact E1 | apply effectsOnly_boost]. }
  destruct (movementAndBoost l dt st) as [p1 st1]; simpl in E.
  set (st2 := withPlayers (set k p1 (players st1)) st1).
  assert (H2 : fieldIs A c st2) by exact (fieldIs_effectsOnly A c st st1 E H).
  clearbody st2.
  set (st3 := if Mouse.pressed (mouse st2) then handleShooting dateNow st2 else st2).
  assert (H3 : fieldIs A c st3).
  { unfold st3. destruct (Mouse.pressed (mouse st2)); auto using fieldIs_handleShooting. }
  clearbody st3.
  destruct (get k (players st3)); exact H3.
Qed.

Lemma fieldIs_updatePlayers A c dt dateNow st :
  fieldIs A c st -> fieldIs A c (updatePlayers dt dateNow st).
Proof.
  intro H. unfold updatePlayers.
  destruct (get (localPlayerId st) (players st)); [| exact H].
  exact (fieldIs_handlePlayerInput A c (localPlayerId st) dt dateNow st H).
Qed.

Lemma fieldIs_updatePowerUps A c dt st :
  fieldIs A c st -> fieldIs A c (updatePowerUps dt st).
Proof.
  intro H. unfold updatePowerUps.
  assert (E : effectsOnly st (snd (updatePowerUpsFrom dt (powerUps st) st))).
  { generalize (powerUps st) as l. intro l. generalize st as s.
    induction l as [| pu l IH]; intro s; simpl; [apply effectsOnly_refl |].
    destruct (updatePowerUp_spec dt pu s) as [_ E].
    destruct (updatePowerUp dt pu s) as [pu' s']; simpl in E.
    specialize (IH s').
    destruct (updatePowerUpsFrom dt l s') as [l' s'']; simpl in *.
    eapply effectsOnly_trans; eauto. }
  destruct (updatePowerUpsFrom dt (powerUps st) st) as [l st']; simpl in E.
  exact (fieldIs_effectsOnly A c st st' E H).
Qed.

Lemma fieldIs_handlePlayerHit A c k pr st :
  fieldIs A c st -> fieldIs A c (handlePlayerHit k pr st).
Proof.
  intro H. unfold handlePlayerHit.
  destruct (get k (players st)) as [p |]; [| exact H].
  set (p1 := applyDamage (damage pr) p).
  set (st1 := addHitParticles (position p1) (withPlayers (set k p1 (players st)) st)).
  assert (H1 : fieldIs A c st1).
  { eapply fieldIs_effectsOnly; [apply effectsOnly_hit | exact H]. }
  clearbody st1.
  destruct (health p1 <=? 0); [| exact H1].
  unfold handlePlayerDestroyed.
  destruct (get k (players st1)) as [v |]; [| exact H1].
  eapply fieldIs_effectsOnly; [apply effectsOnly_explosion |].
  match goal with
  | |- fieldIs A c (match get _ (players ?s) with _ => _ end) =>
    destruct (get (ownerId pr) (players s))
  end; exact H1.
Qed.

Lemma fieldIs_handlePowerUpCollection A c k i st :
  fieldIs A c st -> fieldIs A c (handlePowerUpCollection k i st).
Proof.
  intro H. unfold handlePowerUpCollection.
  destruct (get k (players st)) as [p |]; [| exact H].
  destruct (nth_error (powerUps st) i) as [pu |]; [| exact H].
  eapply fieldIs_effectsOnly; [apply effectsOnly_collection | exact H].
Qed.

Lemma fieldIs_withProjectiles A c l st :
  fieldIs A c st -> fieldIs A c (withProjectiles l st).
Proof. intros [Ha Hc]. now split. Qed.

Lemma fieldIs_checkCollisions A c st :
  fieldIs A c st -> fieldIs A c (checkCollisions st).
Proof.
  intro H. unfold checkCollisions, forEachProjectile.
  apply forEachProjectileFrom_preserves.
  - intros pr j s Hs _. unfold projectileVsAsteroids.
    apply fold_left_preserves; [| exact Hs].
    intros a s' Hs'. destruct (distanceLt _ _ _); [| exact Hs'].
    apply fieldIs_withProjectiles.
    exact (fieldIs_effectsOnly A c s' _ (effectsOnly_explosion _ _ s') Hs').
  - apply fold_left_preserves; [| exact H].
    intros k s Hs. unfold playerCollisions.
    apply forLoop_preserves.
    + intros i s' Hs'. unfold playerVsPowerUp.
      destruct (get k (players s')); [| exact Hs'].
      destruct (nth_error (powerUps s') i) as [pu |]; [| exact Hs'].
      destruct (negb (active pu)); [exact Hs' |].
      destruct (distanceLt _ _ _); [| exact Hs'].
      now apply fieldIs_handlePowerUpCollection.
    + unfold forEachProjectile. apply forEachProjectileFrom_preserves; [| exact Hs].
      intros pr j s' Hs' _. unfold playerVsProjectile.
      destruct (get k (players s')) as [p |]; [| exact Hs'].
      destruct (String.eqb _ _); [exact Hs' |].
      destruct (distanceLt _ _ _); [| exact Hs'].
      apply fieldIs_withProjectiles.
      exact (fieldIs_handlePlayerHit A c k pr s' Hs').
Qed.

(** The asteroids after a tick. *)
Lemma asteroids_update now dateNow st :
  asteroids (update now dateNow st) =
    map (updateAsteroid (canvas st) ((now - lastUpdate st) / 1000)) (asteroids st).
Proof.
  unfold update.
  set (dt := (now - lastUpdate st) / 1000).
  set (st1 := updatePowerUps dt (updateProjectiles dt (updatePlayers dt dateNow _))).
  assert (H1 : fieldIs (asteroids st) (canvas st) st1).
  { unfold st1. apply fieldIs_updatePowerUps.
    apply (fieldIs_updatePlayers (asteroids st) (canvas st) dt dateNow
             (withGameTime (gameTime (withLastUpdate now st) + dt) (withLastUpdate now st))).
    now split. }
  clearbody st1. destruct H1 as [Ha Hc].
  apply (fieldIs_checkCollisions _ (canvas st1)
           (updateParticles dt (updateAsteroids dt st1))).
  split; simpl; [| reflexivity]. now rewrite Ha, Hc.
Qed.

Lemma ltb_irrefl a : (a <? a) = false.
Proof. apply ltb_false. apply Qle_refl. Qed.

Lemma updateAsteroid_spec c dt a :
  velocity (updateAsteroid c dt a) = velocity a /\
  x (position (updateAsteroid c dt a)) =
    wrapped (width c) (size a) (x (position a) + x (velocity a) * dt * 60) /\
  y (position (updateAsteroid c dt a)) =
    wrapped (height c) (size a) (y (position a) + y (velocity a) * dt * 60).
Proof.
  unfold updateAsteroid, wrapped. simpl.
  destruct (x (position a) + x (velocity a) * dt * 60 <? - size a); simpl.
  - rewrite ltb_irrefl; simpl.
    destruct (y (position a) + y (velocity a) * dt * 60 <? - size a); simpl.
    + rewrite ltb_irrefl; simpl. repeat split.
    + destruct (height c + size a <? y (position a) + y (velocity a) * dt * 60);
        simpl; repeat split.
  - destruct (width c + size a <? x (position a) + x (velocity a) * dt * 60); simpl.
    + destruct (y (position a) + y (velocity a) * dt * 60 <? - size a); simpl.
      * rewrite ltb_irrefl; simpl. repeat split.
      * destruct (height c + size a <? y (position a) + y (velocity a) * dt * 60);
          simpl; repeat split.
    + destruct (y (position a) + y (velocity a) * dt * 60 <? - size a); simpl.
      * rewrite ltb_irrefl; simpl. repeat split.
      * destruct (height c + size a <? y (position a) + y (velocity a) * dt * 60);
          simpl; repeat split.
Qed.

(** ** Reset *)

(** [generatePowerUps] appends eight power-ups, with the ids
    [powerup_0] to [powerup_7], to the ones there are and leaves the other
    collections alone. *)
Lemma generatePowerUps_spec st :
  players (generatePowerUps st) = players st /\
  projectiles (generatePowerUps st) = projectiles st /\
  particles (generatePowerUps st) = particles st /\
  asteroids (generatePowerUps st) = asteroids st /\
  gameTime (generatePowerUps st) = gameTime st /\
  exists added,
    map (fun pu : PowerUp => id pu) added = map PowerUpId (seq 0 8) /\
    powerUps (generatePowerUps st) = (powerUps st ++ added)%list.
Proof.
  unfold generatePowerUps.
  apply (forLoop_counts
           (fun i s =>
              players s = players st /\ projectiles s = projectiles st /\
              particles s = particles st /\ asteroids s = asteroids st /\
              gameTime s = gameTime st /\
              exists added,
                map (fun pu : PowerUp => id pu) added = map PowerUpId (seq 0 i) /\
                powerUps s = (powerUps st ++ added)%list)).
  - intros i s (Hp & Hpr & Hpa & Ha & Hg & added & Hl & Hpu).
    repeat split; auto.
    eexists. split.
    2: { cbn [powerUps withPowerUps drawn withRandomIx]. rewrite Hpu, <- app_assoc.
         reflexivity. }
    rewrite map_app, Hl, seq_S, map_app. reflexivity.
  - repeat split. exists []. split; [reflexivity |]. now rewrite app_nil_r.
Qed.

Lemma powerUps_generateAsteroids st : powerUps (generateAsteroids st) = powerUps st.
Proof.
  unfold generateAsteroids.
  apply (forLoop_preserves (fun s => powerUps s = powerUps st)); auto.
Qed.

Lemma resetGame_spec st :
  projectiles (resetGame st) = [] /\
  particles (resetGame st) = [] /\
  gameTime (resetGame st) = 0 /\
  asteroids (resetGame st) = asteroids st /\
  exists added,
    map (fun pu : PowerUp => id pu) added = map PowerUpId (seq 0 8) /\
    powerUps (resetGame st) = (powerUps st ++ added)%list.
Proof.
  unfold resetGame. cbv zeta.
  set (s := withGameTime 0 (withParticles [] (withProjectiles [] (withPlayers [] st)))).
  destruct (generatePowerUps_spec s) as (_ & Hpr & Hpa & Ha & Hg & added & Hl & Hpu).
  rewrite Hpr, Hpa, Hg, Ha.
  repeat split. exists added. split; [exact Hl | exact Hpu].
Qed.

Lemma powerUps_constructor c :
  map (fun pu : PowerUp => id pu) (powerUps (constructor c)) = map PowerUpId (seq 0 8).
Proof.
  unfold constructor.
  destruct (generatePowerUps_spec (generateAsteroids (emptyEngine c)))
    as (_ & _ & _ & _ & _ & added & Hl & Hpu).
  rewrite Hpu, powerUps_generateAsteroids.
  change (powerUps (emptyEngine c)) with (@nil PowerUp). exact Hl.
Qed.

(** C9.  [resetGame] empties the projectiles and the particles, sets the
    elapsed time to 0 and keeps the asteroids, but it appends eight new
    power-ups to those already there: an engine has 8 power-ups when it
    is built and 16 after its first reset, two for each of the ids
    [powerup_0] to [powerup_7]. *)
Theorem resetGame_accumulates_powerUps (st : GameEngine) :
  projectiles (resetGame st) = [] /\
  particles (resetGame st) = [] /\
  gameTime (resetGame st) = 0 /\
  asteroids (resetGame st) = asteroids st /\
  (exists added,
     List.length added = 8%nat /\
     powerUps (resetGame st) = (powerUps st ++ added)%list) /\
  (forall c,
     List.length (powerUps (constructor c)) = 8%nat /\
     List.length (powerUps (resetGame (constructor c))) = 16%nat /\
     map (fun pu : PowerUp => id pu) (powerUps (resetGame (constructor c)))
       = (map PowerUpId (seq 0 8) ++ map PowerUpId (seq 0 8))%list).
Proof.
  destruct (resetGame_spec st) as (Hpr & Hpa & Hg & Ha & added & Hl & Hpu).
  split; [exact Hpr | split; [exact Hpa | split; [exact Hg | split; [exact Ha |]]]].
  split.
  - exists added. split; [| exact Hpu].
    rewrite <- (length_map (fun pu : PowerUp => id pu)), Hl. reflexivity.
  - intro c.
    destruct (resetGame_spec (constructor c)) as (_ & _ & _ & _ & added1 & Hl1 & E).
    assert (I : map (fun pu : PowerUp => id pu) (powerUps (resetGame (constructor c)))
                = (map PowerUpId (seq 0 8) ++ map PowerUpId (seq 0 8))%list).
    { rewrite E, map_app, Hl1, powerUps_constructor. reflexivity. }
    split; [| split; [| exact I]].
    + rewrite <- (length_map (fun pu : PowerUp => id pu)), powerUps_constructor.
      reflexivity.
    + rewrite <- (length_map (fun pu : PowerUp => id pu)), I. reflexivity.
Qed.

(** A timely run from a reachable state ends in a reachable state. *)
Lemma reachable_run c evs st :
  reachable c st -> timelyRun evs st -> reachable c (run evs st).
Proof.
  revert st. induction evs as [| ev evs IH]; intros st Hr Ht; simpl.
  - exact Hr.
  - destruct Ht as [Ht Hts]. apply IH; [| exact Hts].
    now apply reachable_step.
Qed.

(** ** The network boundary *)

(** X1.  Whatever the message, [handleNetworkUpdate] leaves the local
    player as it is, adds no key to the store and removes none, and
    writes to no field of the engine but [players]. *)
Theorem network_update_spares_local_player (data : NetworkData.t) (st : GameEngine) :
  get (localPlayerId st) (players (handleNetworkUpdate data st))
    = get (localPlayerId st) (players st) /\
  map fst (players (handleNetworkUpdate data st)) = map fst (players st) /\
  handleNetworkUpdate data st = withPlayers (players (handleNetworkUpdate data st)) st.
Proof.
  unfold handleNetworkUpdate.
  destruct (String.eqb (NetworkData.type data) "playerUpdate"); cbn [andb];
    [| now destruct st].
  destruct (String.eqb (NetworkData.playerId data) (localPlayerId st)) eqn:E; cbn [negb];
    [now destruct st |].
  destruct (get (NetworkData.playerId data) (players st)) as [p |] eqn:G;
    [| now destruct st].
  apply String.eqb_neq in E.
  cbn [players withPlayers]. split; [| split].
  - apply get_set_other. congruence.
  - now apply keys_set_present with p.
  - reflexivity.
Qed.

(** X2.  A message that is not a [playerUpdate], that names the local
    player, or that names a player who is not in the store changes
    nothing. *)
Theorem network_update_ignored (data : NetworkData.t) (st : GameEngine) :
  NetworkData.type data <> "playerUpdate" \/
  NetworkData.playerId data = localPlayerId st \/
  get (NetworkData.playerId data) (players st) = None ->
  handleNetworkUpdate data st = st.
Proof.
  unfold handleNetworkUpdate. intros [H | [H | H]].
  - apply String.eqb_neq in H. now rewrite H.
  - apply String.eqb_eq in H. rewrite H. now rewrite andb_false_r.
  - rewrite H. now destruct (_ && _).
Qed.

(** X3.  A player after [handleNetworkUpdate] is a player of before, at
    the same key, with the same score, kills, deaths, maxima, cooldowns,
    velocity and ids.  When the message is a [playerUpdate] that names
    another player than the local one and the key is the message's
    [playerId], the position, rotation, health, shield and energy of the
    player are the message's; in every other case it is the same player
    altogether. *)
Theorem network_update_writes_five_fields
    (data : NetworkData.t) (st : GameEngine) (k : string) (p' : Player) :
  get k (players (handleNetworkUpdate data st)) = Some p' ->
  exists p,
    get k (players st) = Some p /\
    (if String.eqb (NetworkData.type data) "playerUpdate"
        && negb (String.eqb (NetworkData.playerId data) (localPlayerId st))
        && String.eqb k (NetworkData.playerId data)
     then
       position p' = NetworkData.position data /\
       rotation p' = NetworkData.rotation data /\
       health p' = NetworkData.health data /\
       shield p' = NetworkData.shield data /\
       energy p' = NetworkData.energy data
     else p' = p) /\
    score p' = score p /\ kills p' = kills p /\ deaths p' = deaths p /\
    maxHealth p' = maxHealth p /\ maxShield p' = maxShield p /\
    maxEnergy p' = maxEnergy p /\
    weaponCooldown p' = weaponCooldown p /\ boostCooldown p' = boostCooldown p /\
    velocity p' = velocity p /\ playerId p' = playerId p /\ id p' = id p.
Proof.
  assert (Same : forall p0 : Player,
             score p0 = score p0 /\ kills p0 = kills p0 /\ deaths p0 = deaths p0 /\
             maxHealth p0 = maxHealth p0 /\ maxShield p0 = maxShield p0 /\
             maxEnergy p0 = maxEnergy p0 /\
             weaponCooldown p0 = weaponCooldown p0 /\
             boostCooldown p0 = boostCooldown p0 /\
             velocity p0 = velocity p0 /\ playerId p0 = playerId p0 /\ id p0 = id p0).
  { intro p0. repeat (split; [reflexivity |]). reflexivity. }
  unfold handleNetworkUpdate.
  destruct (String.eqb (NetworkData.type data) "playerUpdate"
            && negb (String.eqb (NetworkData.playerId data) (localPlayerId st))).
  2: { intro H. exists p'. split; [exact H |]. split; [reflexivity | apply Same]. }
  cbn [andb].
  destruct (String.eqb k (NetworkData.playerId data)) eqn:E.
  - apply String.eqb_eq in E. subst k.
    destruct (get (NetworkData.playerId data) (players st)) as [p |] eqn:G.
    2: { intro H. rewrite G in H. discriminate H. }
    cbn [players withPlayers]. rewrite get_set_same.
    intro H. assert (H' : p' = receive data p) by congruence. clear H. subst p'.
    exists p. split; [reflexivity |]. split.
    + repeat (split; [reflexivity |]). reflexivity.
    + exact (Same p).
  - apply String.eqb_neq in E.
    destruct (get (NetworkData.playerId data) (players st)) as [p |] eqn:G.
    2: { intro H. exists p'. split; [exact H |]. split; [reflexivity | apply Same]. }
    cbn [players withPlayers]. rewrite get_set_other by exact E.
    intro H. exists p'. split; [exact H |]. split; [reflexivity | apply Same].
Qed.

(** X4.  What one engine sends, another receives: when engine [A] sends
    its update and engine [B], whose local player is another, holds a
    player under [A]'s local id, that player takes the position,
    rotation, health, shield and energy of [A]'s local player. *)
Theorem network_round_trip (A B : GameEngine) (msg : NetworkData.t) (remote : Player) :
  sendNetworkUpdate A = Some msg ->
  localPlayerId A <> localPlayerId B ->
  get (localPlayerId A) (players B) = Some remote ->
  exists sender received,
    get (localPlayerId A) (players A) = Some sender /\
    get (localPlayerId A) (players (handleNetworkUpdate msg B)) = Some received /\
    position received = position sender /\
    rotation received = rotation sender /\
    health received = health sender /\
    shield received = shield sender /\
    energy received = energy sender.
Proof.
  unfold sendNetworkUpdate. intros S N G.
  destruct (get (localPlayerId A) (players A)) as [sender |]; [| discriminate].
  injection S as <-. exists sender.
  unfold handleNetworkUpdate. cbn [NetworkData.type NetworkData.playerId].
  apply String.eqb_neq in N. rewrite N, G. cbn [andb negb String.eqb Ascii.eqb Bool.eqb].
  cbn [players withPlayers]. rewrite get_set_same.
  eexists. split; [reflexivity |]. split; [reflexivity |]. repeat split.
Qed.

(** X5.  A message whose health, shield and energy are within the bounds
    of the player it names keeps every player within bounds. *)
Theorem network_update_keeps_bounds (data : NetworkData.t) (st : GameEngine) :
  playersBounded (players st) ->
  (forall p, get (NetworkData.playerId data) (players st) = Some p ->
             0 <= NetworkData.health data <= maxHealth p /\
             0 <= NetworkData.shield data <= maxShield p /\
             0 <= NetworkData.energy data <= maxEnergy p) ->
  playersBounded (players (handleNetworkUpdate data st)).
Proof.
  intros HB Hm. unfold handleNetworkUpdate.
  destruct (_ && _); [| exact HB].
  destruct (get (NetworkData.playerId data) (players st)) as [p |] eqn:G; [| exact HB].
  cbn [players withPlayers]. apply Forall_set; [exact HB |].
  exact (Hm p eq_refl).
Qed.

(** ** The keyboard *)

(** X6.  The set of pressed keys follows the events: after [keydown] a
    key is held if it is the one pressed or was held; after [keyup] it is
    held if it was held and is not the one released; a second [keydown]
    of a held key changes nothing; and neither event writes to any field
    but [keys]. *)
Theorem pressed_keys_follow_events (code c : string) (st : GameEngine) :
  has c (keys (keydown code st)) = String.eqb c code || has c (keys st) /\
  has c (keys (keyup code st)) = negb (String.eqb c code) && has c (keys st) /\
  keydown code (keydown code st) = keydown code st /\
  keydown code st = withKeys (keys (keydown code st)) st /\
  keyup code st = withKeys (keys (keyup code st)) st.
Proof.
  assert (Hadd : forall c' s, has c' (add code s) = String.eqb c' code || has c' s).
  { intros c' s. unfold add. destruct (has code s) eqn:H.
    - destruct (String.eqb c' code) eqn:E; [| reflexivity].
      apply String.eqb_eq in E. subst c'. now rewrite H.
    - unfold has. rewrite existsb_app. simpl. rewrite orb_false_r. apply orb_comm. }
  assert (Hdel : forall s, has c (delete code s) = negb (String.eqb c code) && has c s).
  { intro s. unfold has, delete. induction s as [| a s IH]; simpl.
    - now rewrite andb_false_r.
    - destruct (String.eqb code a) eqn:E; simpl.
      + apply String.eqb_eq in E. subst a. rewrite IH.
        destruct (String.eqb c code); reflexivity.
      + rewrite IH. destruct (String.eqb c a) eqn:Ea; simpl.
        * apply String.eqb_eq in Ea. subst a.
          rewrite String.eqb_sym in E. rewrite E. reflexivity.
        * reflexivity. }
  split; [apply Hadd | split; [apply Hdel | split; [| split; reflexivity]]].
  unfold keydown. cbn [keys withKeys].
  unfold add at 1. rewrite Hadd, String.eqb_refl. now destruct st.
Qed.

(** ** What the functions of a tick leave alone *)

Lemma combatOnly_refl st : combatOnly st st.
Proof. now destruct st. Qed.

Lemma combatOnly_trans st1 st2 st3 :
  combatOnly st1 st2 -> combatOnly st2 st3 -> combatOnly st1 st3.
Proof.
  unfold combatOnly. intros H12 H23. rewrite H23 at 1. rewrite H12 at 1.
  now destruct st1.
Qed.

Lemma effectsOnly_combatOnly st st' : effectsOnly st st' -> combatOnly st st'.
Proof.
  unfold effectsOnly, combatOnly. intro H. rewrite H at 1.
  rewrite (effectsOnly_players _ _ H), (effectsOnly_projectiles _ _ H).
  now destruct st.
Qed.

Lemma combatOnly_withPlayers m st : combatOnly st (withPlayers m st).
Proof. now destruct st. Qed.

Lemma combatOnly_withProjectiles l st : combatOnly st (withProjectiles l st).
Proof. now destruct st. Qed.

Lemma entitiesOnly_refl st : entitiesOnly st st.
Proof. now destruct st. Qed.

Lemma entitiesOnly_trans st1 st2 st3 :
  entitiesOnly st1 st2 -> entitiesOnly st2 st3 -> entitiesOnly st1 st3.
Proof.
  unfold entitiesOnly. intros H12 H23. rewrite H23 at 1. rewrite H12 at 1.
  now destruct st1.
Qed.

Lemma combatOnly_entitiesOnly st st' : combatOnly st st' -> entitiesOnly st st'.
Proof.
  unfold combatOnly, entitiesOnly. intro H. rewrite H at 1.
  assert (E : powerUps st' = powerUps st) by now rewrite H.
  rewrite E. now destruct st.
Qed.

Lemma combatOnly_powerUps st st' : combatOnly st st' -> powerUps st' = powerUps st.
Proof. intro H. now rewrite H. Qed.

Lemma combatOnly_handleShooting dateNow st : combatOnly st (handleShooting dateNow st).
Proof.
  unfold handleShooting.
  destruct (get (localPlayerId st) (players st)) as [l |]; [| apply combatOnly_refl].
  destruct ((0 <? weaponCooldown l) || (energy l <? 10)); [apply combatOnly_refl |].
  eapply combatOnly_trans; [| apply effectsOnly_combatOnly, effectsOnly_muzzle].
  now destruct st.
Qed.

Lemma combatOnly_handlePlayerInput k dt dateNow st :
  combatOnly st (handlePlayerInput k dt dateNow st).
Proof.
  unfold handlePlayerInput.
  destruct (get k (players st)) as [l |]; [| apply combatOnly_refl].
  assert (E : effectsOnly st (snd (movementAndBoost l dt st))).
  { unfold movementAndBoost.
    destruct (movementKeys_spec l dt st) as (E1 & _).
    destruct (movementKeys l dt st) as [q st1]; simpl in E1.
    destruct (canBoost (keys st1) q); simpl; [| exact E1].
    eapply effectsOnly_trans; [exact E1 | apply effectsOnly_boost]. }
  destruct (movementAndBoost l dt st) as [p1 st1]; simpl in E.
  set (st2 := withPlayers (set k p1 (players st1)) st1).
  assert (H2 : combatOnly st st2).
  { eapply combatOnly_trans; [apply effectsOnly_combatOnly, E |].
    apply combatOnly_withPlayers. }
  clearbody st2.
  set (st3 := if Mouse.pressed (mouse st2) then handleShooting dateNow st2 else st2).
  assert (H3 : combatOnly st st3).
  { unfold st3. destruct (Mouse.pressed (mouse st2)); [| exact H2].
    eapply combatOnly_trans; [exact H2 | apply combatOnly_handleShooting]. }
  clearbody st3.
  destruct (get k (players st3)); [| exact H3].
  eapply combatOnly_trans; [exact H3 | apply combatOnly_withPlayers].
Qed.

Lemma combatOnly_updatePlayers dt dateNow st : combatOnly st (updatePlayers dt dateNow st).
Proof.
  unfold updatePlayers.
  destruct (get (localPlayerId st) (players st)); [| apply combatOnly_refl].
  eapply combatOnly_trans; [apply combatOnly_handlePlayerInput |].
  apply combatOnly_withPlayers.
Qed.

Lemma combatOnly_handlePlayerHit k pr st : combatOnly st (handlePlayerHit k pr st).
Proof.
  unfold handlePlayerHit.
  destruct (get k (players st)) as [p |]; [| apply combatOnly_refl].
  set (p1 := applyDamage (damage pr) p).
  set (st1 := addHitParticles (position p1) (withPlayers (set k p1 (players st)) st)).
  assert (H1 : combatOnly st st1).
  { eapply combatOnly_trans; [apply combatOnly_withPlayers |].
    apply effectsOnly_combatOnly, effectsOnly_hit. }
  clearbody st1.
  destruct (health p1 <=? 0); [| exact H1].
  unfold handlePlayerDestroyed.
  destruct (get k (players st1)) as [v |]; [| exact H1].
  eapply combatOnly_trans; [| apply effectsOnly_combatOnly, effectsOnly_explosion].
  eapply combatOnly_trans; [exact H1 |].
  match goal with
  | |- combatOnly st1 (match get _ (players ?s) with _ => _ end) =>
    assert (Hs : combatOnly st1 s) by (now destruct st1);
    destruct (get (ownerId pr) (players s)); [| exact Hs]
  end.
  eapply combatOnly_trans; [exact Hs | apply combatOnly_withPlayers].
Qed.

Lemma projectiles_handlePlayerHit k pr st :
  projectiles (handlePlayerHit k pr st) = projectiles st.
Proof.
  unfold handlePlayerHit.
  destruct (get k (players st)) as [p |]; [| reflexivity].
  set (p1 := applyDamage (damage pr) p).
  set (st1 := addHitParticles (position p1) (withPlayers (set k p1 (players st)) st)).
  assert (H1 : projectiles st1 = projectiles st)
    by exact (effectsOnly_projectiles _ _ (effectsOnly_hit _ _)).
  clearbody st1.
  destruct (health p1 <=? 0); [| exact H1].
  unfold handlePlayerDestroyed.
  destruct (get k (players st1)) as [v |]; [| exact H1].
  rewrite (effectsOnly_projectiles _ _ (effectsOnly_explosion _ _ _)).
  match goal with
  | |- projectiles (match get _ (players ?s) with _ => _ end) = _ =>
    destruct (get (ownerId pr) (players s))
  end; exact H1.
Qed.

Lemma entitiesOnly_handlePowerUpCollection k i st :
  entitiesOnly st (handlePowerUpCollection k i st).
Proof.
  unfold handlePowerUpCollection.
  destruct (get k (players st)) as [p |]; [| apply entitiesOnly_refl].
  destruct (nth_error (powerUps st) i) as [pu |]; [| apply entitiesOnly_refl].
  eapply entitiesOnly_trans;
    [| apply combatOnly_entitiesOnly, effectsOnly_combatOnly, effectsOnly_collection].
  now destruct st.
Qed.

Lemma projectiles_handlePowerUpCollection k i st :
  projectiles (handlePowerUpCollection k i st) = projectiles st.
Proof.
  unfold handlePowerUpCollection.
  destruct (get k (players st)) as [p |]; [| reflexivity].
  destruct (nth_error (powerUps st) i) as [pu |]; [| reflexivity].
  now rewrite (effectsOnly_projectiles _ _ (effectsOnly_collection _ _ _)).
Qed.

(** A property that the four things [checkCollisions] does keep is kept
    by [checkCollisions]: a hit of a stored player by a stored projectile
    of another owner in range, the collection of an active power-up in
    range by a stored player, the removal of a projectile, and the
    explosion on an asteroid. *)
Lemma checkCollisions_preserves (P : GameEngine -> Prop) st :
  (forall k pr j player s,
     P s -> nth_error (projectiles s) j = Some pr -> get k (players s) = Some player ->
     ownerId pr <> playerId player ->
     distanceLt (position player) (position pr) 20 = true ->
     P (handlePlayerHit k pr s)) ->
  (forall k i player pu s,
     P s -> get k (players s) = Some player -> nth_error (powerUps s) i = Some pu ->
     active pu = true ->
     distanceLt (position player) (position pu) 25 = true ->
     P (handlePowerUpCollection k i s)) ->
  (forall i s, P s -> P (withProjectiles (splice1 i (projectiles s)) s)) ->
  (forall pos s, P s -> P (addExplosionParticles pos "orange" s)) ->
  P st -> P (checkCollisions st).
Proof.
  intros Hhit Hcol Hspl Hexp H. unfold checkCollisions, forEachProjectile.
  apply forEachProjectileFrom_preserves.
  - intros pr j s Hs _. unfold projectileVsAsteroids.
    apply fold_left_preserves; [| exact Hs].
    intros a s' Hs'. destruct (distanceLt _ _ _); [| exact Hs'].
    apply Hspl, Hexp, Hs'.
  - apply fold_left_preserves; [| exact H].
    intros k s Hs. unfold playerCollisions.
    apply forLoop_preserves.
    + intros i s' Hs'. unfold playerVsPowerUp.
      destruct (get k (players s')) as [player |] eqn:G; [| exact Hs'].
      destruct (nth_error (powerUps s') i) as [pu |] eqn:N; [| exact Hs'].
      destruct (active pu) eqn:A; [| exact Hs']. cbn [negb].
      destruct (distanceLt _ _ _) eqn:D; [| exact Hs'].
      now apply Hcol with player pu.
    + unfold forEachProjectile. apply forEachProjectileFrom_preserves; [| exact Hs].
      intros pr j s' Hs' N. unfold playerVsProjectile.
      destruct (get k (players s')) as [player |] eqn:G; [| exact Hs'].
      destruct (String.eqb _ _) eqn:E; [exact Hs' |].
      destruct (distanceLt _ _ _) eqn:D; [| exact Hs'].
      apply Hspl. apply String.eqb_neq in E. now apply Hhit with j player.
Qed.

Lemma entitiesOnly_checkCollisions st : entitiesOnly st (checkCollisions st).
Proof.
  apply (checkCollisions_preserves (entitiesOnly st)).
  - intros k pr j player s Hs _ _ _ _.
    eapply entitiesOnly_trans; [exact Hs |].
    apply combatOnly_entitiesOnly, combatOnly_handlePlayerHit.
  - intros k i player pu s Hs _ _ _ _.
    eapply entitiesOnly_trans; [exact Hs | apply entitiesOnly_handlePowerUpCollection].
  - intros i s Hs.
    eapply entitiesOnly_trans; [exact Hs |].
    apply combatOnly_entitiesOnly, combatOnly_withProjectiles.
  - intros pos s Hs.
    eapply entitiesOnly_trans; [exact Hs |].
    apply combatOnly_entitiesOnly, effectsOnly_combatOnly, effectsOnly_explosion.
  - apply entitiesOnly_refl.
Qed.

Lemma entitiesOnly_updatePowerUps dt st : entitiesOnly st (updatePowerUps dt st).
Proof.
  unfold updatePowerUps.
  assert (E : effectsOnly st (snd (updatePowerUpsFrom dt (powerUps st) st))).
  { generalize (powerUps st) as l. intro l. generalize st as s.
    induction l as [| pu l IH]; intro s; simpl; [apply effectsOnly_refl |].
    destruct (updatePowerUp_spec dt pu s) as [_ E].
    destruct (updatePowerUp dt pu s) as [pu' s']; simpl in E.
    specialize (IH s').
    destruct (updatePowerUpsFrom dt l s') as [l' s'']; simpl in *.
    eapply effectsOnly_trans; eauto. }
  destruct (updatePowerUpsFrom dt (powerUps st) st) as [l st']; simpl in E.
  eapply entitiesOnly_trans;
    [apply combatOnly_entitiesOnly, effectsOnly_combatOnly, E |].
  now destruct st'.
Qed.

Lemma entitiesOnly_session st st' :
  entitiesOnly st st' ->
  canvas st' = canvas st /\ asteroids st' = asteroids st /\
  gameTime st' = gameTime st /\ lastUpdate st' = lastUpdate st /\
  isHost st' = isHost st /\ localPlayerId st' = localPlayerId st /\
  keys st' = keys st /\ mouse st' = mouse st.
Proof. intro H. rewrite H. repeat split. Qed.

(** The engine before the collisions of a tick, and the engine the
    collisions start from. *)
Lemma update_steps now dateNow st :
  let dt := (now - lastUpdate st) / 1000 in
  let st0 := withGameTime (gameTime st + dt) (withLastUpdate now st) in
  let st1 := updatePowerUps dt (updateProjectiles dt (updatePlayers dt dateNow st0)) in
  let st2 := updateParticles dt (updateAsteroids dt st1) in
  update now dateNow st = checkCollisions st2 /\
  entitiesOnly st0 st1 /\
  entitiesOnly st2 (checkCollisions st2).
Proof.
  cbv zeta. split; [reflexivity |]. split; [| apply entitiesOnly_checkCollisions].
  eapply entitiesOnly_trans; [| apply entitiesOnly_updatePowerUps].
  eapply entitiesOnly_trans;
    [apply combatOnly_entitiesOnly, combatOnly_updatePlayers |].
  apply combatOnly_entitiesOnly, combatOnly_withProjectiles.
Qed.

(** The clock of the engine after a tick. *)
Lemma update_clock now dateNow st :
  gameTime (update now dateNow st) = gameTime st + (now - lastUpdate st) / 1000 /\
  lastUpdate (update now dateNow st) = now.
Proof.
  destruct (update_steps now dateNow st) as (-> & E1 & E2).
  destruct (entitiesOnly_session _ _ E2) as (_ & _ & -> & -> & _).
  cbn [gameTime lastUpdate updateParticles updateAsteroids withParticles withAsteroids].
  destruct (entitiesOnly_session _ _ E1) as (_ & _ & -> & -> & _).
  split; reflexivity.
Qed.

(** X7.  A tick advances the elapsed time by the time since the last
    tick, in seconds, stores the reading of the clock, and leaves the
    canvas, the role, the local player id, the pressed keys and the mouse
    as they were. *)
Theorem tick_advances_time_only (now dateNow : Q) (st : GameEngine) :
  gameTime (update now dateNow st) = gameTime st + (now - lastUpdate st) / 1000 /\
  lastUpdate (update now dateNow st) = now /\
  canvas (update now dateNow st) = canvas st /\
  isHost (update now dateNow st) = isHost st /\
  localPlayerId (update now dateNow st) = localPlayerId st /\
  keys (update now dateNow st) = keys st /\
  mouse (update now dateNow st) = mouse st.
Proof.
  destruct (update_steps now dateNow st) as (-> & E1 & E2).
  apply entitiesOnly_session in E1. apply entitiesOnly_session in E2.
  destruct E2 as (-> & _ & -> & -> & -> & -> & -> & ->).
  cbn [canvas gameTime lastUpdate isHost localPlayerId keys mouse
       updateParticles updateAsteroids withParticles withAsteroids].
  destruct E1 as (-> & _ & -> & -> & -> & -> & -> & ->).
  repeat split.
Qed.

Lemma run_cons ev evs st : run (ev :: evs) st = run evs (step ev st).
Proof. reflexivity. Qed.

Lemma last_cons {A} (a d : A) l : last (a :: l) d = last l a.
Proof.
  revert a d. induction l as [| b l IH]; intros a d; [reflexivity |].
  change (last (a :: b :: l) d) with (last (b :: l) d).
  now rewrite !IH.
Qed.

(** X8.  The elapsed time never goes back.  Over any number of ticks
    whose readings of the clock are each at least the one the engine had
    stored, [gameTime] does not decrease, and [lastUpdate] ends at the
    last reading. *)
Theorem elapsed_time_never_goes_back (readings : list (Q * Q)) (st : GameEngine) :
  timelyRun (ticks readings) st ->
  gameTime st <= gameTime (run (ticks readings) st) /\
  lastUpdate (run (ticks readings) st) = last (map fst readings) (lastUpdate st).
Proof.
  revert st. induction readings as [| [now dateNow] l IH]; intros st T.
  - split; [apply Qle_refl | reflexivity].
  - change (ticks ((now, dateNow) :: l)) with (Update now dateNow :: ticks l) in *.
    rewrite run_cons.
    change (step (Update now dateNow) st) with (update now dateNow st).
    change (map fst ((now, dateNow) :: l)) with (now :: map fst l).
    destruct T as [Tn Tl].
    change (step (Update now dateNow) st) with (update now dateNow st) in Tl.
    change (lastUpdate st <= now) in Tn.
    destruct (IH (update now dateNow st) Tl) as [Hg Hl].
    destruct (update_clock now dateNow st) as (Eg & El).
    rewrite El in Hl. rewrite Eg in Hg.
    rewrite last_cons. split; [| exact Hl].
    eapply Qle_trans; [| exact Hg].
    assert (D : 0 <= (now - lastUpdate st) / 1000)
      by (apply Qle_shift_div_l; lra).
    set (d := (now - lastUpdate st) / 1000) in *. clearbody d. lra.
Qed.

(** ** Projectiles and particles *)

Lemma projectileStays_inFlight c p : projectileStays c p = true <-> inFlight c p.
Proof.
  clear cos sin atan2 PI rnd.
  unfold projectileStays, inFlight.
  rewrite negb_true_iff, !orb_false_iff, leb_false, !ltb_false. tauto.
Qed.

Lemma updateProjectiles_inFlight dt st p :
  In p (projectiles (updateProjectiles dt st)) -> inFlight (canvas st) p.
Proof.
  cbn [updateProjectiles projectiles withProjectiles]. intro H.
  apply filter_In in H. now apply projectileStays_inFlight.
Qed.

(** X9.  A projectile that is in the store after [updateProjectiles] is
    one that was there before, moved by its velocity for [deltaTime]
    seconds and [deltaTime] older, with the same velocity, owner and
    damage; its remaining lifetime is positive and it is within the
    canvas.  So a projectile whose lifetime is at most [deltaTime], or
    that has left the canvas, is gone. *)
Theorem expired_projectiles_are_removed (dt : Q) (st : GameEngine) (p' : Projectile) :
  In p' (projectiles (updateProjectiles dt st)) ->
  exists p,
    In p (projectiles st) /\
    lifetime p' = lifetime p - dt /\
    position p' = mkVector2D (x (position p) + x (velocity p) * dt)
                             (y (position p) + y (velocity p) * dt) /\
    velocity p' = velocity p /\ ownerId p' = ownerId p /\ damage p' = damage p /\
    inFlight (canvas st) p'.
Proof.
  clear cos sin atan2 PI rnd.
  cbn [updateProjectiles projectiles withProjectiles]. intro H.
  apply filter_In in H. destruct H as [H S].
  apply in_map_iff in H. destruct H as (p & <- & Hp).
  exists p. split; [exact Hp |]. do 5 (split; [reflexivity |]).
  now apply projectileStays_inFlight.
Qed.

Lemma incl_splice1 {A} i (l : list A) : incl (splice1 i l) l.
Proof.
  revert i. induction l as [| a l IH]; intros [| i]; simpl.
  - apply incl_refl.
  - apply incl_refl.
  - apply incl_tl, incl_refl.
  - apply incl_cons; [now left | apply incl_tl, IH].
Qed.

(** [checkCollisions] creates no projectile and changes none. *)
Lemma checkCollisions_incl st : incl (projectiles (checkCollisions st)) (projectiles st).
Proof.
  apply (checkCollisions_preserves (fun s => incl (projectiles s) (projectiles st))).
  - intros k pr j player s Hs _ _ _ _. now rewrite projectiles_handlePlayerHit.
  - intros k i player pu s Hs _ _ _ _. now rewrite projectiles_handlePowerUpCollection.
  - intros i s Hs. cbn [projectiles withProjectiles].
    eapply incl_tran; [apply incl_splice1 | exact Hs].
  - intros pos s Hs. now rewrite (effectsOnly_projectiles _ _ (effectsOnly_explosion _ _ _)).
  - apply incl_refl.
Qed.

(** [updatePowerUps] writes to the power-ups and reads random values. *)
Lemma updatePowerUps_frame dt st :
  exists l st', updatePowerUps dt st = withPowerUps l st' /\ effectsOnly st st'.
Proof.
  unfold updatePowerUps.
  assert (E : effectsOnly st (snd (updatePowerUpsFrom dt (powerUps st) st))).
  { generalize (powerUps st) as l. intro l. generalize st as s.
    induction l as [| pu l IH]; intro s; simpl; [apply effectsOnly_refl |].
    destruct (updatePowerUp_spec dt pu s) as [_ E].
    destruct (updatePowerUp dt pu s) as [pu' s']; simpl in E.
    specialize (IH s').
    destruct (updatePowerUpsFrom dt l s') as [l' s'']; simpl in *.
    eapply effectsOnly_trans; eauto. }
  destruct (updatePowerUpsFrom dt (powerUps st) st) as [l st']; simpl in E.
  now exists l, st'.
Qed.

(** X10.  After a tick every projectile in the store is in flight: it has
    a positive lifetime and is within the canvas. *)
Theorem projectiles_in_flight_after_tick (now dateNow : Q) (st : GameEngine) :
  Forall (inFlight (canvas st)) (projectiles (update now dateNow st)).
Proof.
  destruct (update_steps now dateNow st) as (-> & _ & _).
  set (dt := (now - lastUpdate st) / 1000).
  set (st0 := withGameTime (gameTime st + dt) (withLastUpdate now st)).
  set (sp := updatePlayers dt dateNow st0).
  assert (C : canvas sp = canvas st).
  { pose proof (combatOnly_updatePlayers dt dateNow st0) as H.
    apply combatOnly_entitiesOnly, entitiesOnly_session in H. exact (proj1 H). }
  clearbody sp.
  destruct (updatePowerUps_frame dt (updateProjectiles dt sp)) as (l & s' & -> & E).
  apply Forall_forall. intros p Hp.
  apply checkCollisions_incl in Hp.
  cbn [projectiles updateParticles updateAsteroids withParticles withAsteroids withPowerUps]
    in Hp.
  rewrite (effectsOnly_projectiles _ _ E) in Hp.
  rewrite <- C. now apply updateProjectiles_inFlight with dt.
Qed.

(** A burst of particles with a positive life keeps every particle
    alive. *)
Lemma burst_alive n k (mk : GameEngine -> Particle.t) st :
  (forall s, 0 < Particle.life (mk s)) ->
  Forall (fun p => 0 < Particle.life p) (particles st) ->
  Forall (fun p => 0 < Particle.life p)
         (particles (forLoop n (fun _ s => pushParticle (mk s) (drawn k s)) st)).
Proof.
  intros Hmk H. apply (forLoop_preserves (fun s => Forall _ (particles s))); [| exact H].
  intros i s Hs. cbn [particles pushParticle withParticles drawn withRandomIx].
  apply Forall_app. split; [exact Hs |]. constructor; [apply Hmk | constructor].
Qed.

Lemma alive_handlePlayerHit k pr st :
  Forall (fun p => 0 < Particle.life p) (particles st) ->
  Forall (fun p => 0 < Particle.life p) (particles (handlePlayerHit k pr st)).
Proof.
  intro H. unfold handlePlayerHit.
  destruct (get k (players st)) as [p |]; [| exact H].
  set (p1 := applyDamage (damage pr) p).
  set (st1 := addHitParticles (position p1) (withPlayers (set k p1 (players st)) st)).
  assert (H1 : Forall (fun p => 0 < Particle.life p) (particles st1)).
  { unfold st1, addHitParticles. apply burst_alive; [reflexivity | exact H]. }
  clearbody st1.
  destruct (health p1 <=? 0); [| exact H1].
  unfold handlePlayerDestroyed.
  destruct (get k (players st1)) as [v |]; [| exact H1].
  unfold addExplosionParticles. apply burst_alive; [reflexivity |].
  match goal with
  | |- Forall _ (particles (match get _ (players ?s) with _ => _ end)) =>
    destruct (get (ownerId pr) (players s))
  end; exact H1.
Qed.

Lemma alive_handlePowerUpCollection k i st :
  Forall (fun p => 0 < Particle.life p) (particles st) ->
  Forall (fun p => 0 < Particle.life p) (particles (handlePowerUpCollection k i st)).
Proof.
  intro H. unfold handlePowerUpCollection.
  destruct (get k (players st)) as [p |]; [| exact H].
  destruct (nth_error (powerUps st) i) as [pu |]; [| exact H].
  unfold addCollectionParticles. apply burst_alive; [reflexivity | exact H].
Qed.

(** X11.  After a tick every particle in the store has a positive
    remaining life. *)
Theorem particles_alive_after_tick (now dateNow : Q) (st : GameEngine) :
  Forall (fun p => 0 < Particle.life p) (particles (update now dateNow st)).
Proof.
  destruct (update_steps now dateNow st) as (-> & _ & _).
  apply (checkCollisions_preserves
           (fun s => Forall (fun p => 0 < Particle.life p) (particles s))).
  - intros k pr j player s Hs _ _ _ _. now apply alive_handlePlayerHit.
  - intros k i player pu s Hs _ _ _ _. now apply alive_handlePowerUpCollection.
  - intros i s Hs. exact Hs.
  - intros pos s Hs. unfold addExplosionParticles.
    apply burst_alive; [reflexivity | exact Hs].
  - cbn [particles updateParticles withParticles].
    apply Forall_forall. intros p Hp. apply filter_In in Hp.
    now apply ltb_true.
Qed.

(** ** How the players change in a tick *)

Section Evolution.

(** Whether the power-ups are known to have no negative value. *)
Variable fair : Prop.

(** Proves [evolves] between a player and an update of it. *)
Ltac evolved :=
  unfold evolves; cbn;
  repeat match goal with
  | |- _ /\ _ => split
  end;
  try reflexivity; try apply Qle_refl; try (intros; assumption); try (intros; lra).

Lemma evolves_refl p : evolves fair p p.
Proof. evolved. Qed.

Lemma evolves_trans p1 p2 p3 :
  evolves fair p1 p2 -> evolves fair p2 p3 -> evolves fair p1 p3.
Proof.
  intros (A1 & A2 & A3 & A4 & A5 & A6 & A7 & A8 & A9)
         (B1 & B2 & B3 & B4 & B5 & B6 & B7 & B8 & B9).
  unfold evolves. rewrite B1, B2, B3, B4, B5.
  repeat match goal with
  | |- _ /\ _ => split
  end; try assumption; try lra.
  - intro F. specialize (A8 F). specialize (B8 F). lra.
  - intros F M H. apply (B9 F); [now rewrite A1 | now apply A9].
Qed.

Lemma playersEvolve_refl m : playersEvolve fair m m.
Proof.
  split; [reflexivity |]. intros k p H. exists p. split; [exact H | apply evolves_refl].
Qed.

Lemma playersEvolve_trans m1 m2 m3 :
  playersEvolve fair m1 m2 -> playersEvolve fair m2 m3 -> playersEvolve fair m1 m3.
Proof.
  intros [K12 H12] [K23 H23]. split; [congruence |].
  intros k p3 G3. destruct (H23 k p3 G3) as (p2 & G2 & E23).
  destruct (H12 k p2 G2) as (p1 & G1 & E12).
  exists p1. split; [exact G1 | eapply evolves_trans; eassumption].
Qed.

Lemma playersEvolve_set k p v m :
  get k m = Some p -> evolves fair p v -> playersEvolve fair m (set k v m).
Proof.
  intros G E. split; [now apply keys_set_present with p |].
  intros k' p' G'. destruct (String.eqb k' k) eqn:Ek.
  - apply String.eqb_eq in Ek. subst k'. rewrite get_set_same in G'.
    injection G' as <-. now exists p.
  - apply String.eqb_neq in Ek. rewrite get_set_other in G' by exact Ek.
    exists p'. split; [exact G' | apply evolves_refl].
Qed.

Lemma get_forEachPlayer f k m : get k (forEachPlayer f m) = option_map f (get k m).
Proof.
  induction m as [| [k0 p0] m IH]; simpl; [reflexivity |].
  destruct (String.eqb k k0); [reflexivity | exact IH].
Qed.

Lemma playersEvolve_forEachPlayer f m :
  (forall p, evolves fair p (f p)) -> playersEvolve fair m (forEachPlayer f m).
Proof.
  intro Hf. split.
  - unfold forEachPlayer. rewrite map_map. reflexivity.
  - intros k p' G. rewrite get_forEachPlayer in G.
    destruct (get k m) as [p |]; [| discriminate].
    injection G as <-. exists p. split; [reflexivity | apply Hf].
Qed.

Lemma evolves_movementAndBoost p dt st :
  evolves fair p (fst (movementAndBoost p dt st)).
Proof.
  unfold movementAndBoost, movementKeys.
  destruct (has "KeyW" (keys st)); cbv beta iota zeta;
    destruct (has "KeyS" (keys _)), (has "KeyA" (keys _)), (has "KeyD" (keys _));
    destruct (canBoost _ _); evolved.
Qed.

Lemma evolves_updatePlayer c dt p : evolves fair p (updatePlayer c dt p).
Proof.
  unfold updatePlayer.
  set (p1 := applyDrag (applyPhysics dt p)).
  assert (E1 : evolves fair p p1) by evolved.
  clearbody p1.
  assert (E2 : evolves fair p1 (wrapAround c p1)).
  { unfold wrapAround.
    repeat match goal with
    | |- context [if ?b then _ else _] => destruct b
    end; evolved. }
  set (p2 := wrapAround c p1) in *. clearbody p2.
  assert (E3 : evolves fair p2 (regenerate dt p2)).
  { unfold regenerate. destruct (shield p2 <? maxShield p2); cbn;
      destruct (energy p2 <? maxEnergy p2); evolved. }
  set (p3 := regenerate dt p2) in *. clearbody p3.
  assert (E4 : evolves fair p3 (updateCooldowns dt p3)).
  { unfold updateCooldowns. destruct (0 <? weaponCooldown p3); cbn;
      destruct (0 <? boostCooldown p3); evolved. }
  eauto using evolves_trans.
Qed.

Lemma playersEvolve_handleShooting dateNow st :
  playersEvolve fair (players st) (players (handleShooting dateNow st)).
Proof.
  destruct (get (localPlayerId st) (players st)) as [p |] eqn:G.
  2: { unfold handleShooting. rewrite G. apply playersEvolve_refl. }
  destruct ((0 <? weaponCooldown p) || (energy p <? 10)) eqn:B.
  - rewrite (handleShooting_blocked dateNow st p G B). apply playersEvolve_refl.
  - apply orb_false_iff in B. destruct B as [Ew Ee].
    rewrite (handleShooting_fires dateNow st p G Ew Ee).
    rewrite (effectsOnly_players _ _ (effectsOnly_muzzle _ _)).
    cbn [players withPlayers]. apply playersEvolve_set with p; [exact G | evolved].
Qed.

Lemma playersEvolve_handlePlayerInput k dt dateNow st :
  playersEvolve fair (players st) (players (handlePlayerInput k dt dateNow st)).
Proof.
  unfold handlePlayerInput.
  destruct (get k (players st)) as [l |] eqn:G; [| apply playersEvolve_refl].
  pose proof (evolves_movementAndBoost l dt st) as Ev.
  assert (E : effectsOnly st (snd (movementAndBoost l dt st))).
  { unfold movementAndBoost.
    destruct (movementKeys_spec l dt st) as (E1 & _).
    destruct (movementKeys l dt st) as [q st1]; simpl in E1.
    destruct (canBoost (keys st1) q); simpl; [| exact E1].
    eapply effectsOnly_trans; [exact E1 | apply effectsOnly_boost]. }
  destruct (movementAndBoost l dt st) as [p1 st1]; simpl in E, Ev.
  set (st2 := withPlayers (set k p1 (players st1)) st1).
  assert (H2 : playersEvolve fair (players st) (players st2)).
  { unfold st2. cbn [players withPlayers]. rewrite (effectsOnly_players _ _ E).
    now apply playersEvolve_set with l. }
  clearbody st2.
  set (st3 := if Mouse.pressed (mouse st2) then handleShooting dateNow st2 else st2).
  assert (H3 : playersEvolve fair (players st) (players st3)).
  { unfold st3. destruct (Mouse.pressed (mouse st2)); [| exact H2].
    eapply playersEvolve_trans; [exact H2 | apply playersEvolve_handleShooting]. }
  clearbody st3.
  destruct (get k (players st3)) as [p3 |] eqn:G3; [| exact H3].
  eapply playersEvolve_trans; [exact H3 |].
  cbn [players withPlayers]. apply playersEvolve_set with p3; [exact G3 | evolved].
Qed.

Lemma playersEvolve_updatePlayers dt dateNow st :
  playersEvolve fair (players st) (players (updatePlayers dt dateNow st)).
Proof.
  unfold updatePlayers.
  destruct (get (localPlayerId st) (players st)); [| apply playersEvolve_refl].
  eapply playersEvolve_trans; [apply playersEvolve_handlePlayerInput |].
  cbn [players withPlayers]. apply playersEvolve_forEachPlayer.
  intro q. apply evolves_updatePlayer.
Qed.

Lemma playersEvolve_handlePlayerHit k pr st :
  playersEvolve fair (players st) (players (handlePlayerHit k pr st)).
Proof.
  destruct (get k (players st)) as [p |] eqn:G.
  2: { unfold handlePlayerHit. rewrite G. apply playersEvolve_refl. }
  rewrite (handlePlayerHit_players k pr st p G). cbv zeta.
  destruct (applyDamage_frame (damage pr) p)
    as (F1 & F2 & F3 & _ & F5 & F6 & F7 & _ & F9).
  assert (F0 : id (applyDamage (damage pr) p) = id p).
  { unfold applyDamage.
    destruct (0 <? shield p);
      [destruct (0 <? damage pr - Qmin (shield p) (damage pr)) | destruct (0 <? damage pr)];
      reflexivity. }
  set (p1 := applyDamage (damage pr) p) in *. clearbody p1.
  destruct (health p1 <=? 0) eqn:L.
  - assert (E2 : evolves fair p (respawned (canvas st) (randomIx st + 24) p1)).
    { unfold evolves, respawned; cbn. rewrite F1, F2, F3, F5, F6, F7, F9, F0.
      repeat match goal with
      | |- _ /\ _ => split
      end; try reflexivity; try apply Qle_refl; try (intros; assumption); try (intros; lra). }
    set (p2 := respawned (canvas st) (randomIx st + 24) p1) in *. clearbody p2.
    pose proof (playersEvolve_set k p p2 (players st) G E2) as H.
    set (m := set k p2 (players st)) in *. clearbody m.
    destruct (get (ownerId pr) m) as [killer |] eqn:Gk; [| exact H].
    eapply playersEvolve_trans; [exact H |].
    apply playersEvolve_set with killer; [exact Gk | evolved].
  - apply leb_false in L.
    apply playersEvolve_set with p; [exact G |].
    unfold evolves. rewrite F1, F2, F3, F5, F6, F7, F9, F0.
    repeat match goal with
    | |- _ /\ _ => split
    end; try reflexivity; try apply Qle_refl; try (intros; assumption); try (intros; lra).
Qed.

Lemma playersEvolve_handlePowerUpCollection k i st :
  (fair -> forall pu, nth_error (powerUps st) i = Some pu -> 0 <= value pu) ->
  playersEvolve fair (players st) (players (handlePowerUpCollection k i st)).
Proof.
  intro Hv. unfold handlePowerUpCollection.
  destruct (get k (players st)) as [p |] eqn:G; [| apply playersEvolve_refl].
  destruct (nth_error (powerUps st) i) as [pu |] eqn:N; [| apply playersEvolve_refl].
  rewrite (effectsOnly_players _ _ (effectsOnly_collection _ _ _)).
  cbn [players withPlayers withPowerUps]. apply playersEvolve_set with p; [exact G |].
  unfold applyPowerUp. destruct (type pu); evolved.
  - intros F M H. specialize (Hv F pu eq_refl). cases_min; lra.
  - intro F. specialize (Hv F pu eq_refl). lra.
Qed.

Lemma fairValues_combatOnly st st' : combatOnly st st' -> fairValues fair st -> fairValues fair st'.
Proof. unfold fairValues, valuesOk. intros C H. now rewrite (combatOnly_powerUps _ _ C). Qed.

Lemma fairValues_handlePowerUpCollection k i st :
  fairValues fair st -> fairValues fair (handlePowerUpCollection k i st).
Proof.
  unfold fairValues, valuesOk, handlePowerUpCollection. intros H F. specialize (H F).
  destruct (get k (players st)) as [p |]; [| exact H].
  destruct (nth_error (powerUps st) i) as [pu |]; [| exact H].
  rewrite (effectsOnly_powerUps _ _ (effectsOnly_collection _ _ _)).
  cbn [powerUps withPowerUps withPlayers drawn withRandomIx].
  apply Forall_updateAt; [| exact H]. intros a Ha. exact Ha.
Qed.

Lemma fairValues_updatePowerUps dt st : fairValues fair st -> fairValues fair (updatePowerUps dt st).
Proof.
  unfold fairValues, valuesOk, updatePowerUps. intros H F. specialize (H F).
  assert (G : Forall (fun pu : PowerUp => 0 <= value pu)
                     (fst (updatePowerUpsFrom dt (powerUps st) st))).
  { revert H. generalize (powerUps st) as l. intros l H. generalize st as s.
    induction H as [| pu l Hpu Hl IH]; intro s; simpl; [constructor |].
    destruct (updatePowerUp_spec dt pu s) as [V _].
    destruct (updatePowerUp dt pu s) as [pu' s']; simpl in V.
    specialize (IH s').
    destruct (updatePowerUpsFrom dt l s') as [l' s'']; simpl in *.
    constructor; [now rewrite V | exact IH]. }
  destruct (updatePowerUpsFrom dt (powerUps st) st) as [l st']; exact G.
Qed.

Lemma playersEvolve_checkCollisions st :
  fairValues fair st ->
  playersEvolve fair (players st) (players (checkCollisions st)).
Proof.
  intro F.
  apply (checkCollisions_preserves
           (fun s => fairValues fair s /\ playersEvolve fair (players st) (players s))).
  - intros k pr j player s [Fs Hs] _ _ _ _. split.
    + eapply fairValues_combatOnly; [apply combatOnly_handlePlayerHit | exact Fs].
    + eapply playersEvolve_trans; [exact Hs | apply playersEvolve_handlePlayerHit].
  - intros k i player pu s [Fs Hs] _ N _ _. split.
    + now apply fairValues_handlePowerUpCollection.
    + eapply playersEvolve_trans; [exact Hs |].
      apply playersEvolve_handlePowerUpCollection.
      intros Hf pu0 N0.
      exact (Forall_nth_error _ _ _ _ (Fs Hf) N0).
  - intros i s [Fs Hs]. split; [exact Fs | exact Hs].
  - intros pos s [Fs Hs]. split.
    + eapply fairValues_combatOnly;
        [apply effectsOnly_combatOnly, effectsOnly_explosion | exact Fs].
    + now rewrite (effectsOnly_players _ _ (effectsOnly_explosion _ _ _)).
  - split; [exact F | apply playersEvolve_refl].
Qed.

Lemma playersEvolve_update now dateNow st :
  fairValues fair st ->
  playersEvolve fair (players st) (players (update now dateNow st)).
Proof.
  intro F.
  destruct (update_steps now dateNow st) as (-> & _ & _).
  set (dt := (now - lastUpdate st) / 1000).
  set (st0 := withGameTime (gameTime st + dt) (withLastUpdate now st)).
  pose proof (playersEvolve_updatePlayers dt dateNow st0) as Hp.
  pose proof (combatOnly_updatePlayers dt dateNow st0) as Cp.
  change (players st0) with (players st) in Hp.
  assert (F0 : fairValues fair st0) by exact F.
  set (sp := updatePlayers dt dateNow st0) in *. clearbody sp.
  assert (Fp : fairValues fair (updateProjectiles dt sp)).
  { apply (fairValues_combatOnly sp); [apply combatOnly_withProjectiles |].
    now apply (fairValues_combatOnly st0). }
  pose proof (fairValues_updatePowerUps dt _ Fp) as Fu.
  destruct (updatePowerUps_frame dt (updateProjectiles dt sp)) as (l & s' & Eq & E).
  rewrite Eq in Fu |- *.
  eapply playersEvolve_trans; [exact Hp |].
  match goal with
  | |- playersEvolve _ _ (players (checkCollisions ?s)) =>
    assert (Ps : players s = players sp)
      by (cbn [players updateParticles updateAsteroids withParticles withAsteroids
               withPowerUps];
          now rewrite (effectsOnly_players _ _ E));
    rewrite <- Ps; apply playersEvolve_checkCollisions
  end.
  exact Fu.
Qed.

End Evolution.

Lemma get_same_keys (m m' : list (string * Player)) k p :
  map fst m' = map fst m -> get k m = Some p -> exists p', get k m' = Some p'.
Proof.
  revert m'. induction m as [| [k0 p0] m IH]; intros [| [k1 p1] m'] K G;
    try discriminate.
  simpl in K. injection K as -> K. simpl in *.
  destruct (String.eqb k k0); [now exists p1 | now apply IH].
Qed.

(** X12.  A tick neither adds nor removes a player, keeps the order of
    the store, and leaves each player its maxima, its [playerId] and its
    [id]; the kills and the deaths of a player never go down. *)
Theorem tick_keeps_the_players (now dateNow : Q) (st : GameEngine) :
  let st' := update now dateNow st in
  map fst (players st') = map fst (players st) /\
  forall k p', get k (players st') = Some p' ->
    exists p, get k (players st) = Some p /\
      maxHealth p' = maxHealth p /\ maxShield p' = maxShield p /\
      maxEnergy p' = maxEnergy p /\
      playerId p' = playerId p /\ id p' = id p /\
      kills p <= kills p' /\ deaths p <= deaths p'.
Proof.
  intro st'.
  assert (F : fairValues False st) by (intros []).
  destruct (playersEvolve_update False now dateNow st F) as [K H].
  split; [exact K |].
  intros k p' G. destruct (H k p' G) as (p & Gp & E1 & E2 & E3 & E4 & E5 & E6 & E7 & _).
  exists p. repeat (split; [assumption |]). assumption.
Qed.

(** X13.  When no power-up has a negative value, a tick lowers no
    player's score. *)
Theorem scores_never_decrease (now dateNow : Q) (st : GameEngine) (k : string)
    (p p' : Player) :
  valuesOk st ->
  get k (players st) = Some p ->
  get k (players (update now dateNow st)) = Some p' ->
  score p <= score p'.
Proof.
  intros V G G'.
  assert (F : fairValues True st) by (intros _; exact V).
  destruct (playersEvolve_update True now dateNow st F) as [_ H].
  destruct (H k p' G') as (p0 & G0 & E).
  rewrite G in G0. injection G0 as <-.
  destruct E as (_ & _ & _ & _ & _ & _ & _ & E8 & _). exact (E8 I).
Qed.

(** X14.  When no power-up has a negative value, a player with a
    positive health (and a positive [maxHealth]) has a positive health
    after a tick, whatever hits it: a lethal hit respawns it at full
    health in the same tick. *)
Theorem players_stay_alive (now dateNow : Q) (st : GameEngine) (k : string) (p : Player) :
  valuesOk st ->
  get k (players st) = Some p ->
  0 < maxHealth p ->
  0 < health p ->
  exists p', get k (players (update now dateNow st)) = Some p' /\ 0 < health p'.
Proof.
  intros V G M H.
  assert (F : fairValues True st) by (intros _; exact V).
  destruct (playersEvolve_update True now dateNow st F) as [K E].
  destruct (get_same_keys _ _ k p K G) as [p' G'].
  exists p'. split; [exact G' |].
  destruct (E k p' G') as (p0 & G0 & E0).
  rewrite G in G0. injection G0 as <-.
  destruct E0 as (_ & _ & _ & _ & _ & _ & _ & _ & E9). exact (E9 I M H).
Qed.

(** ** The end of the game *)

Lemma In_get_NoDup k p m : NoDup (map fst m) -> In (k, p) m -> get k m = Some p.
Proof.
  induction m as [| [k0 p0] m IH]; simpl; [intros _ [] |].
  intros N [E | I].
  - injection E as -> ->. now rewrite String.eqb_refl.
  - inversion N as [| ? ? Hn N']; subst.
    destruct (String.eqb k k0) eqn:E; [| now apply IH].
    apply String.eqb_eq in E. subst k0.
    contradiction Hn. change k with (fst (k, p)). now apply in_map.
Qed.

(** X15.  A finished game stays finished.  When no power-up has a
    negative value, no key is in the store twice and the clock does not
    go back, a tick of an engine whose game is finished, by the time or
    by a score, leaves it finished. *)
Theorem finished_game_stays_finished (now dateNow : Q) (st : GameEngine) :
  valuesOk st ->
  NoDup (map fst (players st)) ->
  lastUpdate st <= now ->
  isGameFinished st = true ->
  isGameFinished (update now dateNow st) = true.
Proof.
  intros V N T F. unfold isGameFinished in *.
  apply orb_true_iff in F. apply orb_true_iff. destruct F as [F | F].
  - left. apply ltb_true in F. apply ltb_true.
    destruct (update_clock now dateNow st) as (-> & _).
    assert (D : 0 <= (now - lastUpdate st) / 1000)
      by (apply Qle_shift_div_l; lra).
    set (d := (now - lastUpdate st) / 1000) in *. clearbody d. lra.
  - right. apply existsb_exists in F. destruct F as ([k p] & Hin & Hs).
    cbn [snd] in Hs. apply leb_true in Hs.
    assert (Fv : fairValues True st) by (intros _; exact V).
    destruct (playersEvolve_update True now dateNow st Fv) as [K E].
    pose proof (In_get_NoDup k p (players st) N Hin) as G.
    destruct (get_same_keys _ _ k p K G) as [p' G'].
    destruct (E k p' G') as (p0 & G0 & E0).
    rewrite G in G0. injection G0 as <-.
    destruct E0 as (_ & _ & _ & _ & _ & _ & _ & E8 & _).
    apply existsb_exists. exists (k, p'). split; [now apply get_In |].
    cbn [snd]. apply leb_true. specialize (E8 I). lra.
Qed.

(** ** The asteroid field *)

Lemma canvas_update now dateNow st : canvas (update now dateNow st) = canvas st.
Proof.
  destruct (update_steps now dateNow st) as (-> & E1 & E2).
  destruct (entitiesOnly_session _ _ E2) as (-> & _).
  cbn [canvas updateParticles updateAsteroids withParticles withAsteroids].
  now destruct (entitiesOnly_session _ _ E1) as (-> & _).
Qed.

Lemma scaled_in_range r w : 0 <= r -> r < 1 -> 0 <= w -> 0 <= r * w /\ r * w <= w.
Proof.
  intros H0 H1 Hw. split.
  - now apply Qmult_le_0_compat.
  - setoid_replace w with (1 * w) at 2 by ring.
    apply Qmult_le_compat_r; [lra | exact Hw].
Qed.

Lemma wrapped_band limit margin v :
  0 <= limit -> 0 <= margin ->
  - margin <= wrapped limit margin v /\ wrapped limit margin v <= limit + margin.
Proof.
  intros Hl Hm. unfold wrapped.
  destruct (v <? - margin) eqn:E1; [lra |].
  apply ltb_false in E1.
  destruct (limit + margin <? v) eqn:E2; [lra |].
  apply ltb_false in E2. lra.
Qed.

Lemma updateAsteroid_keeps c dt a :
  id (updateAsteroid c dt a) = id a /\ size (updateAsteroid c dt a) = size a /\
  health (updateAsteroid c dt a) = health a /\
  maxHealth (updateAsteroid c dt a) = maxHealth a /\
  rotationSpeed (updateAsteroid c dt a) = rotationSpeed a.
Proof.
  unfold updateAsteroid. cbv zeta.
  repeat match goal with
  | |- context [if ?b then _ else _] => destruct b
  end; repeat split.
Qed.

Lemma asteroidOk_updateAsteroid c dt a :
  0 <= width c -> 0 <= height c -> asteroidOk c a -> asteroidOk c (updateAsteroid c dt a).
Proof.
  intros Hw Hh (Hs & He & Hm & _).
  destruct (updateAsteroid_keeps c dt a) as (_ & Es & Eh & Em & _).
  destruct (updateAsteroid_spec c dt a) as (_ & Ex & Ey).
  unfold asteroidOk. rewrite Es, Eh, Em, Ex, Ey.
  split; [exact Hs |]. split; [exact He |]. split; [exact Hm |].
  split; apply wrapped_band; lra.
Qed.

Lemma field_generatePowerUps st :
  canvas (generatePowerUps st) = canvas st /\
  asteroids (generatePowerUps st) = asteroids st.
Proof.
  unfold generatePowerUps.
  apply (forLoop_preserves (fun s => canvas s = canvas st /\ asteroids s = asteroids st)).
  - intros i s [Hc Ha]. split; [exact Hc | exact Ha].
  - split; reflexivity.
Qed.

Lemma fieldOk_generateAsteroids c :
  inUnitInterval rnd -> 0 <= width c -> 0 <= height c ->
  fieldOk c (generateAsteroids (emptyEngine c)).
Proof.
  intros Hr Hw Hh. unfold generateAsteroids, fieldOk.
  apply (forLoop_counts
           (fun i s =>
              canvas s = c /\
              map (fun a : Asteroid => id a) (asteroids s) = map AsteroidId (seq 0 i) /\
              Forall (asteroidOk c) (asteroids s))).
  - intros i s (Hc & Hi & Ha).
    cbn [canvas asteroids withAsteroids drawn withRandomIx].
    split; [exact Hc |]. split.
    + rewrite map_app, Hi, seq_S, map_app. reflexivity.
    + apply Forall_app. split; [exact Ha |].
      constructor; [| constructor].
      unfold asteroidOk, random. cbn. rewrite Hc.
      destruct (Hr (randomIx s + 6)%nat) as [A0 A1].
      destruct (Hr (randomIx s + 0)%nat) as [X0 X1].
      destruct (Hr (randomIx s + 1)%nat) as [Y0 Y1].
      destruct (scaled_in_range _ _ X0 X1 Hw) as [Hx0 Hx1].
      destruct (scaled_in_range _ _ Y0 Y1 Hh) as [Hy0 Hy1].
      split; [lra |]. split; [reflexivity |]. split; [reflexivity |].
      split; lra.
  - split; [reflexivity |]. split; [reflexivity | constructor].
Qed.

(** Only a tick touches the canvas or the asteroids. *)
Lemma field_step ev st :
  (forall now dateNow, ev <> Update now dateNow) ->
  canvas (step ev st) = canvas st /\ asteroids (step ev st) = asteroids st.
Proof.
  intro Hev. destruct ev; cbn [step];
    try (unfold resetGame; cbv zeta;
         match goal with
         | |- context [generatePowerUps ?s] =>
           destruct (field_generatePowerUps s) as [-> ->]
         end);
    try (split; reflexivity).
  - unfold mousedown. destruct (Z.eqb button 0); [| split; reflexivity].
    match goal with
    | |- context [handleShooting dateNow ?s] =>
      destruct (entitiesOnly_session _ _
                  (combatOnly_entitiesOnly _ _ (combatOnly_handleShooting dateNow s)))
        as (-> & -> & _)
    end.
    split; reflexivity.
  - unfold mouseup. destruct (Z.eqb button 0); split; reflexivity.
  - now contradiction (Hev now dateNow).
  - unfold debugInterval.
    destruct (get name (players st)); [| split; reflexivity].
    cbv zeta. destruct (0.95 <? random st 2); split; reflexivity.
Qed.

Lemma fieldOk_step c ev st :
  0 <= width c -> 0 <= height c -> fieldOk c st -> fieldOk c (step ev st).
Proof.
  intros Hw Hh (Hc & Hi & Ha).
  assert (U : forall now dateNow, fieldOk c (update now dateNow st)).
  { intros now dateNow. unfold fieldOk.
    rewrite (canvas_update now dateNow st).
    rewrite asteroids_update, Hc.
    split; [reflexivity |]. split.
    - rewrite map_map. rewrite <- Hi. apply map_ext.
      intro a. now destruct (updateAsteroid_keeps c ((now - lastUpdate st) / 1000) a).
    - apply Forall_map. revert Ha. apply Forall_impl.
      intros a Hk. now apply asteroidOk_updateAsteroid. }
  destruct ev; try exact (U _ _);
    match goal with
    | |- fieldOk c (step ?ev st) =>
      destruct (field_step ev st) as [Ec Ea]; [intros; discriminate |];
      unfold fieldOk; rewrite Ec, Ea; split; [exact Hc | split; [exact Hi | exact Ha]]
    end.
Qed.

(** X16.  The asteroid field is permanent.  In every state the engine
    can reach, on a canvas of non-negative width and height, there are
    the 25 asteroids the constructor made, in their order; each keeps its
    size (from 20 to 50, both included) and its health of 50, whatever
    hits it, and lies within its size of the canvas. *)
Theorem asteroid_field_is_permanent (c : Canvas) (st : GameEngine) :
  inUnitInterval rnd ->
  0 <= width c -> 0 <= height c ->
  reachable c st ->
  map (fun a : Asteroid => id a) (asteroids st) = map AsteroidId (seq 0 25) /\
  Forall (asteroidOk c) (asteroids st).
Proof.
  intros Hr Hw Hh H.
  assert (F : fieldOk c st).
  { induction H as [| ev st H IH Ht].
    - unfold constructor.
      destruct (fieldOk_generateAsteroids c Hr Hw Hh) as (Hc & Hi & Ha).
      set (s := generateAsteroids (emptyEngine c)) in *. clearbody s.
      destruct (field_generatePowerUps s) as [Ec Ea].
      unfold fieldOk. rewrite Ec, Ea.
      split; [exact Hc | split; [exact Hi | exact Ha]].
    - now apply fieldOk_step. }
  exact (proj2 F).
Qed.

(** ** The power-ups *)

Lemma powerUpEvolves_refl pu : powerUpEvolves pu pu.
Proof. unfold powerUpEvolves. auto. Qed.

Lemma powerUpEvolves_trans a b c :
  powerUpEvolves a b -> powerUpEvolves b c -> powerUpEvolves a c.
Proof.
  intros (A1 & A2 & A3 & A4) (B1 & B2 & B3 & B4). unfold powerUpEvolves.
  rewrite B1, B2, B3. repeat (split; [assumption |]). auto.
Qed.

Lemma Forall2_powerUpEvolves_refl l : Forall2 powerUpEvolves l l.
Proof. induction l; constructor; auto using powerUpEvolves_refl. Qed.

Lemma Forall2_powerUpEvolves_trans l1 l2 l3 :
  Forall2 powerUpEvolves l1 l2 -> Forall2 powerUpEvolves l2 l3 ->
  Forall2 powerUpEvolves l1 l3.
Proof.
  intro H. revert l3. induction H as [| a b l1 l2 Hab H IH]; intros l3 H3;
    inversion H3; subst; constructor; eauto using powerUpEvolves_trans.
Qed.

Lemma Forall2_updateAt i f l :
  (forall pu, powerUpEvolves pu (f pu)) -> Forall2 powerUpEvolves l (updateAt i f l).
Proof.
  intro Hf. revert i. induction l as [| a l IH]; intros [| i]; simpl; constructor;
    auto using powerUpEvolves_refl, Forall2_powerUpEvolves_refl.
Qed.

Lemma powerUpEvolves_updatePowerUp dt pu st :
  powerUpEvolves pu (fst (updatePowerUp dt pu st)).
Proof.
  unfold updatePowerUp, powerUpEvolves, reappears.
  destruct (active pu) eqn:A; cbn [negb andb].
  - cbn. rewrite A. auto.
  - destruct (0 <? respawnTime pu) eqn:R; cbn.
    + destruct (respawnTime pu - dt <=? 0) eqn:L; cbn.
      * auto.
      * apply leb_false in L. auto.
    + rewrite A. auto.
Qed.

Lemma powerUpEvolves_updatePowerUps dt st :
  Forall2 powerUpEvolves (powerUps st) (powerUps (updatePowerUps dt st)).
Proof.
  unfold updatePowerUps.
  assert (F : Forall2 powerUpEvolves (powerUps st)
                      (fst (updatePowerUpsFrom dt (powerUps st) st))).
  { generalize (powerUps st) as l. intro l. generalize st as s.
    induction l as [| pu l IH]; intro s; simpl; [constructor |].
    pose proof (powerUpEvolves_updatePowerUp dt pu s) as E.
    destruct (updatePowerUp dt pu s) as [pu' s']; simpl in E.
    specialize (IH s').
    destruct (updatePowerUpsFrom dt l s') as [l' s'']; simpl in *.
    now constructor. }
  destruct (updatePowerUpsFrom dt (powerUps st) st) as [l st']; exact F.
Qed.

Lemma powerUpEvolves_handlePowerUpCollection k i st :
  Forall2 powerUpEvolves (powerUps st) (powerUps (handlePowerUpCollection k i st)).
Proof.
  unfold handlePowerUpCollection.
  destruct (get k (players st)) as [p |]; [| apply Forall2_powerUpEvolves_refl].
  destruct (nth_error (powerUps st) i) as [pu |]; [| apply Forall2_powerUpEvolves_refl].
  rewrite (effectsOnly_powerUps _ _ (effectsOnly_collection _ _ _)).
  cbn [powerUps withPowerUps withPlayers drawn withRandomIx].
  apply Forall2_updateAt. intro a. unfold powerUpEvolves, reappears. cbn.
  repeat (split; [reflexivity |]). intros Hr _. right.
  unfold random. cbn. destruct (Hr (randomIx st + 0)%nat) as [H0 _]. lra.
Qed.

Lemma powerUpEvolves_checkCollisions st :
  Forall2 powerUpEvolves (powerUps st) (powerUps (checkCollisions st)).
Proof.
  apply (checkCollisions_preserves
           (fun s => Forall2 powerUpEvolves (powerUps st) (powerUps s))).
  - intros k pr j player s Hs _ _ _ _.
    now rewrite (combatOnly_powerUps _ _ (combatOnly_handlePlayerHit k pr s)).
  - intros k i player pu s Hs _ _ _ _.
    eapply Forall2_powerUpEvolves_trans;
      [exact Hs | apply powerUpEvolves_handlePowerUpCollection].
  - intros i s Hs. exact Hs.
  - intros pos s Hs.
    now rewrite (effectsOnly_powerUps _ _ (effectsOnly_explosion pos "orange" s)).
  - apply Forall2_powerUpEvolves_refl.
Qed.

Lemma powerUpEvolves_update now dateNow st :
  Forall2 powerUpEvolves (powerUps st) (powerUps (update now dateNow st)).
Proof.
  destruct (update_steps now dateNow st) as (-> & _ & _).
  set (dt := (now - lastUpdate st) / 1000).
  set (st0 := withGameTime (gameTime st + dt) (withLastUpdate now st)).
  pose proof (combatOnly_powerUps _ _ (combatOnly_updatePlayers dt dateNow st0)) as Ep.
  change (powerUps st0) with (powerUps st) in Ep.
  set (sp := updatePlayers dt dateNow st0) in *. clearbody sp.
  pose proof (powerUpEvolves_updatePowerUps dt (updateProjectiles dt sp)) as Hu.
  change (powerUps (updateProjectiles dt sp)) with (powerUps sp) in Hu.
  rewrite Ep in Hu.
  set (su := updatePowerUps dt (updateProjectiles dt sp)) in *. clearbody su.
  eapply Forall2_powerUpEvolves_trans; [exact Hu |].
  apply (powerUpEvolves_checkCollisions (updateParticles dt (updateAsteroids dt su))).
Qed.

(** X17.  A tick keeps the power-ups: their number, their order, and
    the id, the type and the value of each; collecting a power-up takes
    it off the field, not out of the engine. *)
Theorem power_ups_keep_identity (now dateNow : Q) (st : GameEngine) :
  map (fun pu : PowerUp => (id pu, type pu, value pu)) (powerUps (update now dateNow st)) =
  map (fun pu : PowerUp => (id pu, type pu, value pu)) (powerUps st).
Proof.
  pose proof (powerUpEvolves_update now dateNow st) as H.
  induction H as [| a b l l' (E1 & E2 & E3 & _) H IH]; [reflexivity |].
  cbn [map]. now rewrite E1, E2, E3, IH.
Qed.

Lemma reappears_generatePowerUps st :
  Forall reappears (powerUps st) -> Forall reappears (powerUps (generatePowerUps st)).
Proof.
  intro H. unfold generatePowerUps.
  apply (forLoop_preserves (fun s => Forall reappears (powerUps s))); [| exact H].
  intros i s Hs. cbn [powerUps withPowerUps drawn withRandomIx].
  apply Forall_app. split; [exact Hs |].
  constructor; [| constructor]. now left.
Qed.

(** Only a tick and a reset touch the power-ups. *)
Lemma powerUps_step ev st :
  (forall now dateNow, ev <> Update now dateNow) -> ev <> ResetGame ->
  powerUps (step ev st) = powerUps st.
Proof.
  intros Hev Hr. destruct ev; cbn [step]; try reflexivity.
  - unfold mousedown. destruct (Z.eqb button 0); [| reflexivity].
    now rewrite (combatOnly_powerUps _ _ (combatOnly_handleShooting dateNow _)).
  - unfold mouseup. now destruct (Z.eqb button 0).
  - now contradiction (Hev now dateNow).
  - now contradiction Hr.
  - unfold debugInterval.
    destruct (get name (players st)); [| reflexivity].
    cbv zeta. now destruct (0.95 <? random st 2).
Qed.

(** X18.  No power-up is ever stuck: in every state the engine can
    reach, each power-up is active or has a respawn timer that is
    running (a positive [respawnTime]), so that a later tick puts it back
    on the field. *)
Theorem no_power_up_is_stuck (c : Canvas) (st : GameEngine) :
  inUnitInterval rnd ->
  reachable c st ->
  Forall reappears (powerUps st).
Proof.
  intros Hr H. induction H as [| ev st H IH Ht].
  - unfold constructor. apply reappears_generatePowerUps.
    rewrite powerUps_generateAsteroids. constructor.
  - assert (U : forall now dateNow, Forall reappears (powerUps (update now dateNow st))).
    { intros now dateNow. pose proof (powerUpEvolves_update now dateNow st) as F.
      revert IH. induction F as [| a b l l' (_ & _ & _ & E) F IHF]; intro IH;
        [constructor |].
      inversion IH; subst. constructor; auto. }
    assert (R : Forall reappears (powerUps (resetGame st))).
    { unfold resetGame. cbv zeta. apply reappears_generatePowerUps. exact IH. }
    destruct ev; try exact (U _ _); try exact R;
      match goal with
      | |- Forall reappears (powerUps (step ?ev st)) =>
        rewrite (powerUps_step ev st); [exact IH | intros; discriminate | discriminate]
      end.
Qed.

(** ** The players and the canvas *)

Lemma wrapAround_onCanvas c p :
  0 <= width c -> 0 <= height c -> onCanvas c (position (wrapAround c p)).
Proof.
  intros Hw Hh. unfold wrapAround, onCanvas. cbv zeta.
  destruct (x (position p) <? 0) eqn:X1; cbn [position playerBase onBase withPosition x y];
    [apply ltb_true in X1 | apply ltb_false in X1].
  - rewrite ltb_irrefl. cbn [position playerBase onBase withPosition x y].
    destruct (y (position p) <? 0) eqn:Y1;
      cbn [position playerBase onBase withPosition x y];
      [apply ltb_true in Y1 | apply ltb_false in Y1].
    + rewrite ltb_irrefl. cbn [position playerBase onBase withPosition x y]. lra.
    + destruct (height c <? y (position p)) eqn:Y2;
        cbn [position playerBase onBase withPosition x y];
        [apply ltb_true in Y2 | apply ltb_false in Y2]; lra.
  - destruct (width c <? x (position p)) eqn:X2;
      cbn [position playerBase onBase withPosition x y];
      [apply ltb_true in X2 | apply ltb_false in X2];
      (destruct (y (position p) <? 0) eqn:Y1;
       cbn [position playerBase onBase withPosition x y];
       [apply ltb_true in Y1 | apply ltb_false in Y1];
       [rewrite ltb_irrefl; cbn [position playerBase onBase withPosition x y]; lra |];
       destruct (height c <? y (position p)) eqn:Y2;
       cbn [position playerBase onBase withPosition x y];
       [apply ltb_true in Y2 | apply ltb_false in Y2]; lra).
Qed.

Lemma position_updatePlayer c dt p :
  position (updatePlayer c dt p) = position (wrapAround c (applyDrag (applyPhysics dt p))).
Proof.
  unfold updatePlayer.
  set (q := wrapAround c (applyDrag (applyPhysics dt p))). clearbody q.
  unfold updateCooldowns, regenerate.
  destruct (shield q <? maxShield q); cbn;
    destruct (energy q <? maxEnergy q); cbn;
    destruct (0 <? weaponCooldown q); cbn;
    destruct (0 <? boostCooldown q); reflexivity.
Qed.

Lemma playersOnCanvas_updatePlayers dt dateNow st :
  0 <= width (canvas st) -> 0 <= height (canvas st) ->
  get (localPlayerId st) (players st) <> None ->
  playersOnCanvas (canvas st) (updatePlayers dt dateNow st).
Proof.
  intros Hw Hh Hl. unfold updatePlayers, playersOnCanvas.
  destruct (get (localPlayerId st) (players st)); [| contradiction].
  destruct (entitiesOnly_session _ _
              (combatOnly_entitiesOnly _ _
                 (combatOnly_handlePlayerInput (localPlayerId st) dt dateNow st)))
    as (Ec & _).
  set (s := handlePlayerInput (localPlayerId st) dt dateNow st) in *. clearbody s.
  cbn [players withPlayers]. rewrite Ec. unfold forEachPlayer.
  apply Forall_map. apply Forall_forall. intros kp _. cbn [snd].
  rewrite position_updatePlayer. now apply wrapAround_onCanvas.
Qed.

Lemma position_applyDamage d p : position (applyDamage d p) = position p.
Proof. now destruct (applyDamage_frame d p) as (_ & _ & _ & _ & _ & _ & _ & E & _). Qed.

Lemma playersOnCanvas_handlePlayerHit k pr st :
  inUnitInterval rnd -> 0 <= width (canvas st) -> 0 <= height (canvas st) ->
  playersOnCanvas (canvas st) st ->
  playersOnCanvas (canvas st) (handlePlayerHit k pr st).
Proof.
  intros Hr Hw Hh H. unfold playersOnCanvas in *.
  destruct (get k (players st)) as [p |] eqn:G.
  2: { unfold handlePlayerHit. rewrite G. exact H. }
  rewrite (handlePlayerHit_players k pr st p G). cbv zeta.
  pose proof (Forall_get _ _ _ _ H G) as Hp. cbn [snd] in Hp.
  rewrite <- (position_applyDamage (damage pr) p) in Hp.
  set (p1 := applyDamage (damage pr) p) in *. clearbody p1.
  destruct (health p1 <=? 0).
  - assert (H2 : Forall (fun kp : string * Player =>
                           onCanvas (canvas st) (position (snd kp)))
                        (set k (respawned (canvas st) (randomIx st + 24) p1) (players st))).
    { apply Forall_set; [exact H |]. unfold respawned, onCanvas. cbn.
      destruct (Hr (randomIx st + 24)%nat) as [A0 A1].
      destruct (Hr (S (randomIx st + 24))) as [B0 B1].
      split; now apply scaled_in_range. }
    set (m := set k (respawned (canvas st) (randomIx st + 24) p1) (players st)) in *.
    clearbody m.
    destruct (get (ownerId pr) m) as [killer |] eqn:Gk; [| exact H2].
    apply Forall_set; [exact H2 |].
    exact (Forall_get _ _ _ _ H2 Gk).
  - apply Forall_set; [exact H | exact Hp].
Qed.

Lemma playersOnCanvas_handlePowerUpCollection c k i st :
  playersOnCanvas c st -> playersOnCanvas c (handlePowerUpCollection k i st).
Proof.
  unfold playersOnCanvas, handlePowerUpCollection. intro H.
  destruct (get k (players st)) as [p |] eqn:G; [| exact H].
  destruct (nth_error (powerUps st) i) as [pu |]; [| exact H].
  rewrite (effectsOnly_players _ _ (effectsOnly_collection _ _ _)).
  cbn [players withPlayers withPowerUps]. apply Forall_set; [exact H |].
  pose proof (Forall_get _ _ _ _ H G) as Hp. cbn [snd] in *.
  unfold applyPowerUp. destruct (type pu); exact Hp.
Qed.

Lemma playersOnCanvas_checkCollisions st :
  inUnitInterval rnd -> 0 <= width (canvas st) -> 0 <= height (canvas st) ->
  playersOnCanvas (canvas st) st ->
  playersOnCanvas (canvas st) (checkCollisions st).
Proof.
  intros Hr Hw Hh H.
  apply (checkCollisions_preserves
           (fun s => canvas s = canvas st /\ playersOnCanvas (canvas st) s)).
  - intros k pr j player s [Ec Hs] _ _ _ _.
    destruct (entitiesOnly_session _ _
                (combatOnly_entitiesOnly _ _ (combatOnly_handlePlayerHit k pr s)))
      as (Ec' & _).
    split; [congruence |]. rewrite <- Ec in *.
    now apply playersOnCanvas_handlePlayerHit.
  - intros k i player pu s [Ec Hs] _ _ _ _.
    destruct (entitiesOnly_session _ _ (entitiesOnly_handlePowerUpCollection k i s))
      as (Ec' & _).
    split; [congruence |]. now apply playersOnCanvas_handlePowerUpCollection.
  - intros i s [Ec Hs]. split; [exact Ec | exact Hs].
  - intros pos s [Ec Hs]. unfold playersOnCanvas.
    rewrite (effectsOnly_players _ _ (effectsOnly_explosion pos "orange" s)).
    rewrite (effectsOnly_canvas _ _ (effectsOnly_explosion pos "orange" s)).
    split; [exact Ec | exact Hs].
  - split; [reflexivity | exact H].
Qed.

(** X19.  After a tick of an engine that holds its local player, on a
    canvas of non-negative width and height, every player is on the
    canvas: a player that flew out has been wrapped to the opposite
    border, and a destroyed one respawned inside. *)
Theorem players_stay_on_canvas (now dateNow : Q) (st : GameEngine) (k : string)
    (p : Player) :
  inUnitInterval rnd ->
  0 <= width (canvas st) -> 0 <= height (canvas st) ->
  get (localPlayerId st) (players st) <> None ->
  In (k, p) (players (update now dateNow st)) ->
  onCanvas (canvas st) (position p).
Proof.
  intros Hr Hw Hh Hl Hin.
  assert (H : playersOnCanvas (canvas st) (update now dateNow st)).
  { destruct (update_steps now dateNow st) as (-> & _ & _).
    set (dt := (now - lastUpdate st) / 1000).
    set (st0 := withGameTime (gameTime st + dt) (withLastUpdate now st)).
    pose proof (playersOnCanvas_updatePlayers dt dateNow st0 Hw Hh Hl) as Hp.
    destruct (entitiesOnly_session _ _
                (combatOnly_entitiesOnly _ _ (combatOnly_updatePlayers dt dateNow st0)))
      as (Ec & _).
    change (canvas st0) with (canvas st) in Hp, Ec.
    set (sp := updatePlayers dt dateNow st0) in *. clearbody sp.
    destruct (updatePowerUps_frame dt (updateProjectiles dt sp)) as (l & s' & Eq & E).
    rewrite Eq.
    pose proof (effectsOnly_players _ _ E) as Ep.
    pose proof (effectsOnly_canvas _ _ E) as Ec'.
    cbn [players canvas updateProjectiles withProjectiles] in Ep, Ec'.
    set (s2 := updateParticles dt (updateAsteroids dt (withPowerUps l s'))).
    assert (E2 : canvas s2 = canvas st) by (unfold s2; cbn; congruence).
    assert (P2 : playersOnCanvas (canvas s2) s2).
    { rewrite E2. unfold playersOnCanvas, s2. cbn. rewrite Ep. exact Hp. }
    clearbody s2. rewrite <- E2 in *.
    now apply playersOnCanvas_checkCollisions. }
  unfold playersOnCanvas in H. rewrite Forall_forall in H. exact (H (k, p) Hin).
Qed.

(** ** The store and the statistics *)

Lemma get_None_keys k m : get k m = None -> ~ In k (map fst m).
Proof.
  induction m as [| [k0 p0] m IH]; simpl; [intros _ [] |].
  destruct (String.eqb k k0) eqn:E; [discriminate |].
  apply String.eqb_neq in E. intros G [H | H]; [congruence | now apply IH].
Qed.

Lemma keys_set_absent k v m : get k m = None -> map fst (set k v m) = (map fst m ++ [k])%list.
Proof.
  induction m as [| [k0 p0] m IH]; simpl; [reflexivity |].
  destruct (String.eqb k k0); [discriminate |]. intro G. simpl. now rewrite IH.
Qed.

Lemma registered_set k v m :
  registered m -> registeredPlayer (k, v) -> registered (set k v m).
Proof.
  intros [N F] Hv. split; [| now apply Forall_set].
  destruct (get k m) as [p |] eqn:G.
  - now rewrite (keys_set_present k v p m G).
  - rewrite (keys_set_absent k v m G).
    apply NoDup_app; [exact N | constructor; [intros [] | constructor] |].
    intros a Ha [E | []]. subst a. now apply (get_None_keys k m).
Qed.

Lemma registered_evolve m m' :
  registered m -> playersEvolve False m m' -> registered m'.
Proof.
  intros [N F] [K E]. split; [now rewrite K |].
  apply Forall_forall. intros [k p'] Hin.
  assert (G : get k m' = Some p') by (apply In_get_NoDup; [now rewrite K | exact Hin]).
  destruct (E k p' G) as (p & Gp & E1 & E2 & E3 & E4 & _).
  destruct (Forall_get _ _ _ _ F Gp) as (R1 & R2 & R3 & R4).
  unfold registeredPlayer. cbn [fst snd] in *.
  rewrite E1, E2, E3, E4. auto.
Qed.

Lemma registered_step ev st :
  registered (players st) -> registered (players (step ev st)).
Proof.
  intro R. destruct ev; cbn [step].
  - exact R.
  - exact R.
  - exact R.
  - unfold mousedown. destruct (Z.eqb button 0); [| exact R].
    eapply registered_evolve; [| apply playersEvolve_handleShooting]. exact R.
  - unfold mouseup. destruct (Z.eqb button 0); exact R.
  - eapply registered_evolve; [exact R |].
    apply playersEvolve_update. intros [].
  - exact R.
  - unfold resetGame. cbv zeta.
    match goal with
    | |- context [generatePowerUps ?s] =>
      destruct (generatePowerUps_spec s) as (-> & _)
    end.
    split; constructor.
  - apply registered_set; [exact R |]. repeat split.
  - apply registered_set; [exact R |]. repeat split.
  - apply registered_set; [exact R |]. repeat split.
  - unfold debugInterval.
    destruct (get name (players st)) as [p |] eqn:G; [| exact R].
    cbv zeta.
    assert (R' : registered
                   (set name
                      (onBase (withVelocity
                         (mkVector2D ((random st 0 - 0.5) * 2 * 100)
                                     ((random st 1 - 0.5) * 2 * 100))) p) (players st))).
    { apply registered_set; [exact R |]. exact (Forall_get _ _ _ _ (proj2 R) G). }
    destruct (0.95 <? random st 2); exact R'.
Qed.

Lemma registered_handleNetworkUpdate data st :
  registered (players st) -> registered (players (handleNetworkUpdate data st)).
Proof.
  intro R. unfold handleNetworkUpdate.
  destruct (_ && _); [| exact R].
  destruct (get (NetworkData.playerId data) (players st)) as [p |] eqn:G; [| exact R].
  cbn [players withPlayers]. apply registered_set; [exact R |].
  exact (Forall_get _ _ _ _ (proj2 R) G).
Qed.

Lemma registered_online c st : online c st -> registered (players st).
Proof.
  intro H. induction H as [| ev st H IH | data st H IH].
  - unfold constructor.
    destruct (generatePowerUps_spec (generateAsteroids (emptyEngine c))) as (-> & _).
    unfold generateAsteroids.
    apply (forLoop_preserves (fun s => registered (players s))).
    + intros i s Hs. exact Hs.
    + split; constructor.
  - now apply registered_step.
  - now apply registered_handleNetworkUpdate.
Qed.

Lemma online_run c evs st : online c st -> online c (run evs st).
Proof.
  revert st. induction evs as [| ev evs IH]; intros st H; [exact H |].
  rewrite run_cons. apply IH. now apply online_step.
Qed.

Lemma round_range q : 0 <= q -> q <= 100 -> (0 <= round q <= 100)%Z.
Proof.
  intros H0 H1. unfold round. split.
  - change 0%Z with (Qfloor 0.5). apply Qfloor_resp_le. lra.
  - change 100%Z with (Qfloor 100.5). apply Qfloor_resp_le. lra.
Qed.

(** X20.  The statistics of an engine, in every state it can be in
    through events at any clock readings and inbound messages of any
    content: one row for each player of the store, in its order and under
    its key, no id twice; the row of the local player, and no other, is
    named ["You"]; and the row of a player that is within its bounds
    shows health, shield and energy as whole numbers from 0 to 100 (a
    message can put a player out of its bounds, and its row with it). *)
Theorem statistics_of_an_online_engine (c : Canvas) (st : GameEngine) :
  online c st ->
  let rows := GameStats.players (getGameStats st) in
  map PlayerStats.id rows = map fst (players st) /\
  NoDup (map PlayerStats.id rows) /\
  Forall (rowNamed (localPlayerId st)) rows /\
  Forall (fun kp : string * Player =>
            bounded (snd kp) -> rowInRange (playerStats (localPlayerId st) (snd kp)))
         (players st).
Proof.
  intros H rows.
  destruct (registered_online c st H) as [N F].
  assert (E : map PlayerStats.id rows = map fst (players st)).
  { unfold rows, getGameStats. cbn [GameStats.players]. rewrite map_map.
    apply map_ext_Forall. revert F. apply Forall_impl.
    intros kp (E & _). exact E. }
  split; [exact E |]. split; [now rewrite E |]. split.
  - unfold rows, getGameStats. cbn [GameStats.players].
    apply Forall_map. apply Forall_forall. intros kp _.
    unfold rowNamed, playerStats. cbn [PlayerStats.name PlayerStats.id].
    destruct (String.eqb (playerId (snd kp)) (localPlayerId st)) eqn:Q.
    + apply String.eqb_eq in Q. split; [intros _; exact Q | reflexivity].
    + apply String.eqb_neq in Q. split; [discriminate | contradiction].
  - revert F. apply Forall_impl.
    intros kp (_ & M1 & M2 & M3) ((H0 & H1) & (S0 & S1) & (E0 & E1)).
    rewrite M1 in H1. rewrite M2 in S1. rewrite M3 in E1.
    unfold rowInRange, playerStats.
    cbn [PlayerStats.health PlayerStats.shield PlayerStats.energy].
    split; [| split]; now apply round_range.
Qed.

(** ** Friendly fire *)

Lemma unharmed_applyPowerUp (pu : PowerUp) (p p' : Player) :
  0 <= value pu ->
  health p' <= maxHealth p' -> shield p' <= maxShield p' ->
  unharmed p p' ->
  unharmed p (applyPowerUp pu p') /\
  health (applyPowerUp pu p') <= maxHealth (applyPowerUp pu p') /\
  shield (applyPowerUp pu p') <= maxShield (applyPowerUp pu p').
Proof.
  intros Hv H1 S1 (U1 & U2 & U3 & U4 & U5).
  unfold applyPowerUp, unharmed.
  destruct (type pu); cbn; repeat (split; [assumption |]); try assumption;
    repeat match goal with
    | |- _ /\ _ => split
    end; try assumption; cases_min; lra.
Qed.

(** X21.  A projectile never harms the player who fired it.  When all
    the projectiles of the engine were fired by one player, whose health
    and shield are not above their maxima, and no power-up has a negative
    value, the collision pass leaves that player in the store, not
    destroyed and not moved, with no less shield and health than
    before. *)
Theorem own_projectiles_do_no_harm (st : GameEngine) (k : string) (p : Player) :
  valuesOk st ->
  ownedBy (playerId p) st ->
  get k (players st) = Some p ->
  health p <= maxHealth p ->
  shield p <= maxShield p ->
  exists p', get k (players (checkCollisions st)) = Some p' /\ unharmed p p'.
Proof.
  intros HV HO G H1 S1.
  assert (U0 : unharmed p p).
  { unfold unharmed. repeat (split; [reflexivity |]). split; apply Qle_refl. }
  assert (H : valuesOk (checkCollisions st) /\ ownedBy (playerId p) (checkCollisions st) /\
              exists p', get k (players (checkCollisions st)) = Some p' /\ unharmed p p' /\
                         health p' <= maxHealth p' /\ shield p' <= maxShield p').
  2: { destruct H as (_ & _ & p' & Gp & U & _). now exists p'. }
  apply (checkCollisions_preserves
           (fun s => valuesOk s /\ ownedBy (playerId p) s /\
                     exists p', get k (players s) = Some p' /\ unharmed p p' /\
                                health p' <= maxHealth p' /\ shield p' <= maxShield p')).
  - intros k' pr j player s (Vs & Os & p' & Gp & U & C) N Gk Hown _.
    assert (Ho : ownerId pr = playerId p) by exact (Forall_nth_error _ _ _ _ Os N).
    assert (Hk : k <> k').
    { intros <-. rewrite Gp in Gk. injection Gk as <-.
      apply Hown. rewrite Ho. symmetry. exact (proj1 U). }
    split.
    { unfold valuesOk.
      now rewrite (combatOnly_powerUps _ _ (combatOnly_handlePlayerHit k' pr s)). }
    split; [unfold ownedBy; now rewrite projectiles_handlePlayerHit |].
    rewrite (handlePlayerHit_players k' pr s player Gk). cbv zeta.
    set (p1 := applyDamage (damage pr) player). clearbody p1.
    destruct (health p1 <=? 0).
    + assert (Gm : get k (set k' (respawned (canvas s) (randomIx s + 24) p1) (players s))
                   = Some p').
      { rewrite get_set_other by exact Hk. exact Gp. }
      set (m := set k' (respawned (canvas s) (randomIx s + 24) p1) (players s)) in *.
      clearbody m.
      destruct (get (ownerId pr) m) as [killer |] eqn:Gkiller; [| now exists p'].
      destruct (String.eqb k (ownerId pr)) eqn:E.
      * apply String.eqb_eq in E. subst k. rewrite Gm in Gkiller. injection Gkiller as <-.
        exists (credited p'). split; [apply get_set_same |]. split; [exact U | exact C].
      * apply String.eqb_neq in E. exists p'.
        split; [now rewrite get_set_other | split; [exact U | exact C]].
    + exists p'. split; [now rewrite get_set_other | split; [exact U | exact C]].
  - intros k' i player pu s (Vs & Os & p' & Gp & U & C1 & C2) Gk N _ _.
    split.
    { unfold valuesOk, handlePowerUpCollection. rewrite Gk, N.
      rewrite (effectsOnly_powerUps _ _ (effectsOnly_collection _ _ _)).
      cbn [powerUps withPowerUps withPlayers drawn withRandomIx].
      apply Forall_updateAt; [| exact Vs]. intros a Ha. exact Ha. }
    split; [unfold ownedBy; now rewrite projectiles_handlePowerUpCollection |].
    unfold handlePowerUpCollection. rewrite Gk, N.
    rewrite (effectsOnly_players _ _ (effectsOnly_collection _ _ _)).
    cbn [players withPlayers withPowerUps drawn withRandomIx].
    destruct (String.eqb k k') eqn:E.
    + apply String.eqb_eq in E. subst k'. rewrite Gp in Gk. injection Gk as <-.
      exists (applyPowerUp pu p'). split; [apply get_set_same |].
      apply unharmed_applyPowerUp; try assumption.
      exact (Forall_nth_error _ _ _ _ Vs N).
    + apply String.eqb_neq in E. exists p'.
      split; [now rewrite get_set_other | split; [exact U | split; assumption]].
  - intros i s (Vs & Os & Hp).
    split; [exact Vs |]. split; [| exact Hp].
    unfold ownedBy. cbn [projectiles withProjectiles]. now apply Forall_splice1.
  - intros pos s (Vs & Os & Hp).
    pose proof (effectsOnly_explosion pos "orange" s) as E.
    split; [unfold valuesOk; now rewrite (effectsOnly_powerUps _ _ E) |].
    split; [unfold ownedBy; now rewrite (effectsOnly_projectiles _ _ E) |].
    now rewrite (effectsOnly_players _ _ E).
  - split; [exact HV |]. split; [exact HO |]. exists p. auto.
Qed.

(** ** A whole tick, player by player *)

Lemma drives_set k v p m : get k m = Some p -> drive v = drive p -> drives (set k v m) = drives m.
Proof.
  intros G D. induction m as [| [k0 p0] m IH]; simpl in *; [discriminate |].
  destruct (String.eqb k k0) eqn:E; simpl.
  - apply String.eqb_eq in E. subst k0. injection G as ->. now rewrite D.
  - now rewrite IH.
Qed.

Lemma get_projected {A} (f : Player -> A) m m' k p :
  map (fun kp => (fst kp, f (snd kp))) m = map (fun kp => (fst kp, f (snd kp))) m' ->
  get k m = Some p ->
  exists p', get k m' = Some p' /\ f p' = f p.
Proof.
  revert m'. induction m as [| [k0 p0] m IH]; intros [| [k1 p1] m'] E G;
    cbn [map get fst snd] in *; try discriminate.
  injection E as Ek Ed Em. subst k1.
  destruct (String.eqb k k0).
  - injection G as <-. exists p1. split; [reflexivity | now symmetry].
  - now apply IH.
Qed.

Lemma drives_get m m' k p :
  drives m = drives m' -> get k m = Some p ->
  exists p', get k m' = Some p' /\ drive p' = drive p.
Proof. apply get_projected. Qed.

Lemma drive_eq p q :
  drive p = drive q ->
  velocity p = velocity q /\ weaponCooldown p = weaponCooldown q /\
  boostCooldown p = boostCooldown q.
Proof.
  intro H. split; [exact (f_equal (fun t => fst (fst t)) H) |].
  split; [exact (f_equal (fun t => snd (fst t)) H) | exact (f_equal snd H)].
Qed.

Lemma drive_applyDamage d p : drive (applyDamage d p) = drive p.
Proof.
  unfold applyDamage.
  destruct (0 <? shield p); [destruct (0 <? d - Qmin (shield p) d) | destruct (0 <? d)];
    reflexivity.
Qed.

Lemma drives_handlePlayerHit k pr st :
  drives (players (handlePlayerHit k pr st)) = drives (players st).
Proof.
  destruct (get k (players st)) as [p |] eqn:G.
  2: { unfold handlePlayerHit. now rewrite G. }
  rewrite (handlePlayerHit_players k pr st p G). cbv zeta.
  pose proof (drive_applyDamage (damage pr) p) as D.
  set (p1 := applyDamage (damage pr) p) in *. clearbody p1.
  destruct (health p1 <=? 0).
  - assert (Hm : drives (set k (respawned (canvas st) (randomIx st + 24) p1) (players st))
                 = drives (players st)).
    { apply drives_set with p; [exact G | exact D]. }
    set (m := set k (respawned (canvas st) (randomIx st + 24) p1) (players st)) in *.
    clearbody m.
    destruct (get (ownerId pr) m) as [killer |] eqn:Gk; [| exact Hm].
    rewrite <- Hm. now apply drives_set with killer.
  - now apply drives_set with p.
Qed.

Lemma drives_handlePowerUpCollection k i st :
  drives (players (handlePowerUpCollection k i st)) = drives (players st).
Proof.
  unfold handlePowerUpCollection.
  destruct (get k (players st)) as [p |] eqn:G; [| reflexivity].
  destruct (nth_error (powerUps st) i) as [pu |]; [| reflexivity].
  rewrite (effectsOnly_players _ _ (effectsOnly_collection _ _ _)).
  cbn [players withPlayers withPowerUps drawn withRandomIx].
  apply drives_set with p; [exact G |].
  unfold applyPowerUp. now destruct (type pu).
Qed.

Lemma drives_checkCollisions st :
  drives (players (checkCollisions st)) = drives (players st).
Proof.
  apply (checkCollisions_preserves (fun s => drives (players s) = drives (players st))).
  - intros k pr j player s Hs _ _ _ _. now rewrite drives_handlePlayerHit.
  - intros k i player pu s Hs _ _ _ _. now rewrite drives_handlePowerUpCollection.
  - intros i s Hs. exact Hs.
  - intros pos s Hs. now rewrite (effectsOnly_players _ _ (effectsOnly_explosion _ _ _)).
  - reflexivity.
Qed.

(** The players the collision pass of a tick starts from are the ones
    [updatePlayers] left. *)
Lemma players_before_collisions dt sp :
  players (updateParticles dt (updateAsteroids dt
             (updatePowerUps dt (updateProjectiles dt sp)))) = players sp.
Proof.
  destruct (updatePowerUps_frame dt (updateProjectiles dt sp)) as (l & s' & -> & E).
  cbn [players updateParticles updateAsteroids withParticles withAsteroids withPowerUps].
  now rewrite (effectsOnly_players _ _ E).
Qed.

Lemma drives_update now dateNow st :
  drives (players (update now dateNow st)) =
  drives (players (updatePlayers ((now - lastUpdate st) / 1000) dateNow (ticking now st))).
Proof.
  destruct (update_steps now dateNow st) as (-> & _ & _).
  rewrite drives_checkCollisions. now rewrite players_before_collisions.
Qed.

Lemma get_updatePlayers dt dateNow st k :
  get (localPlayerId st) (players st) <> None ->
  get k (players (updatePlayers dt dateNow st)) =
    option_map (updatePlayer (canvas st) dt)
               (get k (players (handlePlayerInput (localPlayerId st) dt dateNow st))).
Proof.
  intro L. unfold updatePlayers.
  destruct (get (localPlayerId st) (players st)); [| contradiction].
  destruct (entitiesOnly_session _ _
              (combatOnly_entitiesOnly _ _
                 (combatOnly_handlePlayerInput (localPlayerId st) dt dateNow st)))
    as (Ec & _).
  cbn [players withPlayers]. rewrite Ec. apply get_forEachPlayer.
Qed.

Lemma wrapAround_position c p :
  x (position (wrapAround c p)) = wrappedInto (width c) (x (position p)) /\
  y (position (wrapAround c p)) = wrappedInto (height c) (y (position p)).
Proof.
  unfold wrapAround, wrappedInto. cbv zeta.
  destruct (x (position p) <? 0); cbn [position playerBase onBase withPosition x y].
  - rewrite ltb_irrefl. cbn [position playerBase onBase withPosition x y].
    destruct (y (position p) <? 0); cbn [position playerBase onBase withPosition x y].
    + rewrite ltb_irrefl. split; reflexivity.
    + destruct (height c <? y (position p)); split; reflexivity.
  - destruct (width c <? x (position p));
      cbn [position playerBase onBase withPosition x y];
      (destruct (y (position p) <? 0); cbn [position playerBase onBase withPosition x y];
       [rewrite ltb_irrefl; split; reflexivity |];
       destruct (height c <? y (position p)); split; reflexivity).
Qed.

Lemma weaponCooldown_movementAndBoost player dt st :
  weaponCooldown (fst (movementAndBoost player dt st)) = weaponCooldown player.
Proof.
  rewrite movementAndBoost_fst.
  destruct (movementKeys_spec player dt st) as (_ & _ & _ & _ & Hw & _).
  now destruct (has "Space" (keys st) && (20 <? energy player)
                && (boostCooldown player <=? 0)).
Qed.

Lemma localPlayerId_update now dateNow st :
  localPlayerId (update now dateNow st) = localPlayerId st.
Proof.
  destruct (update_steps now dateNow st) as (-> & E1 & E2).
  destruct (entitiesOnly_session _ _ E2) as (_ & _ & _ & _ & _ & -> & _).
  cbn [localPlayerId updateParticles updateAsteroids withParticles withAsteroids].
  now destruct (entitiesOnly_session _ _ E1) as (_ & _ & _ & _ & _ & -> & _).
Qed.

(** C4 (as amended).  [handleShooting] fires exactly when the local
    player is in the store with [weaponCooldown <= 0] and [energy >= 10].
    It then appends one projectile (damage 25, lifetime 3, velocity 400
    along the player's heading, at the player's position, owned by the
    player), sets the cooldown to 0.2 and takes 10 from the energy.
    Otherwise it changes nothing at all.  A second call right after any
    call changes nothing.  The cooldown is counted down by the ticks, not
    by the clock: a tick that starts with a positive cooldown fires
    nothing in its input handling and leaves the cooldown less the tick's
    [deltaTime], and a call after the tick fires nothing as long as that
    difference is positive. *)
Theorem fire_gating (dateNow dateNow' now : Q) (st : GameEngine) :
  match get (localPlayerId st) (players st) with
  | Some player =>
    if (weaponCooldown player <=? 0) && (10 <=? energy player)
    then
      exists (projectile : Projectile) (player' : Player),
        projectiles (handleShooting dateNow st) = (projectiles st ++ [projectile])%list /\
        damage projectile = 25 /\
        lifetime projectile = 3 /\
        velocity projectile =
          mkVector2D (cos (rotation player) * 400) (sin (rotation player) * 400) /\
        position projectile = position player /\
        ownerId projectile = playerId player /\
        get (localPlayerId st) (players (handleShooting dateNow st)) = Some player' /\
        weaponCooldown player' = 0.2 /\
        energy player' = energy player - 10
    else handleShooting dateNow st = st
  | None => handleShooting dateNow st = st
  end /\
  handleShooting dateNow' (handleShooting dateNow st) = handleShooting dateNow st /\
  (forall player,
     get (localPlayerId st) (players st) = Some player ->
     0 < weaponCooldown player ->
     let dt := (now - lastUpdate st) / 1000 in
     projectiles (updatePlayers dt dateNow (ticking now st)) = projectiles st /\
     exists player',
       get (localPlayerId st) (players (update now dateNow st)) = Some player' /\
       weaponCooldown player' = weaponCooldown player - dt /\
       (0 < weaponCooldown player - dt ->
        handleShooting dateNow' (update now dateNow st) = update now dateNow st)).
Proof.
  split; [| split].
  - destruct (get (localPlayerId st) (players st)) as [player |] eqn:G.
    2: { unfold handleShooting. now rewrite G. }
    unfold leb.
    destruct ((0 <? weaponCooldown player) || (energy player <? 10)) eqn:B.
    + rewrite <- negb_orb, B. cbn [negb].
      exact (handleShooting_blocked dateNow st player G B).
    + rewrite <- negb_orb, B. cbn [negb].
      apply orb_false_iff in B. destruct B as [Ew Ee].
      rewrite (handleShooting_fires dateNow st player G Ew Ee).
      match goal with
      | |- context [addMuzzleFlashParticles ?p ?s] =>
        pose proof (effectsOnly_muzzle p s) as E
      end.
      exists (shot dateNow st player), (afterShot player).
      rewrite (effectsOnly_projectiles _ _ E), (effectsOnly_players _ _ E).
      simpl. rewrite get_set_same.
      repeat split; reflexivity.
  - destruct (get (localPlayerId st) (players st)) as [player |] eqn:G.
    2: { assert (N : forall d, handleShooting d st = st)
           by (intro d; unfold handleShooting; now rewrite G).
         now rewrite !N. }
    destruct ((0 <? weaponCooldown player) || (energy player <? 10)) eqn:B.
    + pose proof (handleShooting_blocked dateNow st player G B) as N.
      rewrite N. exact (handleShooting_blocked dateNow' st player G B).
    + apply orb_false_iff in B. destruct B as [Ew Ee].
      rewrite (handleShooting_fires dateNow st player G Ew Ee).
      match goal with
      | |- context [addMuzzleFlashParticles ?p ?s] =>
        pose proof (effectsOnly_muzzle p s) as E
      end.
      apply handleShooting_blocked with (afterShot player).
      * rewrite (effectsOnly_localPlayerId _ _ E), (effectsOnly_players _ _ E).
        simpl. apply get_set_same.
      * reflexivity.
  - intros player G Hw dt.
    assert (G0 : get (localPlayerId (ticking now st)) (players (ticking now st))
                 = Some player) by exact G.
    destruct (handlePlayerInput_local dt dateNow (ticking now st) player G0)
      as (p2 & G2 & _ & _ & _ & W2 & P2).
    cbv zeta in W2, P2.
    rewrite (weaponCooldown_movementAndBoost player dt (ticking now st)) in W2, P2.
    assert (B : (weaponCooldown player <=? 0) = false) by (apply leb_false; exact Hw).
    rewrite B in W2, P2. rewrite andb_false_r in W2, P2. cbn [andb] in W2, P2.
    specialize (P2 eq_refl).
    assert (L0 : get (localPlayerId (ticking now st)) (players (ticking now st)) <> None)
      by (rewrite G0; discriminate).
    pose proof (get_updatePlayers dt dateNow (ticking now st)
                  (localPlayerId (ticking now st)) L0) as Gu.
    rewrite G2 in Gu. cbn [option_map] in Gu.
    split.
    + unfold updatePlayers. rewrite G0. cbn [projectiles withPlayers]. exact P2.
    + destruct (drives_get _ _ _ _ (eq_sym (drives_update now dateNow st)) Gu)
        as (p' & Gp & D).
      change (localPlayerId (ticking now st)) with (localPlayerId st) in Gp.
      exists p'. split; [exact Gp |].
      apply drive_eq in D. destruct D as (_ & Dw & _).
      destruct (updatePlayer_cooldowns (canvas (ticking now st)) dt p2) as [Cw _].
      rewrite W2 in Cw. rewrite (proj2 (ltb_true _ _) Hw) in Cw.
      assert (Ew : weaponCooldown p' = weaponCooldown player - dt) by congruence.
      split; [exact Ew |].
      intro Hpos. apply handleShooting_blocked with p'.
      * now rewrite localPlayerId_update.
      * rewrite Ew. now rewrite (proj2 (ltb_true _ _) Hpos).
Qed.

(** C8 (as amended).  In every tick each asteroid is moved by its
    velocity at the 60x time-scale (and wrapped with a margin of its
    size), and its velocity is left as it was: no drag is applied to
    asteroids.  The drag factor 0.98 is applied to players only.  In a
    tick in which the local player is in the store, each player [p1]
    that [updatePlayers] leaves is the player [p0] that the tick's input
    handling left, moved by the velocity of [p0] at the 60x time-scale
    and wrapped at the borders, with 0.98 times the velocity of [p0]: the
    drag comes after the integration; the rest of the tick does not touch
    the velocity.  In a tick without the local player [updatePlayers]
    does nothing and every player keeps its velocity. *)
Theorem asteroids_keep_their_velocity (now dateNow : Q) (st : GameEngine) :
  let dt := (now - lastUpdate st) / 1000 in
  asteroids (update now dateNow st) = map (updateAsteroid (canvas st) dt) (asteroids st) /\
  (forall c a,
     velocity (updateAsteroid c dt a) = velocity a /\
     x (position (updateAsteroid c dt a)) =
       wrapped (width c) (size a) (x (position a) + x (velocity a) * dt * 60) /\
     y (position (updateAsteroid c dt a)) =
       wrapped (height c) (size a) (y (position a) + y (velocity a) * dt * 60)) /\
  (get (localPlayerId st) (players st) <> None ->
   forall k p',
     get k (players (update now dateNow st)) = Some p' ->
     exists p0 p1,
       get k (players (handlePlayerInput (localPlayerId st) dt dateNow (ticking now st)))
         = Some p0 /\
       get k (players (updatePlayers dt dateNow (ticking now st))) = Some p1 /\
       x (position p1) =
         wrappedInto (width (canvas st)) (x (position p0) + x (velocity p0) * dt * 60) /\
       y (position p1) =
         wrappedInto (height (canvas st)) (y (position p0) + y (velocity p0) * dt * 60) /\
       velocity p1 = mkVector2D (x (velocity p0) * 0.98) (y (velocity p0) * 0.98) /\
       velocity p' = velocity p1) /\
  (get (localPlayerId st) (players st) = None ->
   updatePlayers dt dateNow (ticking now st) = ticking now st /\
   forall k p',
     get k (players (update now dateNow st)) = Some p' ->
     exists p, get k (players st) = Some p /\ velocity p' = velocity p).
Proof.
  intro dt. split; [apply asteroids_update |]. split; [| split].
  - intros c a. apply updateAsteroid_spec.
  - intros L k p' Gp.
    destruct (drives_get _ _ _ _ (drives_update now dateNow st) Gp) as (p1 & G1 & D).
    fold dt in G1.
    assert (L0 : get (localPlayerId (ticking now st)) (players (ticking now st)) <> None)
      by exact L.
    pose proof (get_updatePlayers dt dateNow (ticking now st) k L0) as Gu.
    rewrite G1 in Gu.
    change (localPlayerId (ticking now st)) with (localPlayerId st) in Gu.
    destruct (get k (players (handlePlayerInput (localPlayerId st) dt dateNow
                                (ticking now st)))) as [p0 |]; [| discriminate].
    cbn [option_map] in Gu. injection Gu as Gu.
    exists p0, p1. split; [reflexivity |]. split; [exact G1 |].
    apply drive_eq in D. destruct D as (Dv & _).
    clear G1 Gp. subst p1. rewrite position_updatePlayer.
    destruct (wrapAround_position (canvas st) (applyDrag (applyPhysics dt p0)))
      as [-> ->].
    split; [reflexivity |]. split; [reflexivity |].
    split; [apply updatePlayer_velocity | now symmetry].
  - intro L. split; [now apply updatePlayers_without_local |].
    intros k p' Gp.
    destruct (drives_get _ _ _ _ (drives_update now dateNow st) Gp) as (p1 & G1 & D).
    fold dt in G1. rewrite (updatePlayers_without_local dt dateNow (ticking now st) L) in G1.
    exists p1. split; [exact G1 |].
    apply drive_eq in D. destruct D as (Dv & _). now symmetry.
Qed.

End Engine.

(** * Concrete engines

    The parameters of the development are instantiated to evaluate the
    engine: the headings of the examples are all 0, where the cosine is 1
    and the sine 0, and [Math.random()] returns a constant. *)

Definition cosAt0 (_ : Q) : Q := 1.

Definition sinAt0 (_ : Q) : Q := 0.

Definition atan2At0 (_ _ : Q) : Q := 0.

Definition pi : Q := 3.141592653589793.

Definition half (_ : nat) : Q := 0.5.

Definition high (_ : nat) : Q := 0.96.

Definition arena : Canvas := mkCanvas 800 600.

(** A player named [name] at [(px, py)], heading 0 and at rest, with the
    given shield, health and energy out of 100, and the given cooldowns. *)
Definition fighter (name : string) (px py sh he en wc bc : Q) : Player :=
  mkPlayer (mkGameObject (Name name) (mkVector2D px py) (mkVector2D 0 0) 0 he 100 true)
           name 0 0 0 sh 100 en 100 wc bc.

(** A projectile of [owner] at [(px, py)], at rest, with the given damage. *)
Definition bullet (owner : string) (px py dmg : Q) : Projectile :=
  mkProjectile
    (mkGameObject (ProjectileId 0 0) (mkVector2D px py) (mkVector2D 0 0) 0 1 1 true)
    owner dmg 3.

(** An asteroid at rest at [(px, py)]. *)
Definition rock (i : nat) (px py sz : Q) : Asteroid :=
  mkAsteroid (mkGameObject (AsteroidId i) (mkVector2D px py) (mkVector2D 0 0) 0 50 50 true)
             sz 0.

(** The player stored at [k], or a player of zeros. *)
Definition playerAt (k : string) (st : GameEngine) : Player :=
  match get k (players st) with
  | Some p => p
  | None => fighter "" 0 0 0 0 0 0 0
  end.

(** Whether [p] is within distance 20 of the player stored at [k]. *)
Definition inReachOf (k : string) (st : GameEngine) (p : Projectile) : bool :=
  distanceLt (position (playerAt k st)) (position p) 20.

(** An engine on [arena] holding the given players and projectiles,
    whose local player is ["a"]. *)
Definition engineWith (ps : list (string * Player)) (prs : list Projectile)
    (ks : list string) : GameEngine :=
  mkGameEngine arena ps prs [] [] [] 0 0 true "a" ks (Mouse.mk 0 0 false) 0.

(** A host joins, starts the game, fires once and lives through a tick
    0.3 seconds later. *)
Definition firstTick : GameEngine :=
  run cosAt0 sinAt0 atan2At0 half
    [InitializeAsHost "host"; StartGame 0; Mousedown 0 0; Update 300 300]
    (constructor pi half arena).

(** The host fires at 290 ms; the tick at 300 ms, the first after the
    start at 0, takes 0.3 seconds from the cooldown of 0.2; the host
    fires again at 301 ms. *)
Definition rapidFire : GameEngine :=
  run cosAt0 sinAt0 atan2At0 half
    [InitializeAsHost "host"; StartGame 0; Mousedown 0 290; Update 300 300;
     Mousedown 0 301]
    (constructor pi half arena).

(** The example of the specification: shield 30, health 100, damage 50. *)
Definition duel : GameEngine :=
  engineWith [("a", fighter "a" 100 300 30 100 100 0 0);
              ("b", fighter "b" 700 300 100 100 100 0 0)]
             [bullet "b" 105 300 50] [].

(** A player without shield and with a health of 20 about to be hit by a
    damage of 25. *)
Definition lastStand : GameEngine :=
  engineWith [("a", fighter "a" 100 300 0 20 40 0 0);
              ("b", fighter "b" 700 300 100 100 100 0 0)]
             [bullet "b" 105 300 25] [].

(** Two debug players stand on the same spot; the second fires twice
    before the next tick, so that two of its projectiles are within reach
    of the first. *)
Definition twoShots : GameEngine :=
  run cosAt0 sinAt0 atan2At0 high
    [AddDebugPlayer "bot1"; AddDebugPlayer "bot2";
     DebugInterval "bot2" 0; DebugInterval "bot2" 0]
    (constructor pi high arena).

(** The tick after [twoShots], 16 ms later, up to [checkCollisions]. *)
Definition beforeCollisions : GameEngine :=
  updateParticles 0.016 (updateAsteroids 0.016
    (updatePowerUps high 0.016 (updateProjectiles 0.016
       (updatePlayers cosAt0 sinAt0 atan2At0 high 0.016 16
          (withGameTime 0.016 (withLastUpdate 16 twoShots)))))).

Definition afterCollisions : GameEngine := checkCollisions high beforeCollisions.

(** A projectile inside two overlapping asteroids, followed in the array
    by a projectile far from both. *)
Definition belt : GameEngine :=
  withAsteroids [rock 0 400 300 30; rock 1 410 300 30]
    (engineWith [] [bullet "a" 405 300 25; bullet "a" 100 100 25] []).

(** The local player with a weapon cooldown of 0.1. *)
Definition cooling : GameEngine :=
  engineWith [("a", fighter "a" 100 300 100 100 100 0.1 0)] [] [].

(** The local player at rest with [Space] held. *)
Definition boosting : GameEngine :=
  engineWith [("a", fighter "a" 100 300 100 100 100 0 0)] [] ["Space"].

(** The same with the mouse button held: the boost and a shot in one
    call of the input handling. *)
Definition boostingAndFiring : GameEngine := withMouse (Mouse.mk 0 0 true) boosting.

(** A started engine whose asteroids all move at 0.92 along both axes. *)
Definition drifting : GameEngine :=
  run cosAt0 sinAt0 atan2At0 high
    [InitializeAsHost "host"; StartGame 0] (constructor pi high arena).

(** The local player with half its energy and a remote player with half
    its shield. *)
Definition skirmish : GameEngine :=
  engineWith [("a", fighter "a" 100 300 100 100 50 0 0);
              ("b", fighter "b" 700 300 50 100 100 0 0)] [] [].

(** Two debug players on the same spot and no local player; the second
    has fired and a tick has let its projectile hit the first. *)
Definition afterHit : GameEngine :=
  run cosAt0 sinAt0 atan2At0 high
    [AddDebugPlayer "bot1"; AddDebugPlayer "bot2"; DebugInterval "bot2" 0; Update 16 16]
    (constructor pi high arena).

(** A message of another type; the engine reads its [type] only. *)
Definition ping : NetworkData.t :=
  NetworkData.mk "ping" "b" (mkVector2D 0 0) 0 0 0 0.

(** The update of player ["b"]: moved to (650, 300), with health 80,
    shield 40 and energy 60. *)
Definition report : NetworkData.t :=
  NetworkData.mk "playerUpdate" "b" (mkVector2D 650 300) 0 80 40 60.

(** The update [skirmish] sends about its local player ["a"]. *)
Definition dispatch : NetworkData.t :=
  NetworkData.mk "playerUpdate" "a" (mkVector2D 100 300) 0 100 100 50.

(** The engine of the other side: [duel], seen by player ["b"]. *)
Definition peer : GameEngine := withLocalPlayerId "b" duel.

(** A message that puts player ["bot1"] at a health of 500. *)
Definition overdose : NetworkData.t :=
  NetworkData.mk "playerUpdate" "bot1" (mkVector2D 0 0) 0 500 40 60.

(** A host and a debug player, and the message [overdose] received. *)
Definition flooded : GameEngine :=
  handleNetworkUpdate overdose
    (run cosAt0 sinAt0 atan2At0 half
       [InitializeAsHost "host"; AddDebugPlayer "bot1"] (constructor pi half arena)).

(** A weapon power-up worth 30 points where player ["b"] stands. *)
Definition prize : PowerUp :=
  mkPowerUp (mkGameObject (PowerUpId 0) (mkVector2D 700 300) (mkVector2D 0 0) 0 1 1 true)
            weapon_t 30 0.

(** [lastStand] with the prize on the field: in the next tick ["a"] is
    destroyed by the projectile of ["b"], and ["b"] collects the prize. *)
Definition showdown : GameEngine := withPowerUps [prize] lastStand.

(** [showdown] with 1000 points for ["a"]: a game that is finished. *)
Definition decided : GameEngine :=
  withPlayers [("a", withScore 1000 (fighter "a" 100 300 0 20 40 0 0));
               ("b", fighter "b" 700 300 100 100 100 0 0)] showdown.

(** The tick after [showdown], 16 ms later. *)
Definition afterShowdown : GameEngine := update cosAt0 sinAt0 atan2At0 half 16 16 showdown.

(** Decides a closed comparison of rationals. *)
Ltac closed_order := vm_compute; first [reflexivity | intros; discriminate].

(** Player ["a"] has fired twice: one projectile is still next to it,
    the other next to ["b"], who has no shield and a health of 20. *)
Definition crossfire : GameEngine :=
  engineWith [("a", fighter "a" 100 300 100 100 100 0 0);
              ("b", fighter "b" 700 300 0 20 100 0 0)]
             [bullet "a" 105 300 25; bullet "a" 705 300 25] [].

(** Decides a closed [timelyRun]. *)
Ltac timely_by_computation :=
  vm_compute; repeat split; try exact I; intros; discriminate.

(** Decides a conjunction of closed equations by evaluation. *)
Ltac by_computation :=
  repeat match goal with
  | |- _ /\ _ => split
  end; vm_compute; reflexivity.

(** * The properties at the concrete engines *)

Lemma half_inUnitInterval : inUnitInterval half.
Proof.
  intro n. split; [intro H; discriminate H | reflexivity].
Defined.

Lemma firstTick_reachable : reachable cosAt0 sinAt0 atan2At0 pi half arena firstTick.
Proof.
  apply reachable_run; [apply reachable_new | timely_by_computation].
Defined.

(** C1 at [firstTick]: the host, who has fired, is within bounds. *)
Lemma resource_bounds_hold_witness :
  0 <= health (playerAt "host" firstTick) <= maxHealth (playerAt "host" firstTick) /\
  0 <= shield (playerAt "host" firstTick) <= maxShield (playerAt "host" firstTick) /\
  0 <= energy (playerAt "host" firstTick) <= maxEnergy (playerAt "host" firstTick).
Proof.
  apply (resource_bounds_hold cosAt0 sinAt0 atan2At0 pi half arena firstTick "host").
  - exact half_inUnitInterval.
  - exact firstTick_reachable.
  - apply get_In. vm_compute. reflexivity.
Defined.

(** C2 at [duel]: shield 30 and health 100 become 0 and 80. *)
Lemma shield_absorbs_before_health_witness :
  exists p',
    get "a" (players (handlePlayerHit half "a" (bullet "b" 105 300 50) duel)) = Some p' /\
    shield p' == 0 /\ health p' == 80.
Proof.
  destruct (shield_absorbs_before_health half "a"
              (fighter "a" 100 300 30 100 100 0 0) (bullet "b" 105 300 50) duel)
    as (p' & G & _ & _ & Ex).
  - reflexivity.
  - intro H. discriminate H.
  - intro H. discriminate H.
  - reflexivity.
  - exists p'. split; [exact G | apply Ex; reflexivity].
Defined.

(** C3 at [lastStand]: the victim is back at full resources in the middle
    of the canvas with one death, the shooter has one kill and 100
    points, and both are in the store. *)
Lemma lethal_hit_soft_respawn_witness :
  (exists victim,
     get "a" (players (handlePlayerHit half "a" (bullet "b" 105 300 25) lastStand))
       = Some victim /\
     health victim = 100 /\ shield victim = 100 /\ energy victim = 100 /\
     deaths victim = 0 + 1 /\
     position victim = mkVector2D (0.5 * 800) (0.5 * 600)) /\
  (exists shooter,
     get "b" (players (handlePlayerHit half "a" (bullet "b" 105 300 25) lastStand))
       = Some shooter /\
     kills shooter = 0 + 1 /\ score shooter = 0 + 100) /\
  map fst (players (handlePlayerHit half "a" (bullet "b" 105 300 25) lastStand))
    = ["a"; "b"].
Proof.
  destruct (lethal_hit_soft_respawn half "a"
              (fighter "a" 100 300 0 20 40 0 0) (bullet "b" 105 300 25) lastStand)
    as (V & S & _ & K).
  - reflexivity.
  - intro H. discriminate H.
  - split; [exact V | split; [| exact K]].
    exact (S (fighter "b" 700 300 100 100 100 0 0) eq_refl).
Defined.

(** The amended C4 at [cooling], whose weapon cooldown is 0.1: a tick of
    50 ms fires nothing and leaves a cooldown of 0.05, and a fire action
    after it creates nothing. *)
Lemma fire_gating_witness :
  projectiles (updatePlayers cosAt0 sinAt0 atan2At0 half ((50 - 0) / 1000) 0
                 (ticking 50 cooling)) = projectiles cooling /\
  exists player',
    get "a" (players (update cosAt0 sinAt0 atan2At0 half 50 0 cooling)) = Some player' /\
    weaponCooldown player' = 0.1 - (50 - 0) / 1000 /\
    handleShooting cosAt0 sinAt0 half 60 (update cosAt0 sinAt0 atan2At0 half 50 0 cooling)
      = update cosAt0 sinAt0 atan2At0 half 50 0 cooling.
Proof.
  destruct (proj2 (proj2 (fire_gating cosAt0 sinAt0 atan2At0 half 0 60 50 cooling))
              (fighter "a" 100 300 100 100 100 0.1 0) eq_refl)
    as (P & player' & G & W & B).
  - reflexivity.
  - split; [exact P |]. exists player'. split; [exact G |]. split; [exact W |].
    apply B. reflexivity.
Defined.

(** C4, as stated, fails.  In [rapidFire], which the engine can reach,
    the host fires at 290 ms and again at 301 ms, 11 ms later and within
    0.2 seconds of a cooldown freshly set: both projectiles are created
    and are in the store. *)
Lemma second_shot_within_the_cooldown :
  reachable cosAt0 sinAt0 atan2At0 pi half arena rapidFire /\
  map (fun p : Projectile => (id p, ownerId p)) (projectiles rapidFire)
    = [(ProjectileId 290 0.5, "host"); (ProjectileId 301 0.5, "host")].
Proof.
  split.
  - apply reachable_run; [apply reachable_new | timely_by_computation].
  - vm_compute. reflexivity.
Qed.

(** The amended C8 at [boosting], with a tick of 0.5 seconds: the boost
    of the tick's input handling leaves a velocity of 5 along the
    heading, the player is moved by it (from 100 to 250), and the tick
    leaves a velocity of 4.9. *)
Lemma asteroids_keep_their_velocity_witness :
  (exists p0 p1,
     get "a" (players (handlePlayerInput cosAt0 sinAt0 atan2At0 half "a"
                         ((500 - 0) / 1000) 0 (ticking 500 boosting))) = Some p0 /\
     get "a" (players (updatePlayers cosAt0 sinAt0 atan2At0 half
                         ((500 - 0) / 1000) 0 (ticking 500 boosting))) = Some p1 /\
     x (position p1) =
       wrappedInto 800 (x (position p0) + x (velocity p0) * ((500 - 0) / 1000) * 60) /\
     velocity p1 = mkVector2D (x (velocity p0) * 0.98) (y (velocity p0) * 0.98) /\
     velocity (playerAt "a" (update cosAt0 sinAt0 atan2At0 half 500 0 boosting))
       = velocity p1) /\
  x (velocity (playerAt "a" (handlePlayerInput cosAt0 sinAt0 atan2At0 half "a"
                               ((500 - 0) / 1000) 0 (ticking 500 boosting)))) == 5 /\
  x (position (playerAt "a" (update cosAt0 sinAt0 atan2At0 half 500 0 boosting))) == 250 /\
  x (velocity (playerAt "a" (update cosAt0 sinAt0 atan2At0 half 500 0 boosting))) == 4.9.
Proof.
  split; [| split; [| split]; vm_compute; reflexivity].
  assert (L : get (localPlayerId boosting) (players boosting) <> None)
    by (intro H; discriminate H).
  destruct (proj1 (proj2 (proj2
              (asteroids_keep_their_velocity cosAt0 sinAt0 atan2At0 half 500 0 boosting)))
              L "a" (playerAt "a" (update cosAt0 sinAt0 atan2At0 half 500 0 boosting)))
    as (p0 & p1 & G0 & G1 & X & _ & V1 & V).
  - vm_compute. reflexivity.
  - exists p0, p1. split; [exact G0 |]. split; [exact G1 |]. split; [exact X |].
    split; [exact V1 | exact V].
Defined.

(** C5.  The code at two inputs.  In the tick after [twoShots] both
    projectiles of ["bot2"] are within distance 20 of ["bot1"]; the first
    hits and is spliced out, the second moves to its index and is passed
    over: after the tick it is still in the array, within distance 20 of
    ["bot1"], which took one hit only.  In [belt] the first projectile is
    inside both asteroids: the loop over the asteroids splices its index
    twice, and the second projectile, inside neither, is gone too. *)
Theorem splice_skips_and_removes_too_much :
  (afterCollisions = update cosAt0 sinAt0 atan2At0 high 16 16 twoShots /\
   map ownerId (projectiles beforeCollisions) = ["bot2"; "bot2"] /\
   map (inReachOf "bot1" beforeCollisions) (projectiles beforeCollisions) = [true; true] /\
   projectiles afterCollisions = tl (projectiles beforeCollisions) /\
   map (inReachOf "bot1" afterCollisions) (projectiles afterCollisions) = [true] /\
   shield (playerAt "bot1" beforeCollisions) == 100 /\
   shield (playerAt "bot1" afterCollisions) == 75) /\
  (map (fun p : Projectile =>
          map (fun a : Asteroid => distanceLt (position p) (position a) (size a))
              (asteroids belt))
       (projectiles belt) = [[true; true]; [false; false]] /\
   projectiles (checkCollisions high belt) = []).
Proof.
  by_computation.
Qed.

(** The amended C6 at [cooling], with a tick of 0.2 seconds. *)
Lemma cooldowns_decrease_unclamped_witness :
  exists p,
    In ("a", p) (players (handlePlayerInput cosAt0 sinAt0 atan2At0 half "a" 0.2 0 cooling)) /\
    (0 < weaponCooldown p ->
     weaponCooldown
       (playerAt "a" (updatePlayers cosAt0 sinAt0 atan2At0 half 0.2 0 cooling))
       = weaponCooldown p - 0.2) /\
    (weaponCooldown p <= 0 ->
     weaponCooldown
       (playerAt "a" (updatePlayers cosAt0 sinAt0 atan2At0 half 0.2 0 cooling))
       = weaponCooldown p) /\
    (0 < boostCooldown p ->
     boostCooldown
       (playerAt "a" (updatePlayers cosAt0 sinAt0 atan2At0 half 0.2 0 cooling))
       = boostCooldown p - 0.2) /\
    (boostCooldown p <= 0 ->
     boostCooldown
       (playerAt "a" (updatePlayers cosAt0 sinAt0 atan2At0 half 0.2 0 cooling))
       = boostCooldown p).
Proof.
  apply (cooldowns_decrease_unclamped cosAt0 sinAt0 atan2At0 half 0.2 0 cooling "a").
  - vm_compute. intro H. discriminate H.
  - apply get_In. vm_compute. reflexivity.
Defined.

(** C6, as stated, fails.  The cooldown of the specification's example,
    0.1 updated with a [deltaTime] of 0.2, ends at -0.1, in the per-player
    update and in [updatePlayers]; and [firstTick], which the engine can
    reach, holds a player whose [weaponCooldown] is negative. *)
Lemma cooldown_ends_below_zero :
  weaponCooldown (updatePlayer arena 0.2 (fighter "a" 100 300 100 100 100 0.1 0)) == - 0.1 /\
  weaponCooldown (playerAt "a" (updatePlayers cosAt0 sinAt0 atan2At0 half 0.2 0 cooling))
    == - 0.1 /\
  reachable cosAt0 sinAt0 atan2At0 pi half arena firstTick /\
  weaponCooldown (playerAt "host" firstTick) < 0.
Proof.
  split; [vm_compute; reflexivity |].
  split; [vm_compute; reflexivity |].
  split; [exact firstTick_reachable | vm_compute; reflexivity].
Qed.

(** The amended C7 at [boosting], with a tick of 0.5 seconds: the boost
    takes 20 from an energy of 100; and at [boostingAndFiring], where the
    shot of the same call takes a further 10. *)
Lemma boost_impulse_scales_with_deltaTime_witness :
  (exists p',
     get "a" (players (handlePlayerInput cosAt0 sinAt0 atan2At0 half "a" 0.5 0 boosting))
       = Some p' /\
     energy (fst (movementAndBoost cosAt0 sinAt0 half
                    (fighter "a" 100 300 100 100 100 0 0) 0.5 boosting)) = 100 - 20 /\
     boostCooldown p' = 1 /\
     velocity p' = mkVector2D (0 + 1 * 10 * 0.5) (0 + 0 * 10 * 0.5) /\
     energy p' = 100 - 20) /\
  (exists p',
     get "a" (players (handlePlayerInput cosAt0 sinAt0 atan2At0 half "a" 0.5 0
                         boostingAndFiring)) = Some p' /\
     energy (fst (movementAndBoost cosAt0 sinAt0 half
                    (fighter "a" 100 300 100 100 100 0 0) 0.5 boostingAndFiring))
       = 100 - 20 /\
     energy p' = 100 - 20 - 10).
Proof.
  split.
  - destruct (boost_impulse_scales_with_deltaTime cosAt0 sinAt0 atan2At0 half 0.5 0
                boosting (fighter "a" 100 300 100 100 100 0 0) eq_refl)
      as (p' & G & E1 & _ & V1 & B & V & En).
    exists p'. split; [exact G |]. split; [exact E1 |]. split; [exact B |].
    split; [rewrite V; exact V1 | exact En].
  - destruct (boost_impulse_scales_with_deltaTime cosAt0 sinAt0 atan2At0 half 0.5 0
                boostingAndFiring (fighter "a" 100 300 100 100 100 0 0) eq_refl)
      as (p' & G & E1 & _ & _ & _ & _ & En).
    exists p'. split; [exact G |]. split; [exact E1 | exact En].
Defined.

(** C7, as stated, fails.  With a heading of 0, where the cosine is 1, a
    boost from rest in a tick of 0.5 seconds leaves a velocity of 5 along
    the heading and in a tick of 0.25 seconds a velocity of 2.5: not 10,
    and not the same for both. *)
Lemma boost_impulse_is_not_ten :
  x (velocity (playerAt "a"
       (handlePlayerInput cosAt0 sinAt0 atan2At0 half "a" 0.5 0 boosting))) == 5 /\
  x (velocity (playerAt "a"
       (handlePlayerInput cosAt0 sinAt0 atan2At0 half "a" 0.25 0 boosting))) == 2.5 /\
  ~ x (velocity (playerAt "a"
         (handlePlayerInput cosAt0 sinAt0 atan2At0 half "a" 0.5 0 boosting)))
    == x (velocity (playerAt "a" boosting)) + cosAt0 (rotation (playerAt "a" boosting)) * 10.
Proof.
  split; [vm_compute; reflexivity |].
  split; [vm_compute; reflexivity |].
  vm_compute. intro H. discriminate H.
Qed.

(** C8, as stated, fails.  Every asteroid of [drifting], which the engine
    can reach, moves at 0.92 along both axes before a tick and after it:
    the tick does not multiply the velocity by 0.98. *)
Lemma asteroid_velocity_is_not_damped :
  reachable cosAt0 sinAt0 atan2At0 pi high arena drifting /\
  List.length (asteroids drifting) = 25%nat /\
  forallb (fun a : Asteroid =>
             Qeq_bool (x (velocity a)) 0.92 && Qeq_bool (y (velocity a)) 0.92)
          (asteroids drifting) = true /\
  forallb (fun a : Asteroid =>
             Qeq_bool (x (velocity a)) 0.92 && Qeq_bool (y (velocity a)) 0.92)
          (asteroids (update cosAt0 sinAt0 atan2At0 high 16 16 drifting)) = true /\
  ~ 0.92 == 0.92 * 0.98.
Proof.
  split; [apply reachable_run; [apply reachable_new | timely_by_computation] |].
  split; [vm_compute; reflexivity |].
  split; [vm_compute; reflexivity |].
  split; [vm_compute; reflexivity |].
  vm_compute. intro H. discriminate H.
Qed.

(** The amended C10 at [skirmish], for the remote player, with a tick of
    0.5 seconds. *)
Lemma all_players_regenerate_witness :
  exists p,
    In ("b", p) (players (handlePlayerInput cosAt0 sinAt0 atan2At0 half "a" 0.5 0 skirmish)) /\
    ("b" <> "a" -> In ("b", p) (players skirmish)) /\
    shield (playerAt "b" (updatePlayers cosAt0 sinAt0 atan2At0 half 0.5 0 skirmish)) =
      (if shield p <? maxShield p
       then Qmin (maxShield p) (shield p + 10 * 0.5) else shield p) /\
    energy (playerAt "b" (updatePlayers cosAt0 sinAt0 atan2At0 half 0.5 0 skirmish)) =
      (if energy p <? maxEnergy p
       then Qmin (maxEnergy p) (energy p + 20 * 0.5) else energy p).
Proof.
  apply (all_players_regenerate cosAt0 sinAt0 atan2At0 half 0.5 0 skirmish "b").
  - vm_compute. intro H. discriminate H.
  - apply get_In. vm_compute. reflexivity.
Defined.

(** C10, as stated, fails.  In [afterHit], which the engine can reach,
    no player is stored under the local id, ["bot1"] has a shield of 75
    out of 100, and a tick of 16 ms leaves the shield at 75, not at
    [75 + 10 * 0.016]. *)
Lemma no_regeneration_without_local_player :
  reachable cosAt0 sinAt0 atan2At0 pi high arena afterHit /\
  get (localPlayerId afterHit) (players afterHit) = None /\
  shield (playerAt "bot1" afterHit) == 75 /\
  maxShield (playerAt "bot1" afterHit) == 100 /\
  shield (playerAt "bot1" (update cosAt0 sinAt0 atan2At0 high 32 32 afterHit)) == 75 /\
  ~ shield (playerAt "bot1" (update cosAt0 sinAt0 atan2At0 high 32 32 afterHit))
    == Qmin 100 (75 + 10 * 0.016).
Proof.
  split; [apply reachable_run; [apply reachable_new | timely_by_computation] |].
  split; [vm_compute; reflexivity |].
  split; [vm_compute; reflexivity |].
  split; [vm_compute; reflexivity |].
  split; [vm_compute; reflexivity |].
  vm_compute. intro H. discriminate H.
Qed.

(** X2 at [skirmish]: a ping changes nothing. *)
Lemma network_update_ignored_witness : handleNetworkUpdate ping skirmish = skirmish.
Proof.
  apply network_update_ignored. left. intro H. discriminate H.
Defined.

(** X3 at [skirmish] and [report]: player ["b"] has the reported
    position, health, shield and energy, and the score, the maxima and
    the velocity it had. *)
Lemma network_update_writes_five_fields_witness :
  exists p,
    get "b" (players skirmish) = Some p /\
    position (playerAt "b" (handleNetworkUpdate report skirmish)) = mkVector2D 650 300 /\
    health (playerAt "b" (handleNetworkUpdate report skirmish)) = 80 /\
    shield (playerAt "b" (handleNetworkUpdate report skirmish)) = 40 /\
    energy (playerAt "b" (handleNetworkUpdate report skirmish)) = 60 /\
    score (playerAt "b" (handleNetworkUpdate report skirmish)) = score p /\
    maxShield (playerAt "b" (handleNetworkUpdate report skirmish)) = maxShield p /\
    velocity (playerAt "b" (handleNetworkUpdate report skirmish)) = velocity p.
Proof.
  destruct (network_update_writes_five_fields report skirmish "b"
              (playerAt "b" (handleNetworkUpdate report skirmish)))
    as (p & G & (P & _ & H & Sh & En) & S & _ & _ & _ & M & _ & _ & _ & V & _).
  - reflexivity.
  - exists p. split; [exact G |]. split; [exact P |]. split; [exact H |].
    split; [exact Sh |]. split; [exact En |]. split; [exact S |].
    split; [exact M | exact V].
Defined.

(** X4: what [skirmish] sends about ["a"] arrives in [peer]. *)
Lemma network_round_trip_witness :
  exists sender received,
    get "a" (players skirmish) = Some sender /\
    get "a" (players (handleNetworkUpdate dispatch peer)) = Some received /\
    position received = position sender /\
    rotation received = rotation sender /\
    health received = health sender /\
    shield received = shield sender /\
    energy received = energy sender.
Proof.
  apply (network_round_trip skirmish peer dispatch (fighter "a" 100 300 30 100 100 0 0)).
  - reflexivity.
  - intro H. discriminate H.
  - reflexivity.
Defined.

(** X5 at [skirmish] and [report], whose values are within the maxima
    of ["b"]. *)
Lemma network_update_keeps_bounds_witness :
  playersBounded (players (handleNetworkUpdate report skirmish)).
Proof.
  apply network_update_keeps_bounds.
  - unfold playersBounded.
    constructor; [| constructor; [| constructor]];
      (split; [| split]; split; closed_order).
  - intros p G. injection G as <-.
    split; [| split]; split; closed_order.
Defined.

(** X9 at [duel], 16 ms later: the projectile of ["b"] is the one that
    was there, 16 ms older. *)
Lemma expired_projectiles_are_removed_witness :
  exists p,
    In p (projectiles duel) /\
    lifetime (moveProjectile 0.016 (bullet "b" 105 300 50)) = lifetime p - 0.016 /\
    inFlight (canvas duel) (moveProjectile 0.016 (bullet "b" 105 300 50)).
Proof.
  destruct (expired_projectiles_are_removed 0.016 duel
              (moveProjectile 0.016 (bullet "b" 105 300 50)))
    as (p & Hin & L & _ & _ & _ & _ & F).
  - left. reflexivity.
  - exists p. split; [exact Hin |]. split; [exact L | exact F].
Defined.

(** X13 at [showdown]: the score of ["b"], who makes a kill and collects
    the prize in the tick, does not go down (it goes from 0 to 130). *)
Lemma scores_never_decrease_witness :
  score (fighter "b" 700 300 100 100 100 0 0) <= score (playerAt "b" afterShowdown) /\
  score (playerAt "b" afterShowdown) == 130.
Proof.
  split; [| vm_compute; reflexivity].
  apply (scores_never_decrease cosAt0 sinAt0 atan2At0 half 16 16 showdown "b").
  - constructor; [closed_order | constructor].
  - reflexivity.
  - vm_compute. reflexivity.
Defined.

(** X14 at [showdown]: ["a"], destroyed in the tick, has a positive
    health after it. *)
Lemma players_stay_alive_witness :
  exists p', get "a" (players afterShowdown) = Some p' /\ 0 < health p'.
Proof.
  apply (players_stay_alive cosAt0 sinAt0 atan2At0 half 16 16 showdown "a"
           (fighter "a" 100 300 0 20 40 0 0)).
  - constructor; [closed_order | constructor].
  - reflexivity.
  - closed_order.
  - closed_order.
Defined.

(** X8 at [duel], over two ticks. *)
Lemma elapsed_time_never_goes_back_witness :
  gameTime duel
    <= gameTime (run cosAt0 sinAt0 atan2At0 half (ticks [(16, 16); (33, 33)]) duel) /\
  lastUpdate (run cosAt0 sinAt0 atan2At0 half (ticks [(16, 16); (33, 33)]) duel)
    = last (map fst [(16, 16); (33, 33)]) (lastUpdate duel).
Proof.
  apply elapsed_time_never_goes_back. timely_by_computation.
Defined.

(** X15 at [decided], where ["a"] has 1000 points. *)
Lemma finished_game_stays_finished_witness :
  isGameFinished (update cosAt0 sinAt0 atan2At0 half 16 16 decided) = true.
Proof.
  apply finished_game_stays_finished.
  - constructor; [closed_order | constructor].
  - constructor; [| constructor; [| constructor]].
    + intros [H | []]. discriminate H.
    + intros [].
  - closed_order.
  - reflexivity.
Defined.

Lemma arena_width : 0 <= width arena.
Proof. closed_order. Defined.

Lemma arena_height : 0 <= height arena.
Proof. closed_order. Defined.

(** X16 at [firstTick]. *)
Lemma asteroid_field_is_permanent_witness :
  map (fun a : Asteroid => id a) (asteroids firstTick) = map AsteroidId (seq 0 25) /\
  Forall (asteroidOk arena) (asteroids firstTick).
Proof.
  exact (asteroid_field_is_permanent cosAt0 sinAt0 atan2At0 pi half arena firstTick
           half_inUnitInterval arena_width arena_height firstTick_reachable).
Defined.

(** X18 at [firstTick]. *)
Lemma no_power_up_is_stuck_witness : Forall reappears (powerUps firstTick).
Proof.
  exact (no_power_up_is_stuck cosAt0 sinAt0 atan2At0 pi half arena firstTick
           half_inUnitInterval firstTick_reachable).
Defined.

(** X19 at [showdown]: ["a"], destroyed in the tick, is on the canvas
    after it. *)
Lemma players_stay_on_canvas_witness :
  onCanvas (canvas showdown) (position (playerAt "a" afterShowdown)).
Proof.
  apply (players_stay_on_canvas cosAt0 sinAt0 atan2At0 half 16 16 showdown "a").
  - exact half_inUnitInterval.
  - exact arena_width.
  - exact arena_height.
  - intro H. discriminate H.
  - apply get_In. vm_compute. reflexivity.
Defined.

(** X20 at [flooded], where a message has put ["bot1"] at a health of
    500: the rows are those of the store, the row of the host is in range
    and that of ["bot1"] shows 500. *)
Lemma statistics_of_an_online_engine_witness :
  (map PlayerStats.id (GameStats.players (getGameStats flooded))
     = map fst (players flooded) /\
   NoDup (map PlayerStats.id (GameStats.players (getGameStats flooded))) /\
   Forall (rowNamed (localPlayerId flooded)) (GameStats.players (getGameStats flooded)) /\
   Forall (fun kp : string * Player =>
             bounded (snd kp) ->
             rowInRange (playerStats (localPlayerId flooded) (snd kp)))
          (players flooded)) /\
  map (fun row => (PlayerStats.id row, PlayerStats.name row, PlayerStats.health row))
      (GameStats.players (getGameStats flooded))
    = [("host", "You", 100%Z); ("bot1", "Opponent", 500%Z)].
Proof.
  split; [| vm_compute; reflexivity].
  apply (statistics_of_an_online_engine cosAt0 sinAt0 atan2At0 pi half arena flooded).
  apply online_message, online_run, online_new.
Defined.

(** X21 at [crossfire]: ["a"] is unharmed by the projectile next to it,
    and is credited with the kill the other one makes. *)
Lemma own_projectiles_do_no_harm_witness :
  (exists p',
     get "a" (players (checkCollisions half crossfire)) = Some p' /\
     unharmed (fighter "a" 100 300 100 100 100 0 0) p') /\
  kills (playerAt "a" (checkCollisions half crossfire)) == 1 /\
  deaths (playerAt "b" (checkCollisions half crossfire)) == 1.
Proof.
  split; [| split; vm_compute; reflexivity].
  apply own_projectiles_do_no_harm.
  - constructor.
  - constructor; [reflexivity | constructor; [reflexivity | constructor]].
  - reflexivity.
  - closed_order.
  - closed_order.
Defined.
